(** * Decision-and-streaming engine of the chat backend

    A shallow embedding of [backend/api/chat.py] (with the tables of
    [backend/chat/models.py]) and the properties of its routing, retrieval,
    streaming and persistence logic.

    Conventions of the embedding:
    - a Python [str] is the list of its Unicode code points;
    - a Python [float] score is the rational number it denotes, and the
      decimal literals of the source denote their decimal values;
    - a call that may raise returns a [Result]; [str(e)] is the message;
    - external collaborators (generation and embedding backends, the vector
      index, the SQL text search, the tool registry, the clock) are fields of
      an environment record [Env]. *)

From Stdlib Require Import ZArith NArith QArith Lia Lqa.
From Stdlib Require Import Strings.String Strings.Ascii.
From stdpp Require Import base option list gmap sorting.

Local Open Scope list_scope.

(* ===================================================================== *)
(** * Python strings *)
(* ===================================================================== *)

Module PyStr.

(** A Unicode code point. *)
Definition char := N.
Definition str := list char.

Definition bytes_of_string (s : string) : list N :=
  List.map (fun b => N_of_ascii b) (list_ascii_of_string s).

Definition cont (b : N) : N := N.land b 63.

(** UTF-8 decoding, used only to write the string literals of the source. *)
Fixpoint utf8_decode (bs : list N) : str :=
  match bs with
  | [] => []
  | b0 :: r0 =>
      if (b0 <? 128)%N then b0 :: utf8_decode r0
      else if (b0 <? 224)%N then
        match r0 with
        | b1 :: r1 =>
            (N.shiftl (N.land b0 31) 6 + cont b1)%N :: utf8_decode r1
        | [] => []
        end
      else if (b0 <? 240)%N then
        match r0 with
        | b1 :: b2 :: r2 =>
            (N.shiftl (N.land b0 15) 12 + N.shiftl (cont b1) 6 + cont b2)%N
              :: utf8_decode r2
        | _ => []
        end
      else
        match r0 with
        | b1 :: b2 :: b3 :: r3 =>
            (N.shiftl (N.land b0 7) 18 + N.shiftl (cont b1) 12
             + N.shiftl (cont b2) 6 + cont b3)%N :: utf8_decode r3
        | _ => []
        end
  end.

Definition lit (s : string) : str := utf8_decode (bytes_of_string s).

Definition in_range (lo hi c : N) : bool := ((lo <=? c) && (c <=? hi))%N.

(** [str.isspace] on one character. *)
Definition isspace (c : char) : bool :=
  in_range 9 13 c || in_range 28 32 c || (c =? 133)%N || (c =? 160)%N
  || (c =? 5760)%N || in_range 8192 8202 c || (c =? 8232)%N
  || (c =? 8233)%N || (c =? 8239)%N || (c =? 8287)%N || (c =? 12288)%N.

Fixpoint lstrip (s : str) : str :=
  match s with
  | c :: r => if isspace c then lstrip r else s
  | [] => []
  end.

Definition rstrip (s : str) : str := reverse (lstrip (reverse s)).

(** [s.strip()] *)
Definition strip (s : str) : str := rstrip (lstrip s).

(** Truth value of a string: non-empty. *)
Definition truthy (s : str) : bool :=
  match s with [] => false | _ => true end.

(** [s[i:j]] for [0 <= i <= j]. *)
Definition slice (s : str) (i j : nat) : str := take (j - i) (drop i s).

(** [range(lo, hi, step)] for [step > 0]; [fuel] bounds the number of
    elements. *)
Fixpoint range_from (fuel lo hi step : nat) : list nat :=
  match fuel with
  | O => []
  | S fuel' =>
      if lo <? hi then lo :: range_from fuel' (lo + step) hi step else []
  end.

Definition range (lo hi step : nat) : list nat := range_from hi lo hi step.

Definition slash : char := 47%N.

(** [s.split("/")[-1]]: what follows the last slash. *)
Fixpoint last_segment_from (acc s : str) : str :=
  match s with
  | [] => acc
  | c :: r =>
      if (c =? slash)%N then last_segment_from r r
      else last_segment_from acc r
  end.

Definition last_segment (s : str) : str := last_segment_from s s.

Definition contains_slash (s : str) : bool := existsb (N.eqb slash) s.

End PyStr.
Import PyStr.

(** Outcome of a call that may raise: the value, or the message of the
    exception. *)
Inductive Result (A : Type) : Type :=
| Ok (a : A)
| Raise (msg : str).
Arguments Ok {A} a.
Arguments Raise {A} msg.

(* ===================================================================== *)
(** * The mode router (stream_generator, decision thresholds) *)
(* ===================================================================== *)

Inductive Mode := RAG | TOOL | CHAT.

(** Classification of the text search, from the two flags the source keeps. *)
Inductive MatchKind := MKNone | MKExact | MKFuzzy.

Definition match_kind (keyword_match is_exact_match : bool) : MatchKind :=
  if keyword_match then (if is_exact_match then MKExact else MKFuzzy)
  else MKNone.

Definition Qge_b (a b : Q) : bool := Qle_bool b a.
Definition Qgt_b (a b : Q) : bool := negb (Qle_bool a b).

Definition TOOL_THRESHOLD : Q := 4 # 10.
Definition RAG_THRESHOLD : Q := 1 # 2.
Definition KEYWORD_FLOOR : Q := 3 # 10.

(** [rag_score = max_score if max_score >= RAG_THRESHOLD
                 or (keyword_match and max_score >= 0.3) else 0] *)
Definition rag_score (max_score : Q) (keyword_match : bool) : Q :=
  if Qge_b max_score RAG_THRESHOLD
     || (keyword_match && Qge_b max_score KEYWORD_FLOOR)
  then max_score else 0%Q.

(** [tool_score = tool_match_score if tool_match_score >= TOOL_THRESHOLD
                  else 0] *)
Definition tool_score (tool_match_score : Q) : Q :=
  if Qge_b tool_match_score TOOL_THRESHOLD then tool_match_score else 0%Q.

Definition selected_mode (max_score : Q) (keyword_match : bool)
    (tool_match_score : Q) : Mode :=
  let rag_score := rag_score max_score keyword_match in
  let tool_score := tool_score tool_match_score in
  if Qgt_b rag_score 0 && Qge_b rag_score tool_score then RAG
  else if Qgt_b tool_score 0 && Qgt_b tool_score rag_score then TOOL
  else CHAT.

(* ===================================================================== *)
(** * Data model (chat/models.py) and wire types *)
(* ===================================================================== *)

Definition UUID := N.
Definition User := N.

(** One attribution record: the dict built for a passage, or the dict built
    for a tool invocation (the one with ["type": "tool"]). *)
Inductive SourceRecord :=
| DocSource (file_name : str) (page : option str)
| ToolSource (name tool_id args : str).

Global Instance SourceRecord_eq_dec : EqDecision SourceRecord.
Proof. solve_decision. Defined.

Record ChatSession := mkChatSession {
  cs_user : option User;
  cs_title : str;
  cs_is_active : bool;
  cs_created_at : Z;
  cs_updated_at : Z
}.

Record ChatMessage := mkChatMessage {
  cm_session : UUID;
  cm_role : str;
  cm_content : str;
  cm_sources : list SourceRecord;
  cm_elapsed_time : option Z;
  cm_created_at : Z
}.

(** The two tables. [db_messages] is kept in insertion order. *)
Record DB := mkDB {
  db_sessions : gmap UUID ChatSession;
  db_messages : list ChatMessage
}.

Record LlamaChatMessage := mkLlama { role : str; content : str }.

Record MessageSchema := mkMessageSchema {
  ms_role : str;
  ms_text : str;
  ms_sources : list SourceRecord;
  ms_elapsed : option Z
}.

Record ChatRequest := mkChatRequest {
  req_messages : list MessageSchema;
  req_session_id : option str;
  req_use_rag : option bool
}.

(** One line of the response body. *)
Inductive Event :=
| TextEvent (text : str)
| SourcesEvent (sources : list SourceRecord).

(* ===================================================================== *)
(** * External collaborators *)
(* ===================================================================== *)

(** Passage metadata, resolved to the three keys the engine reads. *)
Record Meta := mkMeta {
  meta_file_name : option str;
  meta_title : option str;
  meta_page_label : option str
}.

(** The [metadata_] column of a text-search row: a dict, a JSON text, or
    something else. *)
Inductive RawMeta :=
| MetaDict (m : Meta)
| MetaText (s : str)
| MetaOther.

Record Row := mkRow { row_text : str; row_metadata : RawMeta }.

Record Node := mkNode {
  node_score : option Q;
  node_content : str;
  node_metadata : Meta
}.

Definition Kwargs := list (str * str).

Record Tool := mkTool {
  tool_name : str;
  tool_description : option str;
  tool_call : Kwargs -> Result str
}.

Record ToolCall := mkToolCall { tc_tool_name : str; tc_tool_kwargs : Kwargs }.

(** A token stream: the deltas it yields and how the iteration ends. *)
Inductive StreamEnd := EndOk | EndRaise (msg : str).
Record Stream := mkStream { chunks : list (option str); ending : StreamEnd }.

(** The response of [chat_with_tools]: its text, and what
    [get_tool_calls_from_response] makes of it. *)
Record Response := mkResponse {
  message_content : str;
  tool_calls_of : Result (list ToolCall)
}.

Record LLM := mkLLM {
  stream_chat : list LlamaChatMessage -> Stream;
  chat_with_tools : list Tool -> str -> list LlamaChatMessage -> Result Response
}.

Definition Vec := list Q.

Record EmbedModel := mkEmbed { get_text_embedding : str -> Result Vec }.

Record Env := mkEnv {
  init_llm : Result (option LLM);
  init_embedding : Result EmbedModel;
  get_mcp_tools : list Tool;
  get_tool_server_map : gmap str str;
  (** the vector index: [retriever.retrieve] with [similarity_top_k=3] *)
  retrieve : str -> Result (list Node);
  (** the table [data_document_embeddings], or the failure of its cursor *)
  data_document_embeddings : Result (list Row);
  (** [text ILIKE %pattern%] *)
  ilike : str -> str -> bool;
  (** the order in which [list(set(l))] enumerates *)
  set_order : list str -> list str;
  (** [json.loads] of a metadata text, when it yields a dict *)
  json_loads : str -> option Meta;
  (** [np.dot(a, b) / (norm(a) * norm(b))] *)
  np_cosine : Vec -> Vec -> Q;
  (** [str] of a kwargs dict *)
  str_kwargs : Kwargs -> str;
  (** parsing of a session identifier into a UUID *)
  parse_uuid : str -> option UUID;
  uuid_str : UUID -> str;
  uuid4 : UUID;
  (** [strftime] of the current time, elapsed milliseconds, and the
      timestamp given to rows created in this turn *)
  current_time_str : str;
  elapsed_time : Z;
  now : Z
}.

(** What [list(set(l))] guarantees whatever the hashing: no duplicates and
    the same elements. *)
Definition set_order_ok (env : Env) : Prop :=
  forall l : list str,
    NoDup (set_order env l) /\ (forall x, x ∈ set_order env l <-> x ∈ l).

Definition nonempty {A} (l : list A) : bool :=
  match l with [] => false | _ => true end.

Definition str_eqb (a b : str) : bool := bool_decide (a = b).

(** [a or b] on an optional string. *)
Definition py_or (a : option str) (b : str) : str :=
  match a with
  | Some s => if truthy s then s else b
  | None => b
  end.

(** [sep.join(l)] *)
Fixpoint join (sep : str) (l : list str) : str :=
  match l with
  | [] => []
  | [x] => x
  | x :: r => x ++ sep ++ join sep r
  end.

Definition nl : str := [10%N].

(* ===================================================================== *)
(** * Retrieval, text search and tool matching (stream_generator, part 1) *)
(* ===================================================================== *)

(** [max(xs)] of a non-empty sequence: the first maximal element. *)
Definition py_max (xs : list Q) : option Q :=
  match xs with
  | [] => None
  | x :: r => Some (fold_left (fun m y => if Qgt_b y m then y else m) r x)
  end.

(** Step 1: the retrieved nodes and [max_score]. When every score is null,
    [max] raises on the empty sequence after [retrieved_nodes] was bound. *)
Definition vector_retrieval (env : Env) (use_rag : bool)
    (current_message : str) : list Node * Q :=
  if use_rag then
    match retrieve env current_message with
    | Raise _ => ([], 0%Q)
    | Ok retrieved_nodes =>
        if nonempty retrieved_nodes then
          match py_max (omap node_score retrieved_nodes) with
          | Some m => (retrieved_nodes, m)
          | None => (retrieved_nodes, 0%Q)
          end
        else (retrieved_nodes, 0%Q)
    end
  else ([], 0%Q).

(** [cursor.execute(... WHERE text ILIKE p1 AND ... LIMIT 3)] followed by
    [fetchall()]: the first three rows matching every pattern. *)
Definition execute (env : Env) (patterns : list str) : Result (list Row) :=
  match data_document_embeddings env with
  | Raise e => Raise e
  | Ok table =>
      Ok (take 3 (List.filter
                    (fun r => forallb (fun p => ilike env p (row_text r)) patterns)
                    table))
  end.

(** The character class [一-龥]. *)
Definition is_chinese (c : char) : bool := in_range 19968 40869 c.

(** [''.join(re.findall(r'[一-龥]', query_text))] *)
Definition chinese_str (query_text : str) : str := List.filter is_chinese query_text.

(** [[s[i:i+2] for i in range(0, len(s) - 1, 2)]] *)
Definition split_keywords (s : str) : list str :=
  List.map (fun i => slice s i (i + 2)) (range 0 (length s - 1) 2).

(** [keywords = list(set(keywords))[:3]] *)
Definition keywords (env : Env) (s : str) : list str :=
  take 3 (set_order env (split_keywords s)).

Record KeywordSearch := mkKeywordSearch {
  keyword_match : bool;
  keyword_results : list Row;
  is_exact_match : bool
}.

Definition no_keyword_match : KeywordSearch := mkKeywordSearch false [] false.

(** The fallback of the text search, entered when the exact query found no
    row. [None] when the fallback is skipped, otherwise the outcome of its
    query. *)
Definition fuzzy_search (env : Env) (query_text : str)
    : option (Result (list Row)) :=
  let chinese_str := chinese_str query_text in
  if 4 <=? length chinese_str then
    let keywords := keywords env chinese_str in
    if 2 <=? length keywords then Some (execute env keywords) else None
  else None.

(** Step 2 of [stream_generator]: the text search. *)
Definition keyword_search (env : Env) (current_message : str) : KeywordSearch :=
  if truthy (strip current_message) && (2 <? length (strip current_message))
  then
    let query_text := strip current_message in
    match execute env [query_text] with
    | Raise _ => no_keyword_match
    | Ok rows =>
        if nonempty rows then mkKeywordSearch true rows true
        else
          match fuzzy_search env query_text with
          | Some (Raise _) => no_keyword_match
          | Some (Ok rows') =>
              if nonempty rows' then mkKeywordSearch true rows' false
              else no_keyword_match
          | None => no_keyword_match
          end
    end
  else no_keyword_match.

(** [f"{tool.metadata.name}: {tool.metadata.description or ''}"] *)
Definition tool_desc (tool : Tool) : str :=
  tool_name tool ++ lit ": " ++ py_or (tool_description tool) [].

(** The loop over the tools, inside the single [try] of the matching step:
    an embedding that raises leaves the loop with the variables as they
    are. *)
Fixpoint tool_match_loop (env : Env) (embed_model : EmbedModel)
    (query_embedding : Vec) (tools : list Tool)
    (tool_match_score : Q) (matched_tool_name : option str)
    : Q * option str :=
  match tools with
  | [] => (tool_match_score, matched_tool_name)
  | tool :: rest =>
      match get_text_embedding embed_model (tool_desc tool) with
      | Raise _ => (tool_match_score, matched_tool_name)
      | Ok tool_embedding =>
          let similarity := np_cosine env query_embedding tool_embedding in
          if Qgt_b similarity tool_match_score
          then tool_match_loop env embed_model query_embedding rest
                 similarity (Some (tool_name tool))
          else tool_match_loop env embed_model query_embedding rest
                 tool_match_score matched_tool_name
      end
  end.

(** The tool matching step: [(tool_match_score, matched_tool_name)]. *)
Definition tool_matching (env : Env) (embed_model : EmbedModel)
    (mcp_tools : list Tool) (current_message : str) : Q * option str :=
  if nonempty mcp_tools then
    match get_text_embedding embed_model current_message with
    | Raise _ => (0%Q, None)
    | Ok query_embedding =>
        tool_match_loop env embed_model query_embedding mcp_tools 0%Q None
    end
  else (0%Q, None).

(* ===================================================================== *)
(** * The generator (stream_generator, part 2) *)
(* ===================================================================== *)

(** The two locals the branches mutate. *)
Record GenState := mkGenState {
  full_response_text : str;
  sources : list SourceRecord
}.

(** A piece of the generator body: from the locals, the events it yields,
    the locals it leaves and its value or the exception it raises. What was
    yielded and assigned before an exception stays. *)
Definition Gen (A : Type) : Type := GenState -> list Event * GenState * Result A.

Definition ret {A} (a : A) : Gen A := fun st => ([], st, Ok a).

Definition bind {A B} (m : Gen A) (f : A -> Gen B) : Gen B :=
  fun st =>
    match m st with
    | (evs, st1, Ok a) =>
        match f a st1 with
        | (evs', st2, r) => (evs ++ evs', st2, r)
        end
    | (evs, st1, Raise e) => (evs, st1, Raise e)
    end.

Notation "'let*' x ':=' m 'in' k" := (bind m (fun x => k))
  (at level 10, x name, m at level 100, k at level 200, only parsing).
Notation "m >> k" := (bind m (fun _ => k))
  (at level 100, k at level 200, right associativity, only parsing).

Definition yield (e : Event) : Gen unit := fun st => ([e], st, Ok tt).
Definition raise {A} (e : str) : Gen A := fun st => ([], st, Raise e).
Definition lift {A} (r : Result A) : Gen A := fun st => ([], st, r).

(** [try: m except Exception as e: h e] *)
Definition try_except {A} (m : Gen A) (h : str -> Gen A) : Gen A :=
  fun st =>
    match m st with
    | (evs, st1, Ok a) => (evs, st1, Ok a)
    | (evs, st1, Raise e) =>
        match h e st1 with
        | (evs', st2, r) => (evs ++ evs', st2, r)
        end
    end.

Definition get_sources : Gen (list SourceRecord) := fun st => ([], st, Ok (sources st)).

(** [full_response_text += delta] *)
Definition append_text (delta : str) : Gen unit :=
  fun st => ([], mkGenState (full_response_text st ++ delta) (sources st), Ok tt).

(** [full_response_text = text] *)
Definition set_text (text : str) : Gen unit :=
  fun st => ([], mkGenState text (sources st), Ok tt).

(** [sources.append(s)] *)
Definition append_source (s : SourceRecord) : Gen unit :=
  fun st => ([], mkGenState (full_response_text st) (sources st ++ [s]), Ok tt).

(** [if s not in sources: sources.append(s)] *)
Definition append_source_if_new (s : SourceRecord) : Gen unit :=
  fun st =>
    if bool_decide (s ∈ sources st) then ([], st, Ok tt)
    else append_source s st.

Fixpoint for_each {A} (l : list A) (body : A -> Gen unit) : Gen unit :=
  match l with
  | [] => ret tt
  | x :: r => body x >> for_each r body
  end.

(** [if chunk.delta: full_response_text += chunk.delta; yield {"text": ...}] *)
Definition on_chunk (delta : option str) : Gen unit :=
  match delta with
  | Some d =>
      if truthy d then (append_text d >> yield (TextEvent d)) else ret tt
  | None => ret tt
  end.

(** [for chunk in response_stream: ...] *)
Definition for_chunks (s : Stream) : Gen unit :=
  for_each (chunks s) on_chunk >>
  match ending s with EndOk => ret tt | EndRaise e => raise e end.

Definition attribute_error : str :=
  lit "'NoneType' object has no attribute 'stream_chat'".

(** [response_stream = llm.stream_chat(messages)] and the loop over it;
    [llm] is [None] when no API key is configured. *)
Definition stream_reply (llm : option LLM) (messages : list LlamaChatMessage)
    : Gen unit :=
  match llm with
  | Some l => for_chunks (stream_chat l messages)
  | None => raise attribute_error
  end.

Definition unknown_file : str := lit "未知文件".

(** [if "/" in str(file_name): file_name = str(file_name).split("/")[-1]] *)
Definition base_name (file_name : str) : str :=
  if contains_slash file_name then last_segment file_name else file_name.

(** The source record of a text-search row (title is a fallback there). *)
Definition keyword_source (meta : Meta) : SourceRecord :=
  DocSource
    (base_name (py_or (meta_file_name meta) (py_or (meta_title meta) unknown_file)))
    (meta_page_label meta).

(** The source record of a retrieved node. *)
Definition node_source (meta : Meta) : SourceRecord :=
  DocSource (base_name (py_or (meta_file_name meta) unknown_file))
            (meta_page_label meta).

(** Resolution of the [metadata_] column; [None] when [json.loads] or the
    first [meta.get] raises, which the bare [except: pass] swallows. *)
Definition resolve_meta (env : Env) (raw_meta : RawMeta) : option Meta :=
  match raw_meta with
  | MetaText s => json_loads env s
  | MetaDict m => Some m
  | MetaOther => Some (mkMeta None None None)
  end.

Definition collect_keyword_sources (env : Env) (keyword_results : list Row)
    : Gen unit :=
  for_each keyword_results (fun row =>
    match resolve_meta env (row_metadata row) with
    | Some meta => append_source_if_new (keyword_source meta)
    | None => ret tt
    end).

Definition collect_node_sources (retrieved_nodes : list Node) : Gen unit :=
  for_each retrieved_nodes (fun node =>
    append_source_if_new (node_source (node_metadata node))).

Definition source_file_name (s : SourceRecord) : str :=
  match s with
  | DocSource f _ => f
  | ToolSource _ _ _ => lit "未知"
  end.

Definition prompt_head (env : Env) : str :=
  lit "你是一个专业的 AI 助手。当前时间是: " ++ current_time_str env ++ lit "。".

(** The system prompt of the RAG branch, by match kind and number of
    distinct files. *)
Definition rag_system_prompt (env : Env) (is_exact_match : bool)
    (unique_files : list str) : str :=
  if is_exact_match then
    prompt_head env ++ lit "请根据参考资料回答问题，使用 Markdown 格式。"
  else if 1 <? length unique_files then
    prompt_head env ++ nl
    ++ lit "注意：用户的查询是模糊匹配的结果，我在以下多个文档中找到了相关信息："
    ++ nl ++ join nl (List.map (fun f => lit "- " ++ f) unique_files) ++ nl ++ nl
    ++ lit "请先询问用户想要查询哪个文档的信息，不要直接给出答案。用简洁的方式列出这些文档让用户选择。"
  else
    prompt_head env ++ nl
    ++ lit "注意：用户的查询是模糊匹配的结果，我在《"
    ++ match unique_files with f :: _ => f | [] => lit "知识库" end
    ++ lit "》中找到了可能相关的信息。" ++ nl
    ++ lit "请先简要说明找到了什么内容，并询问用户是否是他们想要的信息。如果用户确认，再详细回答。".

Definition rag_context (rag_texts : list str) : str :=
  nl ++ nl ++ lit "参考资料:" ++ nl ++ join (nl ++ lit "---" ++ nl) rag_texts.

Definition system_msg (s : str) : LlamaChatMessage := mkLlama (lit "system") s.
Definition user_msg (s : str) : LlamaChatMessage := mkLlama (lit "user") s.
Definition assistant_msg (s : str) : LlamaChatMessage := mkLlama (lit "assistant") s.

(** Branch 1: answer from the knowledge base. *)
Definition rag_branch (env : Env) (llm : option LLM) (ks : KeywordSearch)
    (retrieved_nodes : list Node) (current_message : str)
    (history : list LlamaChatMessage) : Gen unit :=
  let* rag_context :=
    (if keyword_match ks && nonempty (keyword_results ks) then
       collect_keyword_sources env (keyword_results ks) >>
       ret (rag_context (List.map row_text (keyword_results ks)))
     else
       collect_node_sources retrieved_nodes >>
       ret (rag_context (List.map node_content retrieved_nodes))) in
  let* sources := get_sources in
  let unique_files := set_order env (List.map source_file_name sources) in
  let system_prompt := rag_system_prompt env (is_exact_match ks) unique_files in
  stream_reply llm
    ([system_msg system_prompt] ++ history
     ++ [user_msg (current_message ++ nl ++ rag_context)]).

Definition tool_system_prompt : str :=
  lit "你是一个能够调用工具的智能助手。当用户询问天气、地图、位置等信息时，调用提供的工具获取实时数据。如果用户没有提供必要的参数（如城市名），请先询问用户。".

(** [llm.chat_with_tools(...)]; on [None] the attribute access raises. *)
Definition call_with_tools (llm : option LLM) (mcp_tools : list Tool)
    (current_message : str) (tool_history : list LlamaChatMessage)
    : Result Response :=
  match llm with
  | Some l => chat_with_tools l mcp_tools current_message tool_history
  | None => Raise (lit "'NoneType' object has no attribute 'chat_with_tools'")
  end.

(** The source record of one invocation. *)
Definition tool_source (env : Env) (tc : ToolCall) : SourceRecord :=
  ToolSource (default (tc_tool_name tc) (get_tool_server_map env !! tc_tool_name tc))
             (tc_tool_name tc)
             (str_kwargs env (tc_tool_kwargs tc)).

(** The inner loop of an invocation: the first tool of that name is called;
    its result, or the note of its failure, is the line added to
    [tool_results]. *)
Fixpoint call_tool (mcp_tools : list Tool) (tc : ToolCall) : list str :=
  match mcp_tools with
  | [] => []
  | tool :: rest =>
      if str_eqb (tool_name tool) (tc_tool_name tc) then
        match tool_call tool (tc_tool_kwargs tc) with
        | Ok result => [tc_tool_name tc ++ lit ": " ++ result]
        | Raise te => [tc_tool_name tc ++ lit " 失败: " ++ te]
        end
      else call_tool rest tc
  end.

(** [for tc in tool_calls: ...]: records the sources, returns
    [tool_results]. *)
Fixpoint execute_tool_calls (env : Env) (mcp_tools : list Tool)
    (tool_calls : list ToolCall) : Gen (list str) :=
  match tool_calls with
  | [] => ret []
  | tc :: rest =>
      append_source (tool_source env tc) >>
      let* tool_results := execute_tool_calls env mcp_tools rest in
      ret (call_tool mcp_tools tc ++ tool_results)
  end.

(** [for i in range(0, len(text), 50): yield {"text": text[i:i+50]}] *)
Definition yield_slices (text : str) : Gen unit :=
  for_each (range 0 (length text) 50)
           (fun i => yield (TextEvent (slice text i (i + 50)))).

(** The fallback of the tool branch: plain conversation. *)
Definition tool_fallback (llm : option LLM) (current_message : str)
    (history : list LlamaChatMessage) : Gen unit :=
  stream_reply llm
    ([system_msg (lit "你是助手。")] ++ history ++ [user_msg current_message]).

(** Branch 2: tool invocation, with its own [try ... except]. *)
Definition tool_branch (env : Env) (llm : option LLM) (mcp_tools : list Tool)
    (current_message : str) (history : list LlamaChatMessage) : Gen unit :=
  try_except
    (let tool_history := system_msg tool_system_prompt :: history in
     let* response :=
       lift (call_with_tools llm mcp_tools current_message tool_history) in
     let tool_calls :=
       match tool_calls_of response with Ok l => l | Raise _ => [] end in
     if nonempty tool_calls then
       let* tool_results := execute_tool_calls env mcp_tools tool_calls in
       let tool_context := join nl tool_results in
       stream_reply llm
         [ system_msg (lit "你是助手。当前时间是: " ++ current_time_str env
                       ++ lit "。根据工具返回的信息回答用户。");
           user_msg current_message;
           assistant_msg (lit "工具返回:" ++ nl ++ tool_context);
           user_msg (lit "请用这些信息回答我。") ]
     else
       set_text (message_content response) >>
       yield_slices (message_content response))
    (fun _ => tool_fallback llm current_message history).

(** Branch 3: plain conversation. *)
Definition chat_branch (env : Env) (llm : option LLM) (current_message : str)
    (history : list LlamaChatMessage) : Gen unit :=
  let system_prompt :=
    lit "你是一个友好的 AI 助手。当前时间是: " ++ current_time_str env ++ lit "。" in
  stream_reply llm
    ([system_msg system_prompt] ++ history ++ [user_msg current_message]).

(** Everything [stream_generator] computes before its guarded block. *)
Record Routing := mkRouting {
  retrieved_nodes : list Node;
  max_score : Q;
  keyword : KeywordSearch;
  tool_match_score : Q;
  matched_tool_name : option str
}.

Definition routing (env : Env) (embed_model : EmbedModel) (use_rag : bool)
    (current_message : str) : Routing :=
  let '(retrieved_nodes, max_score) := vector_retrieval env use_rag current_message in
  let ks := keyword_search env current_message in
  let '(tool_match_score, matched_tool_name) :=
    tool_matching env embed_model (get_mcp_tools env) current_message in
  mkRouting retrieved_nodes max_score ks tool_match_score matched_tool_name.

Definition mode_of (r : Routing) : Mode :=
  selected_mode (max_score r) (keyword_match (keyword r)) (tool_match_score r).

(** The three branches, then the trailing sources event: the part of the
    generator inside [try: ... except Exception as e:], up to the
    persistence block. *)
Definition guarded_body (env : Env) (llm : option LLM) (r : Routing)
    (current_message : str) (history : list LlamaChatMessage) : Gen unit :=
  (match mode_of r with
   | RAG => rag_branch env llm (keyword r) (retrieved_nodes r)
              current_message history
   | TOOL => tool_branch env llm (get_mcp_tools env) current_message history
   | CHAT => chat_branch env llm current_message history
   end) >>
  let* sources := get_sources in
  if nonempty sources then yield (SourcesEvent sources) else ret tt.

Definition new_chat : str := lit "New Chat".

(** [current_message.strip()[:20] + ("..." if len(current_message) > 20 else "")] *)
Definition session_title (current_message : str) : str :=
  slice (strip current_message) 0 20
  ++ (if 20 <? length current_message then lit "..." else []).

Definition with_title (s : ChatSession) (title : str) : ChatSession :=
  mkChatSession (cs_user s) title (cs_is_active s) (cs_created_at s)
                (cs_updated_at s).

(** [ChatMessage.objects.create(...)] *)
Definition create_message (m : ChatMessage) (db : DB) : DB :=
  mkDB (db_sessions db) (db_messages db ++ [m]).

(** The persistence block; the lookup can fail ([ValidationError],
    [DoesNotExist]) and the bare [except: pass] swallows it. *)
Definition persist (env : Env) (db : DB) (session_id current_message : str)
    (st : GenState) : DB :=
  if truthy session_id then
    match parse_uuid env session_id with
    | None => db
    | Some id =>
        match db_sessions db !! id with
        | None => db
        | Some session =>
            let db1 :=
              create_message
                (mkChatMessage id (lit "ai") (full_response_text st) (sources st)
                               (Some (elapsed_time env)) (now env)) db in
            if str_eqb (cs_title session) new_chat then
              mkDB (<[id := with_title session (session_title current_message)]>
                      (db_sessions db1))
                   (db_messages db1)
            else db1
        end
    end
  else db.

(** How a run of the generator ends: the guarded block ran to its end; or
    the wrapping handler caught an exception and yielded the error event; or
    an exception left the generator. Each carries the events yielded and the
    tables as the run leaves them. *)
Inductive Outcome :=
| Completed (events : list Event) (db : DB)
| Handled (events : list Event) (db : DB)
| Escaped (events : list Event) (msg : str) (db : DB).

Definition error_event (e : str) : Event := TextEvent (lit "Error: " ++ e).

Definition initial_state : GenState := mkGenState [] [].

(** [stream_generator(current_message, history, model_name, use_rag,
    session_id)], run to exhaustion. *)
Definition stream_generator (env : Env) (db : DB) (current_message : str)
    (history : list LlamaChatMessage) (use_rag : bool) (session_id : str)
    : Outcome :=
  match init_llm env with
  | Raise e => Escaped [] e db
  | Ok llm =>
      match init_embedding env with
      | Raise e => Escaped [] e db
      | Ok embed_model =>
          let r := routing env embed_model use_rag current_message in
          match guarded_body env llm r current_message history initial_state with
          | (events, st, Ok _) =>
              Completed events (persist env db session_id current_message st)
          | (events, _, Raise e) => Handled (events ++ [error_event e]) db
          end
      end
  end.

(* ===================================================================== *)
(** * History and the turn (get_chat_history, chat_stream, get_history) *)
(* ===================================================================== *)

(** [filter(session_id=id)] on the message table. *)
Definition session_messages (db : DB) (id : UUID) : list ChatMessage :=
  List.filter (fun m => (cm_session m =? id)%N) (db_messages db).

(** The orders of [order_by('created_at')] and [order_by('-created_at')]. *)
Definition created_asc (a b : ChatMessage) : Prop :=
  (cm_created_at a <= cm_created_at b)%Z.
Definition created_desc (a b : ChatMessage) : Prop :=
  (cm_created_at b <= cm_created_at a)%Z.

Global Instance created_asc_dec : RelDecision created_asc.
Proof. intros a b. unfold created_asc. apply _. Defined.
Global Instance created_desc_dec : RelDecision created_desc.
Proof. intros a b. unfold created_desc. apply _. Defined.

(** [role = "assistant" if msg.role == "ai" else msg.role] *)
Definition to_llama (msg : ChatMessage) : LlamaChatMessage :=
  mkLlama (if str_eqb (cm_role msg) (lit "ai") then lit "assistant" else cm_role msg)
          (cm_content msg).

(** The rows [get_chat_history] iterates over:
    [reversed(order_by('-created_at')[:20])]. *)
Definition recent_rows (db : DB) (id : UUID) : list ChatMessage :=
  reverse (take 20 (merge_sort created_desc (session_messages db id))).

(** [get_chat_history(session_id)]; the filter raises on a malformed
    identifier. *)
Definition get_chat_history (env : Env) (db : DB) (session_id : str)
    : Result (list LlamaChatMessage) :=
  if truthy session_id then
    match parse_uuid env session_id with
    | None => Raise (lit "ValidationError")
    | Some id => Ok (List.map to_llama (recent_rows db id))
    end
  else Ok [].

(** [if history and history[-1].role == "user"
        and history[-1].content == user_text: history.pop()] *)
Definition pop_submitted (user_text : str) (history : list LlamaChatMessage)
    : list LlamaChatMessage :=
  match last history with
  | Some m =>
      if str_eqb (role m) (lit "user") && str_eqb (content m) user_text
      then take (length history - 1) history
      else history
  | None => history
  end.

(** Step 4 of [chat_stream]: the history handed to the generator. *)
Definition load_history (env : Env) (db : DB) (session_id user_text : str)
    : Result (list LlamaChatMessage) :=
  match get_chat_history env db session_id with
  | Ok history => Ok (pop_submitted user_text history)
  | Raise e => Raise e
  end.

(** [ChatSession.objects.create(...)]: title, flag and timestamps take their
    defaults. *)
Definition create_session (env : Env) (id : UUID) (user : option User) (db : DB)
    : DB :=
  mkDB (<[id := mkChatSession user new_chat true (now env) (now env)]>
          (db_sessions db))
       (db_messages db).

Definition with_user (s : ChatSession) (user : option User) : ChatSession :=
  mkChatSession user (cs_title s) (cs_is_active s) (cs_created_at s)
                (cs_updated_at s).

(** What step 1 of [chat_stream] leaves: the tables, the key of the
    session object and the [session_id] the turn goes on with. *)
Record Resolved := mkResolved {
  res_db : DB;
  res_id : UUID;
  res_session_id : str
}.

(** A fresh session under a minted identifier;
    [session_id = str(session.id)]. *)
Definition mint_session (env : Env) (db : DB) (current_user : option User)
    : Resolved :=
  mkResolved (create_session env (uuid4 env) current_user db) (uuid4 env)
             (uuid_str env (uuid4 env)).

(** Step 1 of [chat_stream]. *)
Definition resolve_session (env : Env) (db : DB) (current_user : option User)
    (session_id : option str) : Resolved :=
  match session_id with
  | Some sid =>
      if truthy sid then
        match parse_uuid env sid with
        | Some id =>
            match db_sessions db !! id with
            | Some session =>
                if negb (bool_decide (is_Some (cs_user session)))
                   && bool_decide (is_Some current_user)
                then mkResolved
                       (mkDB (<[id := with_user session current_user]> (db_sessions db))
                             (db_messages db))
                       id sid
                else mkResolved db id sid
            | None => mkResolved (create_session env id current_user db) id sid
            end
        | None => mint_session env db current_user
        end
      else mint_session env db current_user
  | None => mint_session env db current_user
  end.

Inductive TurnResult :=
| NoUserMessage (db : DB)
| TurnRaised (msg : str) (db : DB)
| Streaming (session_id : str) (outcome : Outcome).

Definition user_message (env : Env) (id : UUID) (user_text : str) : ChatMessage :=
  mkChatMessage id (lit "user") user_text [] None (now env).

(** [user_text = payload.messages[-1].text], or the empty string. *)
Definition user_text (payload : ChatRequest) : str :=
  match last (req_messages payload) with Some m => ms_text m | None => [] end.

(** [chat_stream(request, payload)], with the response body consumed. *)
Definition chat_stream (env : Env) (db : DB) (current_user : option User)
    (payload : ChatRequest) : TurnResult :=
  let resolved := resolve_session env db current_user (req_session_id payload) in
  let session_id := res_session_id resolved in
  let user_text := user_text payload in
  if negb (truthy user_text) then NoUserMessage (res_db resolved)
  else
    let db2 :=
      create_message (user_message env (res_id resolved) user_text)
                     (res_db resolved) in
    match load_history env db2 session_id user_text with
    | Raise e => TurnRaised e db2
    | Ok history =>
        Streaming session_id
          (stream_generator env db2 user_text history
             (bool_decide (req_use_rag payload = Some true)) session_id)
    end.

Definition to_schema (msg : ChatMessage) : MessageSchema :=
  mkMessageSchema (cm_role msg) (cm_content msg) (cm_sources msg)
                  (cm_elapsed_time msg).

(** [session and session.user and current_user
     and session.user != current_user] *)
Definition permission_denied (session : option ChatSession)
    (current_user : option User) : bool :=
  match session with
  | Some s =>
      match cs_user s, current_user with
      | Some owner, Some caller => negb (owner =? caller)%N
      | _, _ => false
      end
  | None => false
  end.

(** [get_history(request, session_id)]; [current_user] is what the bearer
    credential resolved to. *)
Definition get_history (env : Env) (db : DB) (current_user : option User)
    (session_id : str) : list MessageSchema :=
  match parse_uuid env session_id with
  | None => []
  | Some id =>
      if permission_denied (db_sessions db !! id) current_user then []
      else List.map to_schema (merge_sort created_asc (session_messages db id))
  end.

(* ===================================================================== *)
(** * Readings of the specification, for comparison with the code *)
(* ===================================================================== *)

(** Consecutive, disjoint pairs of characters; an odd last one is dropped. *)
Fixpoint pair_fragments (s : str) : list str :=
  match s with
  | a :: b :: rest => [a; b] :: pair_fragments rest
  | _ => []
  end.

(** Every window of two adjacent characters. *)
Fixpoint overlapping_fragments (s : str) : list str :=
  match s with
  | a :: (b :: _) as rest => [a; b] :: overlapping_fragments rest
  | _ => []
  end.

(** The tools whose similarity is computed: those before the first whose
    embedding raises. *)
Fixpoint scored_tools (env : Env) (embed_model : EmbedModel)
    (query_embedding : Vec) (tools : list Tool) : list (str * Q) :=
  match tools with
  | [] => []
  | tool :: rest =>
      match get_text_embedding embed_model (tool_desc tool) with
      | Raise _ => []
      | Ok v =>
          (tool_name tool, np_cosine env query_embedding v)
            :: scored_tools env embed_model query_embedding rest
      end
  end.

(** A text event whose delta is not empty. *)
Definition is_text (e : Event) : Prop :=
  exists s, e = TextEvent s /\ s <> [].

(** A piece of the generator that yields text events only. *)
Definition text_only {A} (m : Gen A) : Prop :=
  forall st, Forall is_text (m st).1.1.

(** The optional trailing event of a run that accumulated [srcs]. *)
Definition sources_tail (srcs : list SourceRecord) : list Event :=
  if nonempty srcs then [SourcesEvent srcs] else [].

(** A piece of the generator that leaves the source list as it is. *)
Definition keeps_sources {A} (m : Gen A) : Prop :=
  forall st, sources (m st).1.2 = sources st.

(** The list [if s not in acc: acc.append(s)] leaves. *)
Definition add_new (acc : list SourceRecord) (s : SourceRecord)
    : list SourceRecord :=
  if bool_decide (s ∈ acc) then acc else acc ++ [s].

(** The source list after a loop that adds the record [g x] of each [x]
    having one. *)
Definition collect {A} (g : A -> option SourceRecord) (l : list A)
    (acc : list SourceRecord) : list SourceRecord :=
  fold_left (fun acc x => match g x with Some s => add_new acc s | None => acc end)
            l acc.

(** The document records of the passages the RAG branch answers from: the
    rows of the text search when it matched, the retrieved nodes otherwise. *)
Definition passage_records (env : Env) (r : Routing) : list SourceRecord :=
  if keyword_match (keyword r) && nonempty (keyword_results (keyword r)) then
    omap (fun row => keyword_source <$> resolve_meta env (row_metadata row))
         (keyword_results (keyword r))
  else List.map (fun node => node_source (node_metadata node)) (retrieved_nodes r).

(** The invocations the backend asks for in the tool branch. *)
Definition invocations (env : Env) (llm : option LLM) (current_message : str)
    (history : list LlamaChatMessage) : list ToolCall :=
  match call_with_tools llm (get_mcp_tools env) current_message
          (system_msg tool_system_prompt :: history) with
  | Ok response =>
      match tool_calls_of response with Ok l => l | Raise _ => [] end
  | Raise _ => []
  end.

(* ===================================================================== *)
(** * Concrete collaborators, for the examples *)
(* ===================================================================== *)

Module Scenario.

Fixpoint starts_with (p t : str) : bool :=
  match p, t with
  | [], _ => true
  | a :: p', b :: t' => (a =? b)%N && starts_with p' t'
  | _ :: _, [] => false
  end.

(** Substring containment, standing for [ILIKE %p%]. *)
Fixpoint contains (p t : str) : bool :=
  starts_with p t || match t with [] => false | _ :: t' => contains p t' end.

Definition hex_value (c : char) : option N :=
  if in_range 48 57 c then Some (c - 48)%N
  else if in_range 97 102 c then Some (c - 87)%N
  else None.

Fixpoint parse_hex (acc : N) (s : str) : option N :=
  match s with
  | [] => Some acc
  | c :: r =>
      match hex_value c with
      | Some d => parse_hex (16 * acc + d)%N r
      | None => None
      end
  end.

(** Thirty-two hexadecimal digits. *)
Definition parse (s : str) : option UUID :=
  if length s =? 32 then parse_hex 0%N s else None.

Definition hex_digit (d : N) : char :=
  if (d <? 10)%N then (48 + d)%N else (87 + d)%N.

Fixpoint to_hex (digits : nat) (n : N) (acc : str) : str :=
  match digits with
  | O => acc
  | S k => to_hex k (n / 16)%N (hex_digit (n mod 16)%N :: acc)
  end.

Definition dot (a b : Vec) : Q :=
  fold_left Qplus (zip_with Qmult a b) 0%Q.

Definition env (llm : Result (option LLM)) (embed : Result EmbedModel)
    (tools : list Tool) (nodes : Result (list Node))
    (table : Result (list Row)) : Env :=
  mkEnv llm embed tools ∅ (fun _ => nodes) table contains remove_dups
        (fun _ => None) dot (fun _ => lit "{}") parse
        (fun u => to_hex 32 u []) 255%N
        (lit "2026-01-01 12:00:00") 1200%Z 1000%Z.

Definition silent : Stream := mkStream [] EndOk.
Definition hello : Stream := mkStream [Some (lit "Hel"); None; Some (lit "lo")] EndOk.
Definition broken : Stream := mkStream [Some (lit "Hel")] (EndRaise (lit "boom")).

Definition llm_of (s : Stream) : LLM :=
  mkLLM (fun _ => s) (fun _ _ _ => Raise (lit "unsupported")).

Definition no_embedding : EmbedModel := mkEmbed (fun _ => Raise (lit "offline")).

(** A plain conversation whose backend answers with the stream [s]. *)
Definition chat_env (s : Stream) : Env :=
  env (Ok (Some (llm_of s))) (Ok no_embedding) [] (Ok []) (Ok []).

Definition sid : str := lit "000000000000000000000000000000a1".

Definition empty_db : DB := mkDB ∅ [].

Definition zhongwen : str := lit "中文检索".

Definition a1 : UUID := 161%N.

(** The tables with one fresh, unowned session. *)
Definition fresh_db : DB :=
  create_session (chat_env silent) a1 None empty_db.


Definition get_weather : Tool :=
  mkTool (lit "get_weather") (Some (lit "weather of a city"))
         (fun _ => Ok (lit "sunny")).

Definition unit_embedding : EmbedModel := mkEmbed (fun _ => Ok [1%Q]).

Definition weather_call : ToolCall := mkToolCall (lit "get_weather") [].

(** A backend that asks twice for the same invocation. *)
Definition asks_twice : LLM :=
  mkLLM (fun _ => hello)
        (fun _ _ _ => Ok (mkResponse [] (Ok [weather_call; weather_call]))).

Definition tool_env : Env :=
  env (Ok (Some asks_twice)) (Ok unit_embedding) [get_weather] (Ok []) (Ok []).

Definition page (file : str) (label : str) : Meta :=
  mkMeta (Some file) None (Some label).

(** Two passages of the same page and one of another file. *)
Definition rag_env : Env :=
  env (Ok (Some (llm_of hello))) (Ok no_embedding) []
      (Ok [ mkNode (Some (9 # 10)%Q) (lit "alpha") (page (lit "docs/a.pdf") (lit "1"));
            mkNode (Some (8 # 10)%Q) (lit "beta") (page (lit "docs/a.pdf") (lit "1"));
            mkNode (Some (7 # 10)%Q) (lit "gamma") (page (lit "b.pdf") (lit "2")) ])
      (Ok []).

Definition flaky : Tool :=
  mkTool (lit "get_route") None (fun _ => Ok (lit "north")).

(** An embedding backend that fails on the description of [flaky]. *)
Definition picky : EmbedModel :=
  mkEmbed (fun text =>
    if str_eqb text (tool_desc flaky) then Raise (lit "timeout")
    else if str_eqb text (tool_desc get_weather) then Ok [(9 # 10)%Q]
    else Ok [1%Q]).

Definition picky_env : Env :=
  env (Ok (Some asks_twice)) (Ok picky) [flaky; get_weather] (Ok []) (Ok []).

(** Twenty-five messages of the session [a1], alternating user and
    assistant, stored at times 1 to 25, and one of another session. *)
Definition stored (n : nat) : ChatMessage :=
  mkChatMessage a1 (if Nat.even n then lit "user" else lit "ai")
                (to_hex 2 (N.of_nat n) []) [] None (Z.of_nat (S n)).

Definition long_db : DB :=
  mkDB (db_sessions fresh_db)
       (mkChatMessage 7%N (lit "user") (lit "elsewhere") [] None 30%Z
          :: List.map stored (seq 0 25)).

(** The session [a1] owned by user 7, with two messages. *)
Definition owned_db : DB :=
  mkDB (<[a1 := mkChatSession (Some 7%N) (lit "Trip") true 1%Z 1%Z]> ∅)
       [stored 1; stored 0].

Definition survey : Row :=
  mkRow (lit "关于中文和检索的方案") (MetaDict (page (lit "survey.pdf") (lit "3"))).

Definition note : Row := mkRow (lit "中文检索") MetaOther.

(** A text table in which no row holds the whole query of the example. *)
Definition corpus_env : Env :=
  env (Ok (Some (llm_of hello))) (Ok no_embedding) [] (Ok [])
      (Ok [note; survey]).

Definition request (text : str) : ChatRequest :=
  mkChatRequest [mkMessageSchema (lit "user") text [] None] (Some sid) (Some false).

End Scenario.

(* ===================================================================== *)
(** * What a stream carries *)
(* ===================================================================== *)

(** The deltas of the text events of a stream, joined in order. *)
Fixpoint streamed_text (events : list Event) : str :=
  match events with
  | [] => []
  | TextEvent d :: rest => d ++ streamed_text rest
  | SourcesEvent _ :: rest => streamed_text rest
  end.


(** A piece of the generator whose deltas are appended to
    [full_response_text] as they are yielded. *)
Definition accumulates {A} (m : Gen A) : Prop :=
  forall st,
    full_response_text (m st).1.2
    = full_response_text st ++ streamed_text (m st).1.1.


(** The session step 1 of a turn leaves under the key it resolved: the
    stored session, bound to the caller when it had no owner, or a new
    one. *)
Definition session_after_step1 (env : Env) (current_user : option User)
    (old : option ChatSession) : ChatSession :=
  match old with
  | Some session =>
      with_user session (match cs_user session with
                         | Some owner => Some owner
                         | None => current_user
                         end)
  | None => mkChatSession current_user new_chat true (now env) (now env)
  end.

(** [f] is what follows the last slash of [name]: the whole of [name] when
    it has no slash. *)
Definition after_last_slash (name f : str) : Prop :=
  contains_slash f = false /\
  exists prefix,
    name = prefix ++ f /\ (prefix = [] \/ exists p, prefix = p ++ [slash]).

(* ===================================================================== *)
(** * The other endpoints of api/chat.py *)
(* ===================================================================== *)

(** [s.startswith(prefix)] *)
Fixpoint startswith (s prefix : str) : bool :=
  match prefix, s with
  | [], _ => true
  | p :: prefix', c :: s' => (c =? p)%N && startswith s' prefix'
  | _ :: _, [] => false
  end.

(** What [jwt.decode] makes of a token: its payload, or one of the two
    exceptions [decode_token] catches. *)
Inductive JwtResult :=
| JwtPayload (user_id : option User)
| ExpiredSignatureError
| InvalidTokenError.

(** [decode_token(token)] (api/auth.py); [jwt_decode] is the library call
    under the configured secret and algorithm, at the current time. *)
Definition decode_token (jwt_decode : str -> JwtResult) (token : str)
    : option (option User) :=
  match jwt_decode token with
  | JwtPayload user_id => Some user_id
  | ExpiredSignatureError => None
  | InvalidTokenError => None
  end.

(** [get_current_user_from_request(request)]: [authorization] is the
    header, [users] the identifiers of the user table. *)
Definition get_current_user_from_request (jwt_decode : str -> JwtResult)
    (users : gset User) (authorization : option str) : option User :=
  let auth_header := default [] authorization in
  if negb (startswith auth_header (lit "Bearer ")) then None
  else
    let token := drop 7 auth_header in
    match decode_token jwt_decode token with
    | None => None
    | Some user_id =>
        match user_id with
        | Some id => if bool_decide (id ∈ users) then Some id else None
        | None => None
        end
    end.

Inductive DeleteResult :=
| DeleteOk (deleted_messages : nat)
| DeleteError (error : str).

(** [delete_session(request, session_id)] *)
Definition delete_session (env : Env) (db : DB) (current_user : option User)
    (session_id : str) : DeleteResult * DB :=
  match parse_uuid env session_id with
  | None => (DeleteError (lit "Invalid session ID"), db)
  | Some id =>
      if permission_denied (db_sessions db !! id) current_user
      then (DeleteError (lit "Permission denied"), db)
      else
        (DeleteOk (length (session_messages db id)),
         mkDB (delete id (db_sessions db))
              (List.filter (fun m => negb (cm_session m =? id)%N) (db_messages db)))
  end.

Record SessionSchema := mkSessionSchema {
  ss_id : str;
  ss_title : str;
  ss_updated_at : Z;
  ss_message_count : nat
}.

(** The order of [order_by('-updated_at')] on session rows. *)
Definition updated_desc (a b : UUID * ChatSession) : Prop :=
  (cs_updated_at b.2 <= cs_updated_at a.2)%Z.

Global Instance updated_desc_dec : RelDecision updated_desc.
Proof. intros a b. unfold updated_desc. apply _. Defined.

(** [filter(is_active=True, user=current_user)] on one row. *)
Definition listed_for (user : User) (row : UUID * ChatSession) : bool :=
  cs_is_active row.2 && bool_decide (cs_user row.2 = Some user).

Definition session_schema (env : Env) (db : DB) (row : UUID * ChatSession)
    : SessionSchema :=
  mkSessionSchema (uuid_str env row.1) (cs_title row.2) (cs_updated_at row.2)
                  (length (session_messages db row.1)).

(** [get_sessions(request)]; the timestamp stands for its ISO text. *)
Definition get_sessions (env : Env) (db : DB) (current_user : option User)
    : list SessionSchema :=
  match current_user with
  | Some user =>
      List.map (session_schema env db)
        (take 20 (merge_sort updated_desc
                    (List.filter (listed_for user) (map_to_list (db_sessions db)))))
  | None => []
  end.

(** The database engines of config/settings.py. PostgreSQL refuses a value
    longer than its [varchar] column, and its driver refuses a text holding
    the character NUL; SQLite stores both. *)
Inductive Engine := Sqlite | Postgresql.

Definition title_max_length : nat := 200.

Definition has_nul (value : str) : bool := existsb (N.eqb 0) value.

Definition column_refuses (engine : Engine) (title : str) : bool :=
  match engine with
  | Postgresql => (title_max_length <? length title) || has_nul title
  | Sqlite => false
  end.

(** A text handed to a query as a parameter. *)
Definition parameter_refused (engine : Engine) (value : str) : bool :=
  match engine with
  | Postgresql => has_nul value
  | Sqlite => false
  end.

(** A value written to a [CharField(max_length=n)] column. *)
Definition too_long (engine : Engine) (max_length : nat) (value : str) : bool :=
  match engine with
  | Postgresql => (max_length <? length value) || has_nul value
  | Sqlite => false
  end.

Inductive UpdateResult :=
| UpdateOk
| SessionNotFound
| UpdateRaised.

(** [update_session_title(request, session_id, title)]; a malformed
    identifier and a refused value both end in the last [except]. *)
Definition update_session_title (env : Env) (engine : Engine) (db : DB)
    (session_id title : str) : UpdateResult * DB :=
  match parse_uuid env session_id with
  | None => (UpdateRaised, db)
  | Some id =>
      match db_sessions db !! id with
      | None => (SessionNotFound, db)
      | Some session =>
          if column_refuses engine title then (UpdateRaised, db)
          else (UpdateOk,
                mkDB (<[id := with_title session title]> (db_sessions db))
                     (db_messages db))
      end
  end.

(* ===================================================================== *)
(** * The tool registry (core/mcp_tools.py) *)
(* ===================================================================== *)

Module McpTools.

Inductive ServerType := STDIO | HTTP.

(** One entry of [available_tools]: a dict read with
    [get('name', 'unknown')] and [get('description', '')]. *)
Record ToolInfo := mkToolInfo {
  info_name : option str;
  info_description : option str
}.

Record MCPServerConfig := mkConfig {
  name : str;
  server_type : ServerType;
  endpoint_url : option str;
  available_tools : list ToolInfo;
  is_active : bool;
  status : str;
  updated_at : Z
}.

(** The module globals. *)
Record Registry := mkRegistry {
  mcp_tools_cache : option (list Tool);
  mcp_cache_timestamp : option Z;
  tool_server_map : gmap str str
}.

(** What the registry reads: whether the apps are loaded, the rows of
    [MCPServerConfig] in the order of the query (or its failure), the remote
    listing of an endpoint, the description [FunctionTool.from_defaults]
    derives from a name and a docstring, and [str] of a kwargs dict. *)
Record World := mkWorld {
  ready : bool;
  configs : Result (list MCPServerConfig);
  aget_tools_from_mcp_url : str -> Result (list Tool);
  describe : str -> str -> option str;
  show_kwargs : Kwargs -> str
}.

(** The wrapper [make_tool_fn] builds for a stored tool entry. *)
Definition stub_tool (w : World) (tool_info : ToolInfo) : Tool :=
  let name := default (lit "unknown") (info_name tool_info) in
  let desc := default [] (info_description tool_info) in
  mkTool name (describe w name desc)
         (fun kwargs =>
            Ok (lit "工具 " ++ name ++ lit " 被调用，参数: " ++ show_kwargs w kwargs)).

(** [_load_mcp_tools_sync(config)] *)
Definition load_mcp_tools_sync (w : World) (config : MCPServerConfig)
    : Result (list Tool) :=
  match server_type config with
  | STDIO =>
      if nonempty (available_tools config)
      then Ok (List.map (stub_tool w) (available_tools config))
      else Ok []
  | HTTP =>
      match endpoint_url config with
      | Some url => if truthy url then aget_tools_from_mcp_url w url else Ok []
      | None => Ok []
      end
  end.

Definition connected (config : MCPServerConfig) : bool :=
  is_active config && str_eqb (status config) (lit "connected").

(** [max(c.updated_at for c in active_configs)] on a non-empty sequence. *)
Definition latest_update (first : MCPServerConfig) (rest : list MCPServerConfig)
    : Z :=
  fold_left (fun m c => if (m <? updated_at c)%Z then updated_at c else m)
            rest (updated_at first).

(** [for tool in tools: new_map[tool.metadata.name] = config.name] *)
Definition record_tools (config : MCPServerConfig) (tools : list Tool)
    (new_map : gmap str str) : gmap str str :=
  fold_left (fun acc tool => <[tool_name tool := name config]> acc) tools new_map.

(** The loop over the active configs: a config whose loading raises is
    skipped. *)
Fixpoint load_all (w : World) (active_configs : list MCPServerConfig)
    (all_tools : list Tool) (new_map : gmap str str)
    : list Tool * gmap str str :=
  match active_configs with
  | [] => (all_tools, new_map)
  | config :: rest =>
      match load_mcp_tools_sync w config with
      | Ok tools =>
          load_all w rest (all_tools ++ tools) (record_tools config tools new_map)
      | Raise _ => load_all w rest all_tools new_map
      end
  end.

(** [get_mcp_tools()]: the list returned and the globals it leaves. *)
Definition get_mcp_tools (w : World) (g : Registry) : list Tool * Registry :=
  if negb (ready w) then ([], g)
  else
    match configs w with
    | Raise _ => ([], g)
    | Ok rows =>
        match List.filter connected rows with
        | [] => ([], g)
        | first :: rest =>
            let latest := latest_update first rest in
            match mcp_tools_cache g with
            | Some cached =>
                if bool_decide (mcp_cache_timestamp g = Some latest)
                then (cached, g)
                else
                  let '(all_tools, new_map) := load_all w (first :: rest) [] ∅ in
                  (all_tools, mkRegistry (Some all_tools) (Some latest) new_map)
            | None =>
                let '(all_tools, new_map) := load_all w (first :: rest) [] ∅ in
                (all_tools, mkRegistry (Some all_tools) (Some latest) new_map)
            end
        end
    end.

(** [get_tool_descriptions()], from the list [get_mcp_tools] returned. *)
Definition get_tool_descriptions (tools : list Tool) : str :=
  if nonempty tools then
    join nl (List.map (fun tool =>
                         lit "- " ++ tool_name tool ++ lit ": "
                         ++ py_or (tool_description tool) (lit "无描述"))
                      tools)
  else [].

(** The tools a reload collects: those of the configs that load. *)
Definition loaded_tools (w : World) (active_configs : list MCPServerConfig)
    : list Tool :=
  flat_map (fun config =>
              match load_mcp_tools_sync w config with
              | Ok tools => tools
              | Raise _ => []
              end) active_configs.

End McpTools.

(* ===================================================================== *)
(** * The cached backends (core/llm.py) and their configuration
      (system/models.py) *)
(* ===================================================================== *)

Module CoreLlm.

(** [s in text] for strings. *)
Fixpoint has_prefix (p t : str) : bool :=
  match p, t with
  | [], _ => true
  | a :: p', b :: t' => (a =? b)%N && has_prefix p' t'
  | _ :: _, [] => false
  end.

Fixpoint str_in (p t : str) : bool :=
  has_prefix p t || match t with [] => false | _ :: t' => str_in p t' end.

(** The row of [LLMConfig] the loader reads. *)
Record LLMConfig := mkLLMConfig {
  id : N;
  name : str;
  provider : str;
  api_key : str;
  base_url : str;
  model_name : str;
  is_active : bool;
  created_at : Z;
  updated_at : Z
}.

(** [_current_config_id]: the text ["ENV"], or [f"{id}_{updated_at}"]. *)
Inductive ConfigId :=
| ENV
| Signature (id : N) (updated_at : Z).

Global Instance ConfigId_eq_dec : EqDecision ConfigId.
Proof. solve_decision. Defined.

(** The module globals. *)
Record Cache := mkCache {
  llm_instance : option LLM;
  embed_instance : option EmbedModel;
  current_config_id : option ConfigId
}.

(** Which client is built, with its model, key and base. *)
Inductive Client :=
| OpenAI (model key : str) (base : option str)
| OpenAILike (model key base : str).

(** What the loader reads: the first active configuration (none when the
    table has none or cannot be read), the three environment variables, and
    the constructors of the clients and of the embedding model. *)
Record World := mkWorld {
  db_config : option LLMConfig;
  OPENAI_API_KEY : option str;
  OPENAI_API_BASE : option str;
  LLM_MODEL : option str;
  construct : Client -> Result LLM;
  HuggingFaceEmbedding : Result EmbedModel
}.

(** [init_embedding()]: the instance or the exception, and the globals. *)
Definition init_embedding (w : World) (c : Cache) : Result EmbedModel * Cache :=
  match embed_instance c with
  | Some e => (Ok e, c)
  | None =>
      match HuggingFaceEmbedding w with
      | Ok e => (Ok e, mkCache (llm_instance c) (Some e) (current_config_id c))
      | Raise msg => (Raise msg, c)
      end
  end.

(** [not api_base or "api.openai.com" in api_base] selects the client. *)
Definition client_for (model key : str) (api_base : option str) : Client :=
  match api_base with
  | None => OpenAI model key None
  | Some base =>
      if negb (truthy base) || str_in (lit "api.openai.com") base
      then OpenAI model key (Some base)
      else OpenAILike model key base
  end.

(** Steps 3 to 5 of [init_llm], once the key, base and model are chosen. *)
Definition build (w : World) (c : Cache) (key : option str)
    (api_base : option str) (model : str) : Result (option LLM) * Cache :=
  match key with
  | None => (Ok None, c)
  | Some k =>
      if negb (truthy k) then (Ok None, c)
      else
        match init_embedding w c with
        | (Raise msg, c1) => (Raise msg, c1)
        | (Ok _, c1) =>
            match construct w (client_for model k api_base) with
            | Raise msg => (Raise msg, c1)
            | Ok llm =>
                (Ok (Some llm),
                 mkCache (Some llm) (embed_instance c1) (current_config_id c1))
            end
        end
  end.

(** [init_llm()]: what it returns or raises, and the globals it leaves. *)
Definition init_llm (w : World) (c : Cache) : Result (option LLM) * Cache :=
  match db_config w with
  | Some config =>
      let config_signature := Signature (id config) (updated_at config) in
      if bool_decide (current_config_id c = Some config_signature)
      then (Ok (llm_instance c), c)
      else
        build w (mkCache None (embed_instance c) (Some config_signature))
              (Some (api_key config)) (Some (base_url config)) (model_name config)
  | None =>
      match llm_instance c with
      | None =>
          build w (mkCache None (embed_instance c) (Some ENV))
                (OPENAI_API_KEY w)
                (Some (default (lit "https://api.openai.com/v1") (OPENAI_API_BASE w)))
                (default (lit "gpt-3.5-turbo") (LLM_MODEL w))
      | Some llm => (Ok (Some llm), c)
      end
  end.

(** One entry of [PROVIDER_PRESETS]. *)
Record Preset := mkPreset { preset_base_url : str; default_model : str }.

(** [PROVIDER_PRESETS.get(provider, {})], with the two keys [save] reads. *)
Definition PROVIDER_PRESETS (provider : str) : option Preset :=
  if str_eqb provider (lit "deepseek") then
    Some (mkPreset (lit "https://api.deepseek.com") (lit "deepseek-chat"))
  else if str_eqb provider (lit "qwen") then
    Some (mkPreset (lit "https://dashscope.aliyuncs.com/compatible-mode/v1")
                   (lit "qwen-plus"))
  else if str_eqb provider (lit "openai") then
    Some (mkPreset (lit "https://api.openai.com/v1") (lit "gpt-4o-mini"))
  else if str_eqb provider (lit "claude") then
    Some (mkPreset (lit "https://api.anthropic.com") (lit "claude-sonnet-4-20250514"))
  else if str_eqb provider (lit "custom") then Some (mkPreset [] [])
  else None.

(** [value] when set, else the preset when it has one. *)
Definition or_preset (value : str) (preset : option str) : str :=
  if truthy value then value
  else match preset with
       | Some p => if truthy p then p else value
       | None => value
       end.

(** The first two steps of [LLMConfig.save]: fields left empty take the
    preset of the provider. *)
Definition with_presets (config : LLMConfig) : LLMConfig :=
  let preset := PROVIDER_PRESETS (provider config) in
  mkLLMConfig (id config) (name config) (provider config) (api_key config)
              (or_preset (base_url config) (preset_base_url <$> preset))
              (or_preset (model_name config) (default_model <$> preset))
              (is_active config) (created_at config) (updated_at config).

Definition deactivate (config : LLMConfig) : LLMConfig :=
  mkLLMConfig (id config) (name config) (provider config) (api_key config)
              (base_url config) (model_name config) false
              (created_at config) (updated_at config).

(** What [super().save()] writes: [auto_now] stamps [updated_at], and
    [auto_now_add] stamps [created_at] when the row is inserted. *)
Definition stamped (now : Z) (inserted : bool) (config : LLMConfig) : LLMConfig :=
  mkLLMConfig (id config) (name config) (provider config) (api_key config)
              (base_url config) (model_name config) (is_active config)
              (if inserted then now else created_at config) now.

(** The columns of the row against their [max_length]. *)
Definition refused (engine : Engine) (config : LLMConfig) : bool :=
  too_long engine 100 (name config) || too_long engine 20 (provider config)
  || too_long engine 255 (api_key config) || too_long engine 200 (base_url config)
  || too_long engine 100 (model_name config).

(** [LLMConfig.save()] of a row that has its identifier, on the table keyed
    by identifier; [now] is the time of the write. [None] when
    [super().save()] raises: what the table then holds depends on the
    transaction of the caller. *)
Definition save (engine : Engine) (now : Z) (config : LLMConfig)
    (table : gmap N LLMConfig) : option (gmap N LLMConfig) :=
  let config := with_presets config in
  let table' :=
    if is_active config
    then (fun other => if is_active other && negb (id other =? id config)%N
                       then deactivate other else other) <$> table
    else table in
  if refused engine config then None
  else Some (<[id config := stamped now (bool_decide (table !! id config = None))
                                    config]> table').

(** A table is keyed by the identifier of its rows. *)
Definition keyed (table : gmap N LLMConfig) : Prop :=
  forall k row, table !! k = Some row -> id row = k.

(** What a call leaves to its caller: the value, or [None] for an
    exception. *)
Definition returned (r : Result (option LLM)) : option LLM :=
  match r with Ok llm => llm | Raise _ => None end.

End CoreLlm.

(* ===================================================================== *)
(** * Registration and login (api/auth.py) *)
(* ===================================================================== *)

Module Auth.

Record UserRow := mkUser {
  user_id : User;
  username : str;
  email : str;
  password : str;
  is_staff : bool
}.

(** The hasher, the token issuer ([create_token], at the current time) and
    the identifier the table gives its next row. *)
Record World := mkWorld {
  make_password : str -> str;
  check_password : str -> str -> bool;
  create_token : User -> str;
  next_id : User
}.

Record RegisterSchema := mkRegister {
  reg_username : str;
  reg_password : str;
  reg_email : option str
}.

Record LoginSchema := mkLogin { login_username : str; login_password : str }.

(** The user as a response shows it. *)
Record UserSchema := mkUserSchema {
  us_id : User;
  us_username : str;
  us_email : str;
  us_is_staff : bool
}.

(** The body of a 200 response. *)
Record TokenSchema := mkToken {
  access_token : str;
  token_type : str;
  token_user : UserSchema
}.

Inductive Response :=
| Status200 (body : TokenSchema)
| Status400 (detail : str)
| Status401 (detail : str)
| Raised.

Definition token_for (w : World) (user : UserRow) : TokenSchema :=
  mkToken (create_token w (user_id user)) (lit "bearer")
          (mkUserSchema (user_id user) (username user) (email user)
                        (is_staff user)).

(** [register(request, payload)] on the user table. The columns of
    [auth_user] hold 150, 254 and 128 characters; a query raises on a
    parameter the engine refuses. *)
Definition register (w : World) (engine : Engine) (users : list UserRow)
    (payload : RegisterSchema) : Response * list UserRow :=
  if parameter_refused engine (reg_username payload) then (Raised, users)
  else if existsb (fun u => str_eqb (username u) (reg_username payload)) users
  then (Status400 (lit "用户名已存在"), users)
  else
    let given := default [] (reg_email payload) in
    if truthy given && parameter_refused engine given then (Raised, users)
    else if truthy given && existsb (fun u => str_eqb (email u) given) users
    then (Status400 (lit "邮箱已被注册"), users)
    else
      let user :=
        mkUser (next_id w) (reg_username payload) given
               (make_password w (reg_password payload)) false in
      if too_long engine 150 (username user) || too_long engine 254 (email user)
         || too_long engine 128 (password user)
      then (Raised, users)
      else (Status200 (token_for w user), users ++ [user]).

(** [login(request, payload)]; [User.objects.get] raises on two rows. *)
Definition login (w : World) (users : list UserRow) (payload : LoginSchema)
    : Response :=
  match List.filter (fun u => str_eqb (username u) (login_username payload))
                    users with
  | [] => Status401 (lit "用户名或密码错误")
  | [user] =>
      if negb (check_password w (login_password payload) (password user))
      then Status401 (lit "用户名或密码错误")
      else Status200 (token_for w user)
  | _ :: _ :: _ => Raised
  end.

End Auth.

(* ===================================================================== *)
(** * Concrete collaborators of the registry and of the loader *)
(* ===================================================================== *)

Module Cases.

Definition echo_world (rows : list McpTools.MCPServerConfig) : McpTools.World :=
  McpTools.mkWorld true (Ok rows)
    (fun url => if str_eqb url (lit "http://maps") then Ok [Scenario.get_weather]
                else Raise (lit "connection refused"))
    (fun name desc => Some desc) (fun _ => lit "{}").

Definition local : McpTools.MCPServerConfig :=
  McpTools.mkConfig (lit "Files") McpTools.STDIO None
    [McpTools.mkToolInfo (Some (lit "read_file")) (Some (lit "reads a file"));
     McpTools.mkToolInfo None None]
    true (lit "connected") 10%Z.

Definition maps : McpTools.MCPServerConfig :=
  McpTools.mkConfig (lit "Maps") McpTools.HTTP (Some (lit "http://maps")) []
    true (lit "connected") 20%Z.

Definition down : McpTools.MCPServerConfig :=
  McpTools.mkConfig (lit "Down") McpTools.HTTP (Some (lit "http://down")) []
    true (lit "connected") 15%Z.

Definition cold : McpTools.Registry := McpTools.mkRegistry None None ∅.

(** Globals filled when [local] was the only connected config. *)
Definition stale : McpTools.Registry :=
  McpTools.mkRegistry (Some [McpTools.stub_tool (echo_world [local])
                               (McpTools.mkToolInfo (Some (lit "read_file"))
                                                    (Some (lit "reads a file")))])
                      (Some 10%Z) ∅.

Definition deepseek : CoreLlm.LLMConfig :=
  CoreLlm.mkLLMConfig 1%N (lit "team") (lit "deepseek") (lit "sk-1") [] [] true
                      5%Z 5%Z.

Definition qwen : CoreLlm.LLMConfig :=
  CoreLlm.mkLLMConfig 2%N (lit "spare") (lit "qwen") (lit "sk-2")
                      (lit "https://proxy.local/v1") [] true 6%Z 6%Z.

Definition failing_world (config : CoreLlm.LLMConfig) : CoreLlm.World :=
  CoreLlm.mkWorld (Some config) None None None
    (fun _ => Raise (lit "bad key")) (Ok Scenario.no_embedding).

Definition working_world (config : option CoreLlm.LLMConfig) : CoreLlm.World :=
  CoreLlm.mkWorld config None None None
    (fun _ => Ok (Scenario.llm_of Scenario.hello)) (Ok Scenario.no_embedding).

Definition qwen_world (config : option CoreLlm.LLMConfig) : CoreLlm.World :=
  CoreLlm.mkWorld config None None None
    (fun client =>
       match client with
       | CoreLlm.OpenAILike model _ _ =>
           if str_eqb model (lit "qwen-plus")
           then Ok (Scenario.llm_of Scenario.hello)
           else Raise (lit "unknown model")
       | CoreLlm.OpenAI _ _ _ => Raise (lit "wrong client")
       end)
    (Ok Scenario.no_embedding).

Definition empty_cache : CoreLlm.Cache := CoreLlm.mkCache None None None.

Definition plain_hasher : Auth.World :=
  Auth.mkWorld (fun p => lit "hash:" ++ p)
               (fun p h => str_eqb h (lit "hash:" ++ p))
               (fun u => lit "token") 3%N.

Definition alice : Auth.UserRow :=
  Auth.mkUser 1%N (lit "alice") (lit "a@x.org") (lit "hash:secret") false.

End Cases.

(* ===================================================================== *)
(** * Properties of the mode router *)
(* ===================================================================== *)

Lemma Qge_b_spec (a b : Q) : Qge_b a b = true <-> (b <= a)%Q.
Proof. unfold Qge_b. apply Qle_bool_iff. Qed.

Lemma Qgt_b_spec (a b : Q) : Qgt_b a b = true <-> (b < a)%Q.
Proof.
  unfold Qgt_b. rewrite negb_true_iff. split.
  - intros H. apply Qnot_le_lt. intros Hle.
    apply Qle_bool_iff in Hle. congruence.
  - intros H. destruct (Qle_bool a b) eqn:E; [|reflexivity].
    apply Qle_bool_iff in E. exfalso. exact (Qlt_not_le _ _ H E).
Qed.

Lemma Qge_b_false (a b : Q) : Qge_b a b = false <-> ~ (b <= a)%Q.
Proof. rewrite <- Qge_b_spec. destruct (Qge_b a b); split; congruence. Qed.

Lemma Qgt_b_false (a b : Q) : Qgt_b a b = false <-> ~ (b < a)%Q.
Proof. rewrite <- Qgt_b_spec. destruct (Qgt_b a b); split; congruence. Qed.

(** Turns the boolean comparisons in the context into order facts. *)
Ltac qbool :=
  repeat match goal with
  | H : Qgt_b _ _ = true |- _ => apply Qgt_b_spec in H
  | H : Qgt_b _ _ = false |- _ => apply Qgt_b_false in H
  | H : Qge_b _ _ = true |- _ => apply Qge_b_spec in H
  | H : Qge_b _ _ = false |- _ => apply Qge_b_false in H
  end.

Lemma match_kind_none (km ie : bool) : match_kind km ie <> MKNone <-> km = true.
Proof. destruct km, ie; simpl; split; congruence. Qed.

Lemma rag_score_kept (ms : Q) (km : bool) :
  ((1 # 2) <= ms \/ (km = true /\ (3 # 10) <= ms))%Q -> rag_score ms km = ms.
Proof.
  intros H. unfold rag_score.
  destruct (Qge_b ms RAG_THRESHOLD) eqn:E1; [reflexivity|].
  destruct H as [H | [-> H]].
  - apply Qge_b_spec in H. unfold RAG_THRESHOLD in E1. congruence.
  - apply Qge_b_spec in H. unfold KEYWORD_FLOOR. simpl. now rewrite H.
Qed.

Lemma rag_score_dropped (ms : Q) (km : bool) :
  ~ ((1 # 2) <= ms \/ (km = true /\ (3 # 10) <= ms))%Q -> rag_score ms km = 0%Q.
Proof.
  intros H. unfold rag_score.
  destruct (Qge_b ms RAG_THRESHOLD) eqn:E1.
  { exfalso. apply H. left. now apply Qge_b_spec. }
  destruct km; [|reflexivity]. simpl.
  destruct (Qge_b ms KEYWORD_FLOOR) eqn:E2; [|reflexivity].
  exfalso. apply H. right. split; [reflexivity|now apply Qge_b_spec].
Qed.

Lemma selected_mode_spec (ms ts : Q) (km : bool) :
  let er := rag_score ms km in
  let et := tool_score ts in
  (selected_mode ms km ts = RAG <-> (0 < er /\ et <= er)%Q) /\
  (selected_mode ms km ts = TOOL <-> (0 < et /\ er < et)%Q) /\
  (selected_mode ms km ts = CHAT <->
     ~ (0 < er /\ et <= er)%Q /\ ~ (0 < et /\ er < et)%Q).
Proof.
  intros er et. unfold selected_mode. fold er et.
  generalize er et. clear. intros er et.
  destruct (Qgt_b er 0) eqn:A; destruct (Qge_b er et) eqn:B;
    destruct (Qgt_b et 0) eqn:C; destruct (Qgt_b et er) eqn:D; simpl;
    qbool; (split; [|split]); split; intros H; try discriminate; try reflexivity;
    try (exfalso; lra); try (split; lra); try (split; intros [? ?]; lra).
Qed.

(** C1. The router keeps the retrieval score when it reaches 0.5, or 0.3
    with a text match of any kind, and zeroes it otherwise; keeps the tool
    score from 0.4 on and zeroes it otherwise; selects RAG exactly when the
    effective retrieval score is positive and not below the effective tool
    score, TOOL exactly when the effective tool score is positive and above
    the effective retrieval score, CHAT otherwise; equal nonzero effective
    scores give RAG. *)
Theorem C1_mode_router (max_score tool_match_score : Q)
    (keyword_match is_exact_match : bool) :
  let kind := match_kind keyword_match is_exact_match in
  let kept := ((1 # 2) <= max_score \/ (kind <> MKNone /\ (3 # 10) <= max_score))%Q in
  let er := rag_score max_score keyword_match in
  let et := tool_score tool_match_score in
  let mode := selected_mode max_score keyword_match tool_match_score in
  (kept -> er = max_score) /\ (~ kept -> er = 0%Q) /\
  (((4 # 10) <= tool_match_score)%Q -> et = tool_match_score) /\
  (~ ((4 # 10) <= tool_match_score)%Q -> et = 0%Q) /\
  (mode = RAG <-> (0 < er /\ et <= er)%Q) /\
  (mode = TOOL <-> (0 < et /\ er < et)%Q) /\
  (mode = CHAT <-> ~ (0 < er /\ et <= er)%Q /\ ~ (0 < et /\ er < et)%Q) /\
  ((0 < er)%Q -> (er == et)%Q -> mode = RAG).
Proof.
  intros kind kept er et mode.
  assert (Hk : kept <-> ((1 # 2) <= max_score
                         \/ (keyword_match = true /\ (3 # 10) <= max_score))%Q).
  { unfold kept, kind. rewrite match_kind_none. tauto. }
  destruct (selected_mode_spec max_score tool_match_score keyword_match)
    as (Hr & Ht & Hc).
  split; [|split; [|split; [|split; [|split; [|split; [|split]]]]]].
  - intros H. apply rag_score_kept. tauto.
  - intros H. apply rag_score_dropped. tauto.
  - intros H. unfold et, tool_score.
    apply Qge_b_spec in H. unfold TOOL_THRESHOLD. now rewrite H.
  - intros H. unfold et, tool_score.
    apply Qge_b_false in H. unfold TOOL_THRESHOLD. now rewrite H.
  - exact Hr.
  - exact Ht.
  - exact Hc.
  - intros Hpos Heq. apply Hr. split; [exact Hpos|].
    fold er et. rewrite Heq. apply Qle_refl.
Qed.

(** C1 at a tie: both scores 0.5. *)
Lemma C1_mode_router_witness : selected_mode (1 # 2) false (1 # 2) = RAG.
Proof.
  destruct (C1_mode_router (1 # 2) (1 # 2) false false)
    as (_ & _ & _ & _ & _ & _ & _ & Htie).
  apply Htie; reflexivity.
Defined.

(** C4, counterexample. A text match and a retrieval score of 0.3 lose
    against a tool score of 0.9: the lowered threshold does not give RAG for
    every tool score. *)
Lemma C4_counterexample :
  ~ (forall (max_score tool_match_score : Q) (keyword_match is_exact_match : bool),
       match_kind keyword_match is_exact_match <> MKNone ->
       ((3 # 10) <= max_score)%Q -> (max_score < (1 # 2))%Q ->
       selected_mode max_score keyword_match tool_match_score = RAG).
Proof.
  intros H.
  specialize (H (3 # 10)%Q (9 # 10)%Q true true).
  assert (E : selected_mode (3 # 10) true (9 # 10) = TOOL) by reflexivity.
  rewrite H in E; [discriminate| | |].
  - simpl. congruence.
  - apply Qle_refl.
  - reflexivity.
Qed.

(** C4 (amended). With an exact or fuzzy text match and a retrieval score in
    [0.3, 0.5), the mode is RAG when the tool score is below 0.4 or not
    above the retrieval score, and TOOL when it is at least 0.4 and above
    the retrieval score. *)
Theorem C4_lowered_threshold (max_score tool_match_score : Q)
    (keyword_match is_exact_match : bool) :
  match_kind keyword_match is_exact_match <> MKNone ->
  ((3 # 10) <= max_score)%Q -> (max_score < (1 # 2))%Q ->
  let mode := selected_mode max_score keyword_match tool_match_score in
  ((tool_match_score < (4 # 10) \/ tool_match_score <= max_score)%Q -> mode = RAG) /\
  (((4 # 10) <= tool_match_score /\ max_score < tool_match_score)%Q -> mode = TOOL).
Proof.
  intros Hk Hlo Hhi mode.
  apply match_kind_none in Hk. subst keyword_match.
  destruct (selected_mode_spec max_score tool_match_score true) as (Hr & Ht & _).
  assert (Er : rag_score max_score true = max_score).
  { apply rag_score_kept. right. split; [reflexivity|exact Hlo]. }
  simpl in Hr, Ht. rewrite Er in Hr, Ht.
  assert (Hpos : (0 < max_score)%Q).
  { eapply Qlt_le_trans; [|exact Hlo]. reflexivity. }
  split.
  - intros H. apply Hr. split; [exact Hpos|].
    unfold tool_score. destruct (Qge_b tool_match_score TOOL_THRESHOLD) eqn:E.
    + destruct H as [H | H]; [|exact H].
      apply Qge_b_spec in E. exfalso. exact (Qlt_not_le _ _ H E).
    + apply Qlt_le_weak. exact Hpos.
  - intros [H1 H2]. apply Ht.
    assert (Et : tool_score tool_match_score = tool_match_score).
    { unfold tool_score. apply Qge_b_spec in H1.
      unfold TOOL_THRESHOLD. now rewrite H1. }
    rewrite Et. split; [|exact H2].
    eapply Qlt_trans; [exact Hpos|exact H2].
Qed.

(** C4 at retrieval 0.4 with a text match and tool score 0.2. *)
Lemma C4_lowered_threshold_witness :
  selected_mode (4 # 10) true (2 # 10) = RAG.
Proof.
  apply (C4_lowered_threshold (4 # 10) (2 # 10) true false).
  - simpl. congruence.
  - unfold Qle. simpl. lia.
  - reflexivity.
  - left. reflexivity.
Defined.

(* ===================================================================== *)
(** * The fragment fallback of the text search *)
(* ===================================================================== *)

Lemma range_from_pairs (s : str) (fuel lo : nat) :
  length s - 1 - lo <= fuel ->
  List.map (fun i => slice s i (i + 2)) (range_from fuel lo (length s - 1) 2)
  = pair_fragments (drop lo s).
Proof.
  revert lo. induction fuel as [|fuel IH]; intros lo Hfuel; simpl.
  - assert (Hlen : length (drop lo s) <= 1) by (rewrite length_drop; lia).
    destruct (drop lo s) as [|a [|b r]]; simpl in *; try reflexivity; lia.
  - destruct (lo <? length s - 1) eqn:E.
    + apply Nat.ltb_lt in E. simpl.
      rewrite IH by lia.
      assert (Hlen : 2 <= length (drop lo s)) by (rewrite length_drop; lia).
      replace (drop (lo + 2) s) with (drop 2 (drop lo s))
        by (rewrite drop_drop; f_equal; lia).
      unfold slice. replace (lo + 2 - lo) with 2 by lia.
      destruct (drop lo s) as [|a [|b r]]; simpl in *; try lia.
      reflexivity.
    + apply Nat.ltb_ge in E.
      assert (Hlen : length (drop lo s) <= 1) by (rewrite length_drop; lia).
      destruct (drop lo s) as [|a [|b r]]; simpl in *; try reflexivity; lia.
Qed.

(** The index loop of the source visits the disjoint pairs. *)
Lemma split_keywords_pairs (s : str) : split_keywords s = pair_fragments s.
Proof.
  unfold split_keywords, range.
  rewrite range_from_pairs by lia. reflexivity.
Qed.

Lemma set_order_length (env : Env) (l : list str) :
  set_order_ok env -> length (set_order env l) = length (remove_dups l).
Proof.
  intros Hok. destruct (Hok l) as [Hnd Hel].
  apply Permutation_length, NoDup_Permutation.
  - exact Hnd.
  - apply NoDup_remove_dups.
  - intros x. rewrite Hel, elem_of_remove_dups. reflexivity.
Qed.

Lemma execute_rows_match (env : Env) (patterns : list str) (rows : list Row) :
  execute env patterns = Ok rows ->
  length rows <= 3 /\
  Forall (fun r => forall p, p ∈ patterns -> ilike env p (row_text r) = true) rows.
Proof.
  unfold execute. destruct (data_document_embeddings env) as [table|e]; [|discriminate].
  intros [= <-]. split.
  - rewrite length_take. lia.
  - apply Forall_take. apply List.Forall_forall. intros r Hr p Hp.
    apply List.filter_In in Hr. destruct Hr as [_ Hr].
    rewrite forallb_forall in Hr. apply Hr. now apply list_elem_of_In.
Qed.

Lemma execute_total (env : Env) (p q : list str) (rows : list Row) :
  execute env p = Ok rows -> exists rows', execute env q = Ok rows'.
Proof.
  unfold execute. destruct (data_document_embeddings env); [|discriminate].
  eauto.
Qed.

(** C3, counterexample. On four adjacent ideographs the code keeps the two
    disjoint pairs; the middle window, which overlaps both, is not among its
    fragments. *)
Lemma C3_counterexample :
  let env := Scenario.chat_env Scenario.silent in
  let q := Scenario.zhongwen in
  chinese_str q = q /\ length q = 4 /\
  overlapping_fragments q = [lit "中文"; lit "文检"; lit "检索"] /\
  keywords env (chinese_str q) = [lit "中文"; lit "检索"] /\
  keywords env (chinese_str q)
    <> take 3 (set_order env (overlapping_fragments (chinese_str q))).
Proof. vm_compute. repeat split; congruence. Qed.

(** C3 (amended). When the exact search returns zero rows and the query
    holds at least four ideographic characters, adjacent or not, the
    fallback joins them, cuts the result into consecutive disjoint pairs
    (an odd last character is dropped), removes duplicates and keeps at most
    three fragments; with fewer than two fragments it is skipped, otherwise
    every row it returns contains all the kept fragments. *)
Theorem C3_fuzzy_fallback (env : Env) (current_message : str) :
  set_order_ok env ->
  let query_text := strip current_message in
  2 < length query_text ->
  execute env [query_text] = Ok [] ->
  4 <= length (chinese_str query_text) ->
  let fragments := pair_fragments (chinese_str query_text) in
  let kws := keywords env (chinese_str query_text) in
  split_keywords (chinese_str query_text) = fragments /\
  NoDup kws /\ (forall k, k ∈ kws -> k ∈ fragments) /\
  length kws = Nat.min 3 (length (remove_dups fragments)) /\
  (length kws < 2 -> keyword_search env current_message = no_keyword_match) /\
  (2 <= length kws ->
   exists rows,
     execute env kws = Ok rows /\
     Forall (fun r => forall k, k ∈ kws -> ilike env k (row_text r) = true) rows /\
     keyword_search env current_message
     = if nonempty rows then mkKeywordSearch true rows false
       else no_keyword_match).
Proof.
  intros Hok query_text Hlen Hexact Hcn fragments kws.
  assert (Hsplit : split_keywords (chinese_str query_text) = fragments)
    by apply split_keywords_pairs.
  destruct (Hok (split_keywords (chinese_str query_text))) as [Hnd Hel].
  assert (Hks : keyword_search env current_message
                = match fuzzy_search env query_text with
                  | Some (Ok rows') =>
                      if nonempty rows' then mkKeywordSearch true rows' false
                      else no_keyword_match
                  | _ => no_keyword_match
                  end).
  { unfold keyword_search. fold query_text.
    assert (Ht : truthy query_text = true)
      by (destruct query_text; simpl in *; [lia|reflexivity]).
    rewrite Ht. apply Nat.ltb_lt in Hlen. rewrite Hlen. simpl.
    rewrite Hexact. simpl.
    destruct (fuzzy_search env query_text) as [[rows'|e]|]; reflexivity. }
  assert (Hfz : fuzzy_search env query_text
                = if 2 <=? length kws then Some (execute env kws) else None).
  { unfold fuzzy_search. apply Nat.leb_le in Hcn. rewrite Hcn. reflexivity. }
  split; [exact Hsplit|]. split; [|split; [|split; [|split]]].
  - unfold kws, keywords. eapply sublist_NoDup; [exact Hnd|apply sublist_take].
  - intros k Hk. unfold kws, keywords in Hk.
    apply elem_of_take in Hk. destruct Hk as (i & Hk & _).
    apply list_elem_of_lookup_2 in Hk. apply Hel in Hk. now rewrite <- Hsplit.
  - unfold kws, keywords. rewrite length_take, set_order_length by exact Hok.
    rewrite Hsplit. reflexivity.
  - intros Hfew. rewrite Hks, Hfz.
    destruct (2 <=? length kws) eqn:E; [apply Nat.leb_le in E; lia|reflexivity].
  - intros Hmany.
    destruct (execute_total env [query_text] kws _ Hexact) as [rows Hrows].
    exists rows. split; [exact Hrows|]. split.
    + apply (execute_rows_match env kws rows Hrows).
    + rewrite Hks, Hfz. apply Nat.leb_le in Hmany. rewrite Hmany, Hrows.
      reflexivity.
Qed.

Lemma scenario_set_order_ok llm embed tools nodes table :
  set_order_ok (Scenario.env llm embed tools nodes table).
Proof.
  intros l. simpl. split; [apply NoDup_remove_dups|].
  intros x. apply elem_of_remove_dups.
Qed.

(** C3 on a seven-ideograph query padded with spaces: three fragments, one
    row holding all of them. *)
Lemma C3_fuzzy_fallback_witness :
  keyword_search Scenario.corpus_env (lit " 中文检索的方法 ")
  = mkKeywordSearch true [Scenario.survey] false.
Proof.
  destruct (C3_fuzzy_fallback Scenario.corpus_env (lit " 中文检索的方法 "))
    as (_ & _ & _ & _ & _ & H).
  - apply scenario_set_order_ok.
  - vm_compute. lia.
  - reflexivity.
  - vm_compute. lia.
  - destruct H as (rows & Hrows & _ & ->); [vm_compute; lia|].
    vm_compute in Hrows. injection Hrows as <-. reflexivity.
Defined.

(* ===================================================================== *)
(** * The event stream *)
(* ===================================================================== *)

Create HintDb gen.

Lemma text_only_ret {A} (a : A) : text_only (ret a).
Proof. intros st. constructor. Qed.

Lemma text_only_raise {A} (e : str) : text_only (@raise A e).
Proof. intros st. constructor. Qed.

Lemma text_only_lift {A} (r : Result A) : text_only (lift r).
Proof. intros st. constructor. Qed.

Lemma text_only_get_sources : text_only get_sources.
Proof. intros st. constructor. Qed.

Lemma text_only_append_text (d : str) : text_only (append_text d).
Proof. intros st. constructor. Qed.

Lemma text_only_set_text (d : str) : text_only (set_text d).
Proof. intros st. constructor. Qed.

Lemma text_only_append_source (s : SourceRecord) : text_only (append_source s).
Proof. intros st. constructor. Qed.

Lemma text_only_append_source_if_new (s : SourceRecord) :
  text_only (append_source_if_new s).
Proof. intros st. unfold append_source_if_new. case_bool_decide; constructor. Qed.

Lemma text_only_yield (d : str) : d <> [] -> text_only (yield (TextEvent d)).
Proof. intros Hd st. repeat constructor. exists d. auto. Qed.

Lemma text_only_bind {A B} (m : Gen A) (f : A -> Gen B) :
  text_only m -> (forall a, text_only (f a)) -> text_only (bind m f).
Proof.
  intros Hm Hf st. unfold bind. specialize (Hm st).
  destruct (m st) as [[evs st1] [a|e]]; simpl in *; [|exact Hm].
  specialize (Hf a st1). destruct (f a st1) as [[evs' st2] r]; simpl in *.
  apply Forall_app; auto.
Qed.

Lemma text_only_try_except {A} (m : Gen A) (h : str -> Gen A) :
  text_only m -> (forall e, text_only (h e)) -> text_only (try_except m h).
Proof.
  intros Hm Hh st. unfold try_except. specialize (Hm st).
  destruct (m st) as [[evs st1] [a|e]]; simpl in *; [exact Hm|].
  specialize (Hh e st1). destruct (h e st1) as [[evs' st2] r]; simpl in *.
  apply Forall_app; auto.
Qed.

Lemma text_only_for_each {A} (l : list A) (body : A -> Gen unit) :
  (forall x, text_only (body x)) -> text_only (for_each l body).
Proof.
  intros Hb. induction l as [|x l IH]; simpl.
  - apply text_only_ret.
  - apply text_only_bind; auto.
Qed.

#[local] Hint Resolve text_only_ret text_only_raise text_only_lift
  text_only_get_sources text_only_append_text text_only_set_text
  text_only_append_source text_only_append_source_if_new
  text_only_bind text_only_try_except text_only_for_each : gen.

Lemma text_only_on_chunk (delta : option str) : text_only (on_chunk delta).
Proof.
  destruct delta as [d|]; simpl; auto with gen.
  destruct d as [|c d]; simpl; auto with gen.
  apply text_only_bind; auto with gen.
  intros _. apply text_only_yield. discriminate.
Qed.

Lemma text_only_stream_reply (llm : option LLM) (messages : list LlamaChatMessage) :
  text_only (stream_reply llm messages).
Proof.
  destruct llm as [l|]; simpl; auto with gen.
  unfold for_chunks. apply text_only_bind.
  - apply text_only_for_each, text_only_on_chunk.
  - intros _. destruct (ending _); auto with gen.
Qed.

Lemma range_from_lt (fuel lo hi step : nat) (i : nat) :
  In i (range_from fuel lo hi step) -> i < hi.
Proof.
  revert lo. induction fuel as [|fuel IH]; intros lo; simpl; [tauto|].
  destruct (lo <? hi) eqn:E; simpl; [|tauto].
  apply Nat.ltb_lt in E. intros [<- | H]; eauto.
Qed.

Lemma text_only_yield_slices (text : str) : text_only (yield_slices text).
Proof.
  unfold yield_slices.
  assert (H : forall l, (forall i, In i l -> i < length text) ->
                        text_only (for_each l
                          (fun i => yield (TextEvent (slice text i (i + 50)))))).
  { induction l as [|i l IH]; intros Hl; simpl; auto with gen.
    apply text_only_bind.
    - apply text_only_yield. unfold slice.
      replace (i + 50 - i) with 50 by lia.
      assert (Hi : i < length text) by (apply Hl; now left).
      intros E. apply (f_equal length) in E.
      rewrite length_take, length_drop in E.
      change (length (@nil char)) with 0 in E. lia.
    - intros _. apply IH. intros j Hj. apply Hl. now right. }
  apply H. intros i Hi. unfold range in Hi. now apply range_from_lt in Hi.
Qed.

Lemma text_only_execute_tool_calls (env : Env) (tools : list Tool)
    (calls : list ToolCall) : text_only (execute_tool_calls env tools calls).
Proof.
  induction calls as [|tc calls IH]; simpl; auto 6 with gen.
Qed.

#[local] Hint Resolve text_only_on_chunk text_only_stream_reply
  text_only_yield_slices text_only_execute_tool_calls : gen.

Lemma text_only_rag_branch env llm ks nodes m history :
  text_only (rag_branch env llm ks nodes m history).
Proof.
  unfold rag_branch. apply text_only_bind.
  - destruct (keyword_match ks && nonempty (keyword_results ks)).
    + apply text_only_bind; auto with gen.
      unfold collect_keyword_sources. apply text_only_for_each.
      intros row. destruct (resolve_meta env (row_metadata row)); auto with gen.
    + apply text_only_bind; auto with gen.
      unfold collect_node_sources. auto with gen.
  - intros ctx. apply text_only_bind; auto with gen.
Qed.

Lemma text_only_tool_branch env llm tools m history :
  text_only (tool_branch env llm tools m history).
Proof.
  unfold tool_branch. apply text_only_try_except.
  - apply text_only_bind; auto with gen.
    intros response.
    destruct (nonempty _).
    + apply text_only_bind; auto with gen.
    + apply text_only_bind; auto with gen.
  - intros _. unfold tool_fallback. auto with gen.
Qed.

Lemma text_only_chat_branch env llm m history :
  text_only (chat_branch env llm m history).
Proof. unfold chat_branch. auto with gen. Qed.

(** The events of the guarded block: text events, then the sources event
    when the block ran to its end with sources accumulated. *)
Lemma guarded_body_events env llm r m history :
  match guarded_body env llm r m history initial_state with
  | (events, st, Ok _) =>
      exists texts, Forall is_text texts /\
                    events = texts ++ sources_tail (sources st)
  | (events, _, Raise _) => Forall is_text events
  end.
Proof.
  unfold guarded_body.
  set (branch := match mode_of r with
                 | RAG => _ | TOOL => _ | CHAT => _ end).
  assert (Hb : text_only branch).
  { unfold branch. destruct (mode_of r).
    - apply text_only_rag_branch.
    - apply text_only_tool_branch.
    - apply text_only_chat_branch. }
  specialize (Hb initial_state). unfold bind at 1.
  destruct (branch initial_state) as [[evs st1] [[]|e]]; simpl in *; [|exact Hb].
  unfold bind, get_sources. simpl.
  destruct (nonempty (sources st1)) eqn:E; simpl;
    exists evs; (split; [exact Hb|]); unfold sources_tail; rewrite E;
    reflexivity.
Qed.

(** The two initialisations run before the guarded block: an exception of
    either leaves the generator before any event. *)
Lemma setup_failure_escapes env db m history use_rag session_id e :
  init_llm env = Raise e \/
  ((exists llm, init_llm env = Ok llm) /\ init_embedding env = Raise e) ->
  stream_generator env db m history use_rag session_id = Escaped [] e db.
Proof.
  unfold stream_generator. intros [-> | [[llm ->] ->]]; reflexivity.
Qed.

(** C2, counterexample. A whole turn of plain conversation whose backend
    yields no delta: the turn completes and its stream holds no event at
    all. *)
Lemma C2_counterexample :
  match chat_stream (Scenario.chat_env Scenario.silent) Scenario.empty_db None
                    (Scenario.request (lit "hello")) with
  | Streaming _ (Completed events _) => events = []
  | _ => False
  end.
Proof. vm_compute. reflexivity. Qed.

(** C2 (amended). Once the two backends are initialised the generator
    returns and no exception leaves it. An exception raised inside the
    guarded block becomes exactly one final error event, after the text
    events already yielded, and the stream ends there with the tables
    untouched. A block that runs to its end yields text events and then at
    most one sources event; such a stream may hold no event at all. *)
Theorem C2_stream_shape (env : Env) (db : DB) (current_message : str)
    (history : list LlamaChatMessage) (use_rag : bool) (session_id : str)
    (llm : option LLM) (embed_model : EmbedModel) :
  init_llm env = Ok llm ->
  init_embedding env = Ok embed_model ->
  let outcome :=
    stream_generator env db current_message history use_rag session_id in
  match guarded_body env llm (routing env embed_model use_rag current_message)
                     current_message history initial_state with
  | (_, st, Ok _) =>
      exists texts, Forall is_text texts /\
        outcome = Completed (texts ++ sources_tail (sources st))
                        (persist env db session_id current_message st)
  | (texts, _, Raise e) =>
      Forall is_text texts /\ outcome = Handled (texts ++ [error_event e]) db
  end.
Proof.
  intros Hllm Hembed outcome. unfold outcome, stream_generator.
  rewrite Hllm, Hembed.
  pose proof (guarded_body_events env llm
                (routing env embed_model use_rag current_message)
                current_message history) as H.
  destruct (guarded_body _ _ _ _ _ _) as [[evs st] [[]|e]].
  - destruct H as (texts & Ht & ->). exists texts. auto.
  - auto.
Qed.

(** C2 on a backend that raises after its first delta. *)
Lemma C2_stream_shape_witness :
  stream_generator (Scenario.chat_env Scenario.broken) Scenario.empty_db
                   (lit "hello") [] false Scenario.sid
  = Handled [TextEvent (lit "Hel"); TextEvent (lit "Error: boom")]
            Scenario.empty_db.
Proof.
  generalize (C2_stream_shape (Scenario.chat_env Scenario.broken)
                Scenario.empty_db (lit "hello") [] false Scenario.sid
                _ _ eq_refl eq_refl).
  vm_compute. intros [_ H]. exact H.
Defined.

(* ===================================================================== *)
(** * Persistence at the end of a turn *)
(* ===================================================================== *)

Lemma resolve_session_messages env db current_user session_id :
  db_messages (res_db (resolve_session env db current_user session_id))
  = db_messages db.
Proof.
  unfold resolve_session, mint_session, create_session.
  destruct session_id as [sid|]; [|reflexivity].
  destruct (truthy sid); [|reflexivity].
  destruct (parse_uuid env sid) as [id|]; [|reflexivity].
  destruct (db_sessions db !! id) as [s|]; [|reflexivity].
  destruct (_ && _); reflexivity.
Qed.

(** What the wrapping handler leaves: the text events yielded so far, one
    error event, and the tables as they were. *)
Lemma stream_generator_handled env db m history use_rag session_id events db' :
  stream_generator env db m history use_rag session_id = Handled events db' ->
  db' = db /\
  exists texts e, Forall is_text texts /\ events = texts ++ [error_event e].
Proof.
  unfold stream_generator.
  destruct (init_llm env) as [llm|]; [|discriminate].
  destruct (init_embedding env) as [embed_model|]; [|discriminate].
  pose proof (guarded_body_events env llm (routing env embed_model use_rag m)
                m history) as H.
  destruct (guarded_body _ _ _ _ _ _) as [[evs st] [[]|e]]; [discriminate|].
  intros [= <- <-]. split; [reflexivity|]. exists evs, e. auto.
Qed.

(** What step 1 leaves under the key of the session it resolved; the other
    sessions are as they were. *)
Lemma resolve_session_effect env db current_user session_id :
  db_sessions db !! uuid4 env = None ->
  let r := resolve_session env db current_user session_id in
  db_sessions (res_db r) !! res_id r
  = Some (session_after_step1 env current_user (db_sessions db !! res_id r)) /\
  (forall other, other <> res_id r ->
                 db_sessions (res_db r) !! other = db_sessions db !! other).
Proof.
  intros Hfresh r.
  assert (Hmint : forall r',
            r' = mint_session env db current_user ->
            db_sessions (res_db r') !! res_id r'
            = Some (session_after_step1 env current_user
                      (db_sessions db !! res_id r')) /\
            (forall other, other <> res_id r' ->
                           db_sessions (res_db r') !! other
                           = db_sessions db !! other)).
  { intros r' ->. unfold mint_session, create_session.
    cbn [res_db res_id db_sessions]. rewrite Hfresh, lookup_insert_eq.
    split; [reflexivity|]. intros other Ho. now rewrite lookup_insert_ne. }
  unfold r, resolve_session.
  destruct session_id as [[|c sid]|]; try (apply Hmint; reflexivity).
  cbn [truthy].
  destruct (parse_uuid env (c :: sid)) as [id|]; [|apply Hmint; reflexivity].
  destruct (db_sessions db !! id) as [old|] eqn:E.
  - destruct (negb (bool_decide (is_Some (cs_user old)))
              && bool_decide (is_Some current_user)) eqn:B;
      cbn [res_db res_id db_sessions]; rewrite E;
      cbn [session_after_step1].
    + apply andb_true_iff in B. destruct B as [B _].
      apply negb_true_iff, bool_decide_eq_false in B.
      rewrite lookup_insert_eq. split.
      * destruct (cs_user old); [exfalso; apply B; eauto|reflexivity].
      * intros other Ho. now rewrite lookup_insert_ne.
    + split; [|reflexivity]. f_equal.
      destruct old as [user title active created updated].
      unfold with_user. cbn. cbn in B. f_equal.
      destruct user as [owner|]; [reflexivity|].
      destruct current_user; [|reflexivity].
      rewrite bool_decide_eq_false_2 in B by (intros [x Hx]; discriminate).
      rewrite bool_decide_eq_true_2 in B by eauto. discriminate.
  - unfold create_session. cbn [res_db res_id db_sessions].
    rewrite E, lookup_insert_eq. split; [reflexivity|].
    intros other Ho. now rewrite lookup_insert_ne.
Qed.

(** C10, counterexample. A turn that fails on an identifier the table does
    not know ends with the error event and stores the user message, and it
    also leaves the session it created: the user message is not the only
    change. *)
Lemma C10_counterexample :
  let env := Scenario.chat_env Scenario.broken in
  db_sessions Scenario.empty_db !! Scenario.a1 = None /\
  match chat_stream env Scenario.empty_db None (Scenario.request (lit "hello")) with
  | Streaming _ (Handled events db') =>
      events = [TextEvent (lit "Hel"); TextEvent (lit "Error: boom")] /\
      db_messages db' = [user_message env Scenario.a1 (lit "hello")] /\
      db_sessions db' !! Scenario.a1
      = Some (mkChatSession None new_chat true (now env) (now env)) /\
      db_sessions db' <> db_sessions Scenario.empty_db
  | _ => False
  end.
Proof.
  split; [reflexivity|].
  destruct (chat_stream _ _ _ _) as [d|e d|session_id [ev d|ev d|ev e d]] eqn:E;
    try (vm_compute in E; discriminate E).
  assert (Hev : ev = [TextEvent (lit "Hel"); TextEvent (lit "Error: boom")])
    by (vm_compute in E; injection E as _ <- _; reflexivity).
  assert (Hmsg : db_messages d
                 = [user_message (Scenario.chat_env Scenario.broken) Scenario.a1
                      (lit "hello")])
    by (vm_compute in E; injection E as _ _ <-; reflexivity).
  assert (Hses : db_sessions d !! Scenario.a1
                 = Some (mkChatSession None new_chat true
                           (now (Scenario.chat_env Scenario.broken))
                           (now (Scenario.chat_env Scenario.broken))))
    by (vm_compute in E; injection E as _ _ <-; reflexivity).
  split; [exact Hev|]. split; [exact Hmsg|]. split; [exact Hses|].
  intros H. rewrite H in Hses. discriminate Hses.
Qed.

(** C10 (amended). When the stream of a turn ends with the error event of
    the wrapping handler, the turn stored no assistant message and changed
    no title. What it changed is the user message, stored before
    generation began, and what step 1 did before that to the session of
    the turn: a session the table had is kept, with the caller as owner
    when it had none, and a session the table did not have is created.
    Every other session is as it was. *)
Theorem C10_failed_turn (env : Env) (db : DB) (current_user : option User)
    (payload : ChatRequest) (session_id : str) (events : list Event) (db' : DB) :
  db_sessions db !! uuid4 env = None ->
  chat_stream env db current_user payload
  = Streaming session_id (Handled events db') ->
  let id := res_id (resolve_session env db current_user
                      (req_session_id payload)) in
  (exists texts e, Forall is_text texts /\ events = texts ++ [error_event e]) /\
  db_messages db'
  = db_messages db ++ [user_message env id (user_text payload)] /\
  db_sessions db' !! id
  = Some (session_after_step1 env current_user (db_sessions db !! id)) /\
  (forall old, db_sessions db !! id = Some old ->
               cs_title <$> db_sessions db' !! id = Some (cs_title old)) /\
  (forall other, other <> id ->
                 db_sessions db' !! other = db_sessions db !! other).
Proof.
  intros Hfresh. unfold chat_stream.
  pose proof (resolve_session_messages env db current_user
                (req_session_id payload)) as Hm.
  pose proof (resolve_session_effect env db current_user
                (req_session_id payload) Hfresh) as [Hself Hothers].
  destruct (resolve_session env db current_user (req_session_id payload))
    as [db1 id sid]. cbn [res_db res_id res_session_id] in *.
  destruct (negb (truthy (user_text payload))); [discriminate|].
  destruct (load_history _ _ _ _) as [history|e]; [|discriminate].
  intros [= -> H].
  apply stream_generator_handled in H. destruct H as [-> H].
  split; [exact H|]. split; [|split; [|split]].
  - unfold create_message. cbn [db_messages]. now rewrite Hm.
  - exact Hself.
  - intros old Hold. unfold create_message. cbn [db_sessions].
    rewrite Hself, Hold. reflexivity.
  - exact Hothers.
Qed.

(** C10 on a whole turn whose backend raises after its first delta. *)
Lemma C10_failed_turn_witness :
  match chat_stream (Scenario.chat_env Scenario.broken) Scenario.empty_db None
                    (Scenario.request (lit "hello")) with
  | Streaming _ (Handled _ db') =>
      db_messages db'
      = [user_message (Scenario.chat_env Scenario.broken) Scenario.a1 (lit "hello")]
  | _ => False
  end.
Proof.
  pose proof (C10_failed_turn (Scenario.chat_env Scenario.broken)
                Scenario.empty_db None (Scenario.request (lit "hello"))) as H.
  destruct (chat_stream _ _ _ _) as [d|e d|session_id [ev d|ev d|ev e d]] eqn:E;
    try (vm_compute in E; discriminate E).
  destruct (H session_id ev d eq_refl eq_refl) as (_ & Hmsgs & _).
  exact Hmsgs.
Defined.





Lemma stream_generator_completed env db m history use_rag session_id events db' :
  stream_generator env db m history use_rag session_id = Completed events db' ->
  exists st, db' = persist env db session_id m st.
Proof.
  unfold stream_generator.
  destruct (init_llm env) as [llm|]; [|discriminate].
  destruct (init_embedding env) as [embed_model|]; [|discriminate].
  destruct (guarded_body _ _ _ _ _ _) as [[evs st] [[]|e]]; [|discriminate].
  intros [= <- <-]. eauto.
Qed.




(* ===================================================================== *)
(** * The source list of a turn *)
(* ===================================================================== *)

(** C5, counterexample. A backend that asks twice for the same invocation
    gets two equal records attached to the assistant message. *)
Lemma C5_counterexample :
  match chat_stream Scenario.tool_env Scenario.fresh_db None
                    (Scenario.request (lit "weather in Paris")) with
  | Streaming _ (Completed _ db') =>
      let record := ToolSource (lit "get_weather") (lit "get_weather") (lit "{}") in
      (cm_role <$> last (db_messages db') = Some (lit "ai")) /\
      (cm_sources <$> last (db_messages db') = Some [record; record]) /\
      ~ NoDup [record; record]
  | _ => False
  end.
Proof.
  vm_compute. split; [reflexivity|]. split; [reflexivity|].
  intros H. apply NoDup_cons in H. destruct H as [H _].
  apply H. left.
Qed.

Lemma add_new_NoDup acc s : NoDup acc -> NoDup (add_new acc s).
Proof.
  intros H. unfold add_new. case_bool_decide; [exact H|].
  apply NoDup_app. split; [exact H|]. split.
  - intros x Hx Hs. apply list_elem_of_singleton in Hs. subst. contradiction.
  - apply NoDup_singleton.
Qed.

Lemma add_new_elem acc s x : x ∈ add_new acc s <-> x ∈ acc \/ x = s.
Proof.
  unfold add_new. case_bool_decide.
  - split; [auto|]. intros [H'| ->]; auto.
  - rewrite elem_of_app, list_elem_of_singleton. reflexivity.
Qed.

Lemma collect_cons {A} (g : A -> option SourceRecord) x l acc :
  collect g (x :: l) acc
  = collect g l (match g x with Some s => add_new acc s | None => acc end).
Proof. reflexivity. Qed.

Lemma collect_NoDup {A} (g : A -> option SourceRecord) l acc :
  NoDup acc -> NoDup (collect g l acc).
Proof.
  revert acc. induction l as [|x l IH]; intros acc H; [exact H|].
  rewrite collect_cons.
  apply IH. destruct (g x); [now apply add_new_NoDup|exact H].
Qed.

Lemma collect_elem {A} (g : A -> option SourceRecord) l acc s :
  s ∈ collect g l acc <-> s ∈ acc \/ s ∈ omap g l.
Proof.
  revert acc. induction l as [|x l IH]; intros acc.
  - simpl. rewrite elem_of_nil. tauto.
  - rewrite collect_cons, IH. simpl. destruct (g x) as [s'|].
    + rewrite add_new_elem, elem_of_cons. intuition congruence.
    + tauto.
Qed.

Lemma for_each_collect {A} (g : A -> option SourceRecord)
    (body : A -> Gen unit) (l : list A) (st : GenState) :
  (forall x st, body x st
                = match g x with
                  | Some s => append_source_if_new s st
                  | None => ret tt st
                  end) ->
  for_each l body st
  = ([], mkGenState (full_response_text st) (collect g l (sources st)), Ok tt).
Proof.
  intros Hbody. revert st. induction l as [|x l IH]; intros st.
  - destruct st; reflexivity.
  - rewrite collect_cons. cbn [for_each]. unfold bind. rewrite Hbody.
    destruct (g x) as [s|].
    + unfold append_source_if_new, add_new, append_source.
      case_bool_decide; rewrite IH; reflexivity.
    + unfold ret. rewrite IH. reflexivity.
Qed.

Lemma keeps_sources_bind {A B} (m : Gen A) (f : A -> Gen B) :
  keeps_sources m -> (forall a, keeps_sources (f a)) -> keeps_sources (bind m f).
Proof.
  intros Hm Hf st. unfold bind. specialize (Hm st).
  destruct (m st) as [[evs st1] [a|e]]; simpl in *; [|exact Hm].
  specialize (Hf a st1). destruct (f a st1) as [[evs' st2] r]; simpl in *.
  congruence.
Qed.

Lemma keeps_sources_for_each {A} (l : list A) (body : A -> Gen unit) :
  (forall x, keeps_sources (body x)) -> keeps_sources (for_each l body).
Proof.
  intros Hb. induction l as [|x l IH]; simpl.
  - intros st. reflexivity.
  - apply keeps_sources_bind; auto.
Qed.

Lemma keeps_sources_stream_reply llm messages :
  keeps_sources (stream_reply llm messages).
Proof.
  destruct llm as [l|]; simpl; [|intros st; reflexivity].
  unfold for_chunks. apply keeps_sources_bind.
  - apply keeps_sources_for_each. intros [d|]; simpl; [|intros st; reflexivity].
    destruct (truthy d); [|intros st; reflexivity].
    apply keeps_sources_bind; intros; intros st; reflexivity.
  - intros _. destruct (ending _); intros st; reflexivity.
Qed.

Lemma keeps_sources_yield_slices text : keeps_sources (yield_slices text).
Proof.
  unfold yield_slices. apply keeps_sources_for_each.
  intros i st. reflexivity.
Qed.

Lemma execute_tool_calls_sources env tools calls st :
  exists evs text results,
    execute_tool_calls env tools calls st
    = (evs, mkGenState text (sources st ++ List.map (tool_source env) calls),
       Ok results).
Proof.
  revert st. induction calls as [|tc calls IH]; intros st; simpl.
  - exists [], (full_response_text st), []. unfold ret.
    rewrite app_nil_r. destruct st; reflexivity.
  - unfold bind at 1. unfold append_source at 1. simpl.
    unfold bind at 1.
    destruct (IH (mkGenState (full_response_text st)
                             (sources st ++ [tool_source env tc])))
      as (evs & text & results & ->).
    simpl. rewrite <- app_assoc. simpl. eauto.
Qed.

Lemma rag_branch_sources env llm r m history st :
  sources (rag_branch env llm (keyword r) (retrieved_nodes r) m history st).1.2
  = collect Some (passage_records env r) (sources st).
Proof.
  unfold rag_branch, passage_records.
  set (k := fun ctx : str => _).
  assert (Hk : forall ctx, keeps_sources (k ctx)).
  { intros ctx. unfold k. apply keeps_sources_bind.
    - intros s. reflexivity.
    - intros srcs. apply keeps_sources_stream_reply. }
  destruct (keyword_match (keyword r) && nonempty (keyword_results (keyword r))).
  - unfold bind at 1. unfold bind at 1. unfold collect_keyword_sources.
    rewrite (for_each_collect
               (fun row => keyword_source <$> resolve_meta env (row_metadata row))).
    2:{ intros row s. destruct (resolve_meta env (row_metadata row)); reflexivity. }
    simpl. specialize (Hk (rag_context (List.map row_text (keyword_results (keyword r))))
                         (mkGenState (full_response_text st)
                            (collect (fun row => keyword_source
                                        <$> resolve_meta env (row_metadata row))
                               (keyword_results (keyword r)) (sources st)))).
    destruct (k _ _) as [[evs' st2] res]. simpl in *. rewrite Hk.
    generalize (sources st). generalize (keyword_results (keyword r)).
    induction l as [|row l IH]; intros acc; simpl; [reflexivity|].
    destruct (resolve_meta env (row_metadata row)); simpl; apply IH.
  - unfold bind at 1. unfold bind at 1. unfold collect_node_sources.
    rewrite (for_each_collect (fun node => Some (node_source (node_metadata node)))).
    2:{ intros node s. reflexivity. }
    simpl. specialize (Hk (rag_context (List.map node_content (retrieved_nodes r)))
                         (mkGenState (full_response_text st)
                            (collect (fun node => Some (node_source (node_metadata node)))
                               (retrieved_nodes r) (sources st)))).
    destruct (k _ _) as [[evs' st2] res]. simpl in *. rewrite Hk.
    generalize (sources st). generalize (retrieved_nodes r).
    induction l as [|node l IH]; intros acc; simpl; [reflexivity|]. apply IH.
Qed.

Lemma bind_sources {A B} (m : Gen A) (f : A -> Gen B) st :
  (forall a, keeps_sources (f a)) ->
  sources (bind m f st).1.2 = sources (m st).1.2.
Proof.
  intros Hf. unfold bind.
  destruct (m st) as [[evs st1] [a|e]]; simpl; [|reflexivity].
  specialize (Hf a st1). destruct (f a st1) as [[evs' st2] r]. exact Hf.
Qed.

Lemma try_except_sources {A} (m : Gen A) (h : str -> Gen A) st :
  (forall e, keeps_sources (h e)) ->
  sources (try_except m h st).1.2 = sources (m st).1.2.
Proof.
  intros Hh. unfold try_except.
  destruct (m st) as [[evs st1] [a|e]]; simpl; [reflexivity|].
  specialize (Hh e st1). destruct (h e st1) as [[evs' st2] r]. exact Hh.
Qed.

Lemma tool_branch_sources env llm m history st :
  sources (tool_branch env llm (get_mcp_tools env) m history st).1.2
  = sources st ++ List.map (tool_source env) (invocations env llm m history).
Proof.
  unfold tool_branch, invocations.
  rewrite try_except_sources
    by (intros e; apply keeps_sources_stream_reply).
  unfold bind at 1. unfold lift at 1.
  destruct (call_with_tools _ _ _ _) as [response|e]; simpl;
    [|now rewrite app_nil_r].
  generalize (match tool_calls_of response with Ok l => l | Raise _ => [] end).
  intros [|tc calls].
  - simpl. rewrite app_nil_r.
    pose proof (bind_sources (set_text (message_content response))
                  (fun _ => yield_slices (message_content response)) st
                  (fun _ => keeps_sources_yield_slices _)) as H.
    destruct (bind _ _ st) as [[evs st1] res]. simpl in *. exact H.
  - cbn [nonempty].
    destruct (execute_tool_calls_sources env (get_mcp_tools env) (tc :: calls) st)
      as (evs & text & results & Hx).
    pose proof (bind_sources
                  (execute_tool_calls env (get_mcp_tools env) (tc :: calls))
                  (fun tool_results =>
                     stream_reply llm
                       [ system_msg (lit "你是助手。当前时间是: " ++ current_time_str env
                                     ++ lit "。根据工具返回的信息回答用户。");
                         user_msg m;
                         assistant_msg (lit "工具返回:" ++ nl ++ join nl tool_results);
                         user_msg (lit "请用这些信息回答我。") ]) st
                  (fun _ => keeps_sources_stream_reply _ _)) as H.
    rewrite Hx in H. simpl in H.
    destruct (bind _ _ st) as [[evs1 st1] res]. simpl in *. exact H.
Qed.

Lemma chat_branch_sources env llm m history st :
  sources (chat_branch env llm m history st).1.2 = sources st.
Proof. apply keeps_sources_stream_reply. Qed.

(** C5 (amended). In a RAG turn the source list attached to the assistant
    message holds each document record of the passages exactly once: two
    passages with the same file name and page give one record. In a tool
    turn it holds one record per invocation the backend asked for, in order
    and without removal of duplicates. In a plain conversation it is
    empty. *)
Theorem C5_sources (env : Env) (db : DB) (current_message : str)
    (history : list LlamaChatMessage) (use_rag : bool) (session_id : str)
    (llm : option LLM) (embed_model : EmbedModel) :
  init_llm env = Ok llm ->
  init_embedding env = Ok embed_model ->
  let r := routing env embed_model use_rag current_message in
  exists events st res,
    guarded_body env llm r current_message history initial_state
    = (events, st, res) /\
    (forall u, res = Ok u ->
       stream_generator env db current_message history use_rag session_id
       = Completed events (persist env db session_id current_message st)) /\
    match mode_of r with
    | RAG => NoDup (sources st) /\
             (forall s, s ∈ sources st <-> s ∈ passage_records env r)
    | TOOL => sources st
              = List.map (tool_source env)
                         (invocations env llm current_message history)
    | CHAT => sources st = []
    end.
Proof.
  intros Hllm Hembed r.
  destruct (guarded_body env llm r current_message history initial_state)
    as [[events st] res] eqn:E.
  exists events, st, res. split; [reflexivity|]. split.
  - intros u ->. unfold stream_generator. rewrite Hllm, Hembed.
    fold r. rewrite E. destruct u. reflexivity.
  - assert (Hs : sources st
                 = sources (match mode_of r with
                            | RAG => rag_branch env llm (keyword r)
                                       (retrieved_nodes r) current_message history
                            | TOOL => tool_branch env llm (get_mcp_tools env)
                                        current_message history
                            | CHAT => chat_branch env llm current_message history
                            end initial_state).1.2).
    { unfold guarded_body in E.
      rewrite <- (bind_sources _
                    (fun _ : unit =>
                       bind get_sources
                         (fun srcs => if nonempty srcs
                                      then yield (SourcesEvent srcs) else ret tt))).
      - now rewrite E.
      - intros _. apply keeps_sources_bind; [intros s; reflexivity|].
        intros srcs. destruct (nonempty srcs); intros s; reflexivity. }
    destruct (mode_of r).
    + rewrite Hs, rag_branch_sources. split.
      * apply collect_NoDup. constructor.
      * intros s. rewrite collect_elem. simpl. rewrite elem_of_nil.
        assert (Ho : omap Some (passage_records env r) = passage_records env r).
        { induction (passage_records env r) as [|x l IH];
            [reflexivity|]. cbn. now rewrite IH. }
        rewrite Ho. tauto.
    + rewrite Hs, tool_branch_sources. reflexivity.
    + rewrite Hs, chat_branch_sources. reflexivity.
Qed.

(** C5 on three retrieved passages, two of them of the same page. *)
Lemma C5_sources_witness :
  match stream_generator Scenario.rag_env Scenario.fresh_db
          (lit "what is alpha") [] true Scenario.sid with
  | Completed _ db' =>
      cm_sources <$> last (db_messages db')
      = Some [DocSource (lit "a.pdf") (Some (lit "1"));
              DocSource (lit "b.pdf") (Some (lit "2"))]
  | _ => False
  end.
Proof.
  destruct (C5_sources Scenario.rag_env Scenario.fresh_db (lit "what is alpha")
              [] true Scenario.sid _ _ eq_refl eq_refl)
    as (events & st & res & E & Hrun & _).
  vm_compute in E. injection E as <- <- <-.
  rewrite (Hrun tt eq_refl). vm_compute. reflexivity.
Defined.

(* ===================================================================== *)
(** * Tool matching *)
(* ===================================================================== *)

Lemma tool_match_loop_spec env embed_model qe tools score name :
  let scored := scored_tools env embed_model qe tools in
  let result := tool_match_loop env embed_model qe tools score name in
  (score <= result.1)%Q /\
  (forall t s, (t, s) ∈ scored -> (s <= result.1)%Q) /\
  (result = (score, name) \/
   exists t, (t, result.1) ∈ scored /\ result.2 = Some t /\ (score < result.1)%Q).
Proof.
  revert score name. induction tools as [|tool rest IH]; intros score name; simpl.
  - split; [apply Qle_refl|]. split; [|now left].
    intros t s H. now apply elem_of_nil in H.
  - destruct (get_text_embedding embed_model (tool_desc tool)) as [v|e]; simpl.
    + set (sim := np_cosine env qe v).
      destruct (Qgt_b sim score) eqn:E; qbool.
      * destruct (IH sim (Some (tool_name tool))) as (Hle & Hall & Hbest).
        split; [lra|]. split.
        -- intros t s Hts. apply elem_of_cons in Hts.
           destruct Hts as [[= -> ->] | Hts]; [exact Hle|eauto].
        -- right. destruct Hbest as [Heq | (t & Hin & Hname & Hlt)].
           ++ exists (tool_name tool). rewrite Heq. simpl.
              split; [left|]. split; [reflexivity|exact E].
           ++ exists t. split; [now right|]. split; [exact Hname|lra].
      * destruct (IH score name) as (Hle & Hall & Hbest).
        split; [exact Hle|]. split.
        -- intros t s Hts. apply elem_of_cons in Hts.
           destruct Hts as [[= -> ->] | Hts]; [fold sim; lra|eauto].
        -- destruct Hbest as [Heq | (t & Hin & Hname & Hlt)]; [now left|].
           right. exists t. split; [now right|]. auto.
    + split; [apply Qle_refl|]. split; [|now left].
      intros t s H. now apply elem_of_nil in H.
Qed.

Lemma scored_tools_all env embed_model qe tools :
  (forall tool, tool ∈ tools ->
     exists v, get_text_embedding embed_model (tool_desc tool) = Ok v) ->
  List.map fst (scored_tools env embed_model qe tools) = List.map tool_name tools.
Proof.
  induction tools as [|tool rest IH]; intros H; simpl; [reflexivity|].
  destruct (H tool) as [v ->]; [left|]. simpl. f_equal.
  apply IH. intros t Ht. apply H. now right.
Qed.

(** C7, counterexample. With the embedding of the first tool failing, the
    second tool is never scored: its similarity of 0.9 does not enter the
    maximum, which stays 0. *)
Lemma C7_counterexample :
  let env := Scenario.picky_env in
  let query := lit "weather in Paris" in
  get_text_embedding Scenario.picky query = Ok [1%Q] /\
  Scenario.get_weather ∈ get_mcp_tools env /\
  get_text_embedding Scenario.picky (tool_desc Scenario.get_weather)
  = Ok [(9 # 10)%Q] /\
  np_cosine env [1%Q] [(9 # 10)%Q] = (9 # 10)%Q /\
  tool_matching env Scenario.picky (get_mcp_tools env) query = (0%Q, None) /\
  ~ ((9 # 10) <= (tool_matching env Scenario.picky (get_mcp_tools env) query).1)%Q.
Proof.
  split; [reflexivity|]. split; [right; left|]. split; [reflexivity|].
  split; [reflexivity|]. split; [reflexivity|].
  vm_compute. intros H. apply H. reflexivity.
Qed.

(** C7 (amended). Tool matching always returns. When the embedding of the
    query fails the score is 0 and no tool is matched. Otherwise the tools
    are scored in order up to the first one whose embedding fails; that
    failure ends the matching, the tools after it are not scored, and the
    score is the largest similarity of the tools scored before it, or 0
    with no tool matched when none is positive. When no embedding fails
    every tool is scored. *)
Theorem C7_tool_matching (env : Env) (embed_model : EmbedModel)
    (mcp_tools : list Tool) (current_message : str) :
  let result := tool_matching env embed_model mcp_tools current_message in
  match get_text_embedding embed_model current_message with
  | Raise _ => result = (0%Q, None)
  | Ok query_embedding =>
      let scored := scored_tools env embed_model query_embedding mcp_tools in
      (forall t s, (t, s) ∈ scored -> (s <= result.1)%Q) /\
      (result = (0%Q, None) \/
       exists t, (t, result.1) ∈ scored /\ result.2 = Some t /\ (0 < result.1)%Q) /\
      ((forall tool, tool ∈ mcp_tools ->
          exists v, get_text_embedding embed_model (tool_desc tool) = Ok v) ->
       List.map fst scored = List.map tool_name mcp_tools)
  end.
Proof.
  intros result. unfold result, tool_matching.
  destruct (get_text_embedding embed_model current_message) as [qe|e].
  - destruct mcp_tools as [|tool rest].
    + simpl. split; [|split; [now left|reflexivity]].
      intros t s H. now apply elem_of_nil in H.
    + cbn [nonempty].
      destruct (tool_match_loop_spec env embed_model qe (tool :: rest) 0%Q None)
        as (_ & Hall & Hbest).
      split; [exact Hall|]. split; [exact Hbest|].
      apply scored_tools_all.
  - destruct (nonempty mcp_tools); reflexivity.
Qed.

(* ===================================================================== *)
(** * History *)
(* ===================================================================== *)

Global Instance created_desc_total : Total created_desc.
Proof. intros a b. unfold created_desc. lia. Qed.
Global Instance created_desc_trans : Transitive created_desc.
Proof. intros a b c. unfold created_desc. lia. Qed.
Global Instance created_asc_total : Total created_asc.
Proof. intros a b. unfold created_asc. lia. Qed.
Global Instance created_asc_trans : Transitive created_asc.
Proof. intros a b c. unfold created_asc. lia. Qed.

Lemma recent_rows_length db id :
  length (recent_rows db id) = Nat.min (length (session_messages db id)) 20.
Proof.
  unfold recent_rows. rewrite length_reverse, length_take.
  rewrite (Permutation_length (merge_sort_Permutation created_desc _)). lia.
Qed.

Lemma recent_rows_sorted db id : StronglySorted created_asc (recent_rows db id).
Proof.
  unfold recent_rows. apply Sorted_StronglySorted; [apply _|].
  apply (Sorted_reverse created_desc).
  pose proof (Sorted_merge_sort created_desc (session_messages db id)) as H.
  rewrite <- (take_drop 20 (merge_sort _ _)) in H.
  apply Sorted_StronglySorted in H; [|apply _].
  apply StronglySorted_app in H. destruct H as (_ & H & _).
  now apply StronglySorted_Sorted.
Qed.

Lemma recent_rows_most_recent db id :
  exists older,
    session_messages db id ≡ₚ older ++ recent_rows db id /\
    forall o r, o ∈ older -> r ∈ recent_rows db id -> created_asc o r.
Proof.
  set (sorted := merge_sort created_desc (session_messages db id)).
  exists (drop 20 sorted). split.
  - unfold recent_rows. fold sorted.
    rewrite reverse_Permutation, (comm (++)), take_drop.
    symmetry. apply merge_sort_Permutation.
  - intros o r Ho Hr. unfold recent_rows in Hr. fold sorted in Hr.
    rewrite elem_of_reverse in Hr.
    pose proof (StronglySorted_merge_sort created_desc
                  (session_messages db id)) as H.
    fold sorted in H. rewrite <- (take_drop 20 sorted) in H.
    apply StronglySorted_app in H. destruct H as (H & _ & _).
    exact (H r o Hr Ho).
Qed.

Lemma to_llama_user (m : ChatMessage) :
  role (to_llama m) = lit "user" <-> cm_role m = lit "user".
Proof.
  unfold to_llama, str_eqb. simpl. case_bool_decide as E.
  - rewrite E. split; intros H; vm_compute in H; discriminate H.
  - reflexivity.
Qed.

Lemma to_llama_content (m : ChatMessage) : content (to_llama m) = cm_content m.
Proof. reflexivity. Qed.

Lemma pop_submitted_snoc user_text rows m :
  pop_submitted user_text (List.map to_llama (rows ++ [m]))
  = if bool_decide (cm_role m = lit "user" /\ cm_content m = user_text)
    then List.map to_llama rows
    else List.map to_llama (rows ++ [m]).
Proof.
  unfold pop_submitted. rewrite List.map_app. simpl.
  rewrite last_snoc, to_llama_content.
  rewrite length_app, List.length_map. simpl.
  replace (length rows + 1 - 1) with (length (List.map to_llama rows))
    by (rewrite List.length_map; lia).
  rewrite take_app_length. unfold str_eqb.
  destruct (decide (cm_role m = lit "user")) as [Hr|Hr];
    destruct (decide (cm_content m = user_text)) as [Hc|Hc].
  - rewrite !bool_decide_eq_true_2; auto. now apply to_llama_user.
  - rewrite (bool_decide_eq_false_2 (cm_content m = user_text)) by exact Hc.
    rewrite (bool_decide_eq_false_2 (_ /\ _)) by tauto.
    now rewrite andb_false_r.
  - rewrite (bool_decide_eq_false_2 (role (to_llama m) = _))
      by (rewrite to_llama_user; exact Hr).
    rewrite (bool_decide_eq_false_2 (_ /\ _)) by tauto. reflexivity.
  - rewrite (bool_decide_eq_false_2 (role (to_llama m) = _))
      by (rewrite to_llama_user; exact Hr).
    rewrite (bool_decide_eq_false_2 (_ /\ _)) by tauto. reflexivity.
Qed.

(** C8. For a session holding N stored messages, history loading returns
    the most recent min(N, 20) of them in ascending order of creation, and
    leaves out the final entry when its role is user and its content is the
    text just submitted. *)
Theorem C8_history_loading (env : Env) (db : DB) (session_id user_text : str)
    (id : UUID) :
  session_id <> [] ->
  parse_uuid env session_id = Some id ->
  let stored := session_messages db id in
  let rows := recent_rows db id in
  length rows = Nat.min (length stored) 20 /\
  StronglySorted created_asc rows /\
  (exists older,
     stored ≡ₚ older ++ rows /\
     forall o r, o ∈ older -> r ∈ rows -> created_asc o r) /\
  get_chat_history env db session_id = Ok (List.map to_llama rows) /\
  (forall earlier m,
     rows = earlier ++ [m] ->
     cm_role m = lit "user" -> cm_content m = user_text ->
     load_history env db session_id user_text = Ok (List.map to_llama earlier)) /\
  ((forall m, last rows = Some m ->
              ~ (cm_role m = lit "user" /\ cm_content m = user_text)) ->
   load_history env db session_id user_text = Ok (List.map to_llama rows)).
Proof.
  intros Hsid Hparse stored rows.
  assert (Hget : get_chat_history env db session_id = Ok (List.map to_llama rows)).
  { unfold get_chat_history. rewrite Hparse.
    destruct session_id; [congruence|reflexivity]. }
  split; [apply recent_rows_length|]. split; [apply recent_rows_sorted|].
  split; [apply recent_rows_most_recent|]. split; [exact Hget|]. split.
  - intros earlier m Hrows Hrole Hcontent.
    unfold load_history. rewrite Hget, Hrows, pop_submitted_snoc.
    rewrite bool_decide_eq_true_2 by auto. reflexivity.
  - intros Hlast. unfold load_history. rewrite Hget. f_equal.
    destruct (last rows) as [m|] eqn:E.
    + pose proof E as E'. apply last_Some in E'. destruct E' as [earlier E'].
      rewrite E', pop_submitted_snoc.
      rewrite bool_decide_eq_false_2 by (apply Hlast; reflexivity). reflexivity.
    + apply last_None in E. rewrite E. reflexivity.
Qed.

(** C8 on a session of 25 messages whose last one is the submitted text. *)
Lemma C8_history_loading_witness :
  length (session_messages Scenario.long_db Scenario.a1) = 25 /\
  length (recent_rows Scenario.long_db Scenario.a1) = 20 /\
  load_history (Scenario.chat_env Scenario.hello) Scenario.long_db Scenario.sid
               (lit "18")
  = Ok (List.map to_llama
          (List.map Scenario.stored (seq 5 19))).
Proof.
  destruct (C8_history_loading (Scenario.chat_env Scenario.hello)
              Scenario.long_db Scenario.sid (lit "18") Scenario.a1
              ltac:(discriminate) eq_refl) as (Hlen & _ & _ & _ & Hpop & _).
  split; [reflexivity|]. split.
  - rewrite Hlen. reflexivity.
  - apply (Hpop (List.map Scenario.stored (seq 5 19)) (Scenario.stored 24));
      vm_compute; reflexivity.
Defined.

(** C9. A caller without credentials reads the messages of a session that
    user 7 owns, where the claim has an empty result. The check is there:
    user 8 gets nothing from the same request, and the session list shows
    nothing to a caller without credentials. *)
Theorem C9_unauthenticated_read :
  let env := Scenario.chat_env Scenario.hello in
  parse_uuid env Scenario.sid = Some Scenario.a1 /\
  cs_user <$> db_sessions Scenario.owned_db !! Scenario.a1 = Some (Some 7%N) /\
  get_history env Scenario.owned_db None Scenario.sid
  = [to_schema (Scenario.stored 0); to_schema (Scenario.stored 1)] /\
  get_history env Scenario.owned_db (Some 8%N) Scenario.sid = [] /\
  get_sessions env Scenario.owned_db None = [].
Proof.
  split; [reflexivity|]. split; [reflexivity|]. split; [reflexivity|].
  split; reflexivity.
Qed.

(** C7 on one tool whose embedding succeeds. *)
Lemma C7_tool_matching_witness :
  List.map fst (scored_tools Scenario.tool_env Scenario.unit_embedding [1%Q]
                  [Scenario.get_weather])
  = [lit "get_weather"].
Proof.
  pose proof (C7_tool_matching Scenario.tool_env Scenario.unit_embedding
                [Scenario.get_weather] (lit "weather in Paris")) as H.
  simpl in H. destruct H as (_ & _ & H).
  apply H. intros tool _. eexists. reflexivity.
Defined.

(* ===================================================================== *)
(** * What is stored is what was streamed *)
(* ===================================================================== *)

Lemma streamed_text_app (a b : list Event) :
  streamed_text (a ++ b) = streamed_text a ++ streamed_text b.
Proof.
  induction a as [|[d|l] a IH]; simpl; [reflexivity| |exact IH].
  rewrite IH. apply app_assoc.
Qed.

Lemma accumulates_pure {A} (r : Result A) : accumulates (lift r).
Proof. intros st. simpl. now rewrite app_nil_r. Qed.


Lemma accumulates_try_except {A} (m : Gen A) (h : str -> Gen A) :
  accumulates m -> (forall e, accumulates (h e)) -> accumulates (try_except m h).
Proof.
  intros Hm Hh st. unfold try_except. specialize (Hm st).
  destruct (m st) as [[evs st1] [a|e]]; simpl in *; [exact Hm|].
  specialize (Hh e st1). destruct (h e st1) as [[evs' st2] r]; simpl in *.
  rewrite Hh, Hm, streamed_text_app. symmetry. apply app_assoc.
Qed.






(** The slices of [range(lo, len, 50)] put end to end give the text from
    [lo] on. *)
Lemma slices_from (text : str) (fuel lo : nat) (st : GenState) :
  length text - lo <= fuel ->
  exists evs,
    for_each (range_from fuel lo (length text) 50)
             (fun i => yield (TextEvent (slice text i (i + 50)))) st
    = (evs, st, Ok tt) /\
    streamed_text evs = drop lo text.
Proof.
  revert lo. induction fuel as [|fuel IH]; intros lo Hfuel; simpl.
  - exists []. split; [reflexivity|]. simpl.
    symmetry. apply drop_ge. lia.
  - destruct (lo <? length text) eqn:E.
    + apply Nat.ltb_lt in E. simpl.
      destruct (IH (lo + 50)) as (evs & Hrun & Htext); [lia|].
      unfold bind. unfold yield at 1. cbn beta iota. rewrite Hrun.
      exists (TextEvent (slice text lo (lo + 50)) :: evs).
      split; [reflexivity|]. simpl. rewrite Htext. unfold slice.
      replace (lo + 50 - lo) with 50 by lia.
      rewrite <- drop_drop. apply take_drop.
    + apply Nat.ltb_ge in E. exists []. split; [reflexivity|]. simpl.
      symmetry. apply drop_ge. lia.
Qed.












(* ===================================================================== *)
(** * Slicing a direct reply *)
(* ===================================================================== *)

Lemma slices_shape (text : str) (fuel lo : nat) (st : GenState) :
  length text - lo <= fuel ->
  exists evs,
    for_each (range_from fuel lo (length text) 50)
             (fun i => yield (TextEvent (slice text i (i + 50)))) st
    = (evs, st, Ok tt) /\
    Forall (fun e => exists d, e = TextEvent d /\ 0 < length d <= 50) evs /\
    length evs = (length text - lo + 49) / 50.
Proof.
  revert lo. induction fuel as [|fuel IH]; intros lo Hfuel; cbn [range_from].
  - exists []. split; [reflexivity|]. split; [constructor|].
    replace (length text - lo) with 0 by lia. reflexivity.
  - destruct (lo <? length text) eqn:E.
    + apply Nat.ltb_lt in E. cbn [for_each].
      destruct (IH (lo + 50)) as (evs & Hrun & Hall & Hlen); [lia|].
      unfold bind. unfold yield at 1. cbn beta iota. rewrite Hrun.
      exists (TextEvent (slice text lo (lo + 50)) :: evs).
      split; [reflexivity|]. split.
      * constructor; [|exact Hall].
        exists (slice text lo (lo + 50)). split; [reflexivity|].
        unfold slice. rewrite length_take, length_drop. lia.
      * cbn [length]. rewrite Hlen.
        destruct (le_lt_dec (lo + 50) (length text)) as [Hfull|Hlast].
        -- replace (length text - lo + 49)
             with ((length text - (lo + 50) + 49) + 1 * 50) by lia.
           rewrite Nat.div_add by lia. lia.
        -- replace (length text - (lo + 50)) with 0 by lia.
           apply (Nat.div_unique _ 50 1 (length text - lo - 1)); lia.
    + apply Nat.ltb_ge in E. exists []. split; [reflexivity|].
      split; [constructor|].
      replace (length text - lo) with 0 by lia. reflexivity.
Qed.

(** X2. The direct reply of the tool branch is streamed in slices of at
    most 50 characters, none empty, whose concatenation is the reply; there
    are as many as the length divided by 50, rounded up, so an empty reply
    gives no event. The loop never raises and leaves the locals alone. *)
Theorem yield_slices_roundtrip (text : str) (st : GenState) :
  exists events,
    yield_slices text st = (events, st, Ok tt) /\
    streamed_text events = text /\
    Forall (fun e => exists d, e = TextEvent d /\ 0 < length d <= 50) events /\
    length events = (length text + 49) / 50.
Proof.
  unfold yield_slices, range.
  destruct (slices_from text (length text) 0 st) as (evs & Hrun & Htext); [lia|].
  destruct (slices_shape text (length text) 0 st) as (evs' & Hrun' & Hall & Hlen);
    [lia|].
  rewrite Hrun in Hrun'. injection Hrun' as <-.
  exists evs. split; [exact Hrun|]. split; [exact Htext|].
  split; [exact Hall|]. rewrite Hlen. f_equal. lia.
Qed.

(* ===================================================================== *)
(** * What the branches can rely on *)
(* ===================================================================== *)

Lemma py_max_fold (l : list Q) (x : Q) :
  let m := fold_left (fun m y => if Qgt_b y m then y else m) l x in
  (m = x \/ m ∈ l) /\ (x <= m)%Q /\ (forall y, y ∈ l -> (y <= m)%Q).
Proof.
  revert x. induction l as [|y l IH]; intros x; simpl.
  - split; [now left|]. split; [apply Qle_refl|].
    intros y H. now apply elem_of_nil in H.
  - destruct (Qgt_b y x) eqn:E; qbool.
    + destruct (IH y) as (Hin & Hle & Hall). split; [|split].
      * right. destruct Hin as [-> | Hin]; [left|now right].
      * lra.
      * intros z Hz. apply elem_of_cons in Hz.
        destruct Hz as [-> | Hz]; [exact Hle|now apply Hall].
    + destruct (IH x) as (Hin & Hle & Hall). split; [|split].
      * destruct Hin as [-> | Hin]; [now left|right; now right].
      * exact Hle.
      * intros z Hz. apply elem_of_cons in Hz.
        destruct Hz as [-> | Hz]; [lra|now apply Hall].
Qed.

Lemma py_max_spec (l : list Q) (m : Q) :
  py_max l = Some m -> m ∈ l /\ forall y, y ∈ l -> (y <= m)%Q.
Proof.
  destruct l as [|x l]; [discriminate|]. simpl. intros [= <-].
  destruct (py_max_fold l x) as (Hin & Hle & Hall). split.
  - destruct Hin as [-> | Hin]; [left|now right].
  - intros y Hy. apply elem_of_cons in Hy.
    destruct Hy as [-> | Hy]; [exact Hle|now apply Hall].
Qed.

Lemma vector_retrieval_scores (env : Env) (use_rag : bool) (current_message : str) :
  let result := vector_retrieval env use_rag current_message in
  match use_rag, retrieve env current_message with
  | false, _ => result = ([], 0%Q)
  | true, Raise _ => result = ([], 0%Q)
  | true, Ok nodes =>
      result.1 = nodes /\
      ((forall node, node ∈ nodes -> node_score node = None) ->
       result.2 = 0%Q) /\
      (forall node, node ∈ nodes -> node_score node <> None ->
         (exists best, best ∈ nodes /\ node_score best = Some result.2) /\
         (forall other s, other ∈ nodes -> node_score other = Some s ->
                          (s <= result.2)%Q))
  end.
Proof.
  intros result. unfold result, vector_retrieval.
  destruct use_rag; [|reflexivity].
  destruct (retrieve env current_message) as [nodes|e]; [|reflexivity].
  destruct nodes as [|n nodes]; cbn [nonempty].
  - split; [reflexivity|]. split; [reflexivity|].
    intros node H. now apply elem_of_nil in H.
  - destruct (py_max (omap node_score (n :: nodes))) as [m|] eqn:E.
    + apply py_max_spec in E. destruct E as [Hin Hall].
      split; [reflexivity|]. split.
      * intros Hnull. exfalso. apply list_elem_of_omap in Hin.
        destruct Hin as (best & Hb & Hs). rewrite (Hnull best Hb) in Hs.
        discriminate.
      * intros node _ _. split.
        -- apply list_elem_of_omap in Hin. destruct Hin as (best & Hb & Hs).
           exists best. auto.
        -- intros other s Ho Hs. apply Hall.
           apply list_elem_of_omap. exists other. auto.
    + split; [reflexivity|]. split; [reflexivity|].
      intros node Hn Hs. exfalso.
      destruct (node_score node) as [s|] eqn:Es; [|congruence].
      assert (Hin : s ∈ omap node_score (n :: nodes))
        by (apply list_elem_of_omap; exists node; auto).
      destruct (omap node_score (n :: nodes)); [now apply elem_of_nil in Hin|].
      discriminate.
Qed.

(** X3. Vector retrieval never aborts the turn. Disabled, or with a failing
    index, it gives no node and score 0. Otherwise it keeps the nodes the
    index returned; the score is the largest of their non-null scores, or 0
    when every score is null. *)
Theorem vector_retrieval_spec (env : Env) (use_rag : bool) (current_message : str) :
  let result := vector_retrieval env use_rag current_message in
  match use_rag, retrieve env current_message with
  | false, _ => result = ([], 0%Q)
  | true, Raise _ => result = ([], 0%Q)
  | true, Ok nodes =>
      result.1 = nodes /\
      ((forall node, node ∈ nodes -> node_score node = None) ->
       result.2 = 0%Q) /\
      (forall node, node ∈ nodes -> node_score node <> None ->
         (exists best, best ∈ nodes /\ node_score best = Some result.2) /\
         (forall other s, other ∈ nodes -> node_score other = Some s ->
                          (s <= result.2)%Q))
  end.
Proof. exact (vector_retrieval_scores env use_rag current_message). Qed.

(** X3 on three scored passages. *)
Lemma vector_retrieval_spec_witness :
  (vector_retrieval Scenario.rag_env true (lit "what is alpha")).2 = (9 # 10)%Q.
Proof.
  pose proof (vector_retrieval_spec Scenario.rag_env true (lit "what is alpha"))
    as H.
  cbv zeta in H.
  change (retrieve Scenario.rag_env (lit "what is alpha"))
    with (Ok (A := list Node)
            [ mkNode (Some (9 # 10)%Q) (lit "alpha")
                (Scenario.page (lit "docs/a.pdf") (lit "1"));
              mkNode (Some (8 # 10)%Q) (lit "beta")
                (Scenario.page (lit "docs/a.pdf") (lit "1"));
              mkNode (Some (7 # 10)%Q) (lit "gamma")
                (Scenario.page (lit "b.pdf") (lit "2")) ]) in H.
  cbv iota in H. destruct H as (_ & _ & H).
  destruct (H (mkNode (Some (9 # 10)%Q) (lit "alpha")
                (Scenario.page (lit "docs/a.pdf") (lit "1"))))
    as [_ Hmax]; [left|discriminate|].
  reflexivity.
Defined.

Lemma routing_fields env embed_model use_rag m :
  let r := routing env embed_model use_rag m in
  (retrieved_nodes r, max_score r) = vector_retrieval env use_rag m /\
  keyword r = keyword_search env m /\
  (tool_match_score r, matched_tool_name r)
  = tool_matching env embed_model (get_mcp_tools env) m.
Proof.
  unfold routing.
  destruct (vector_retrieval env use_rag m) as [nodes ms].
  destruct (tool_matching env embed_model (get_mcp_tools env) m) as [ts name].
  auto.
Qed.

(** X4. The RAG branch never runs on an empty context: when the router
    selects RAG, retrieval was enabled, the index returned at least one
    node, and the retrieval score, at least 0.3, is the score of one of the
    nodes. In particular a turn with retrieval disabled is never answered
    from the knowledge base, whatever the text search found. *)
Theorem rag_mode_has_passages (env : Env) (embed_model : EmbedModel)
    (use_rag : bool) (current_message : str) :
  let r := routing env embed_model use_rag current_message in
  mode_of r = RAG ->
  use_rag = true /\
  ((3 # 10) <= max_score r)%Q /\
  exists node, node ∈ retrieved_nodes r /\ node_score node = Some (max_score r).
Proof.
  intros r Hmode.
  destruct (routing_fields env embed_model use_rag current_message)
    as (Hv & _ & _). fold r in Hv.
  unfold mode_of in Hmode.
  destruct (selected_mode_spec (max_score r) (tool_match_score r)
              (keyword_match (keyword r))) as [[Hrag _] _].
  destruct (Hrag Hmode) as [Hpos _]. clear Hrag.
  assert (Hfloor : ((3 # 10) <= max_score r)%Q).
  { unfold rag_score in Hpos.
    destruct (Qge_b (max_score r) RAG_THRESHOLD) eqn:E1.
    - qbool. unfold RAG_THRESHOLD in E1. lra.
    - destruct (keyword_match (keyword r)); simpl in Hpos; [|lra].
      destruct (Qge_b (max_score r) KEYWORD_FLOOR) eqn:E2; [|lra].
      qbool. exact E2. }
  assert (Hnz : max_score r <> 0%Q) by (intros E; rewrite E in Hfloor; lra).
  pose proof (vector_retrieval_scores env use_rag current_message) as Hspec.
  cbv zeta in Hspec. rewrite <- Hv in Hspec. simpl in Hspec.
  destruct use_rag.
  - split; [reflexivity|]. split; [exact Hfloor|].
    destruct (retrieve env current_message) as [nodes|e].
    + destruct Hspec as (Hn & Hnull & Hsome).
      destruct (decide (Forall (fun n => node_score n = None) nodes))
        as [Hall|Hex].
      * exfalso. apply Hnz, Hnull. now apply Forall_forall.
      * apply not_Forall_Exists in Hex; [|intros n; apply _].
        apply Exists_exists in Hex. destruct Hex as (node & Hin & Hs).
        destruct (Hsome node Hin Hs) as [(best & Hb & Hbs) _].
        exists best. rewrite Hn. auto.
    + exfalso. apply Hnz. now injection Hspec.
  - exfalso. apply Hnz. now injection Hspec.
Qed.

(** X4 on three scored passages. *)
Lemma rag_mode_has_passages_witness :
  exists node,
    node ∈ retrieved_nodes (routing Scenario.rag_env Scenario.no_embedding true
                              (lit "what is alpha")) /\
    node_score node = Some (9 # 10)%Q.
Proof.
  destruct (rag_mode_has_passages Scenario.rag_env Scenario.no_embedding true
              (lit "what is alpha") eq_refl) as (_ & _ & H).
  exact H.
Defined.

Lemma scored_tools_elem env embed_model qe tools t s :
  (t, s) ∈ scored_tools env embed_model qe tools ->
  exists tool v,
    tool ∈ tools /\ t = tool_name tool /\
    get_text_embedding embed_model (tool_desc tool) = Ok v /\
    s = np_cosine env qe v.
Proof.
  induction tools as [|tool rest IH]; simpl; intros H.
  - now apply elem_of_nil in H.
  - destruct (get_text_embedding embed_model (tool_desc tool)) as [v|e] eqn:E;
      [|now apply elem_of_nil in H].
    apply elem_of_cons in H. destruct H as [[= -> ->] | H].
    + exists tool, v. split; [left|]. auto.
    + destruct (IH H) as (tool' & v' & Hin & Hrest).
      exists tool', v'. split; [now right|exact Hrest].
Qed.

(** X5. The tool branch never runs without a matched tool: when the router
    selects TOOL, [matched_tool_name] is the name of a registered tool, the
    tool score is the cosine similarity of the query with the description
    of that tool, and it is at least 0.4. *)
Theorem tool_mode_has_match (env : Env) (embed_model : EmbedModel)
    (use_rag : bool) (current_message : str) :
  let r := routing env embed_model use_rag current_message in
  mode_of r = TOOL ->
  ((4 # 10) <= tool_match_score r)%Q /\
  exists tool query_embedding tool_embedding,
    tool ∈ get_mcp_tools env /\
    matched_tool_name r = Some (tool_name tool) /\
    get_text_embedding embed_model current_message = Ok query_embedding /\
    get_text_embedding embed_model (tool_desc tool) = Ok tool_embedding /\
    tool_match_score r = np_cosine env query_embedding tool_embedding.
Proof.
  intros r Hmode.
  destruct (routing_fields env embed_model use_rag current_message)
    as (_ & _ & Ht). fold r in Ht.
  unfold mode_of in Hmode.
  destruct (selected_mode_spec (max_score r) (tool_match_score r)
              (keyword_match (keyword r))) as (_ & [Htool _] & _).
  destruct (Htool Hmode) as [Hpos _]. clear Htool.
  assert (Hfloor : ((4 # 10) <= tool_match_score r)%Q).
  { unfold tool_score in Hpos.
    destruct (Qge_b (tool_match_score r) TOOL_THRESHOLD) eqn:E; [|lra].
    qbool. exact E. }
  split; [exact Hfloor|].
  assert (Hnz : tool_match_score r <> 0%Q)
    by (intros E; rewrite E in Hfloor; lra).
  unfold tool_matching in Ht.
  destruct (nonempty (get_mcp_tools env));
    [|exfalso; apply Hnz; now injection Ht].
  destruct (get_text_embedding embed_model current_message) as [qe|e];
    [|exfalso; apply Hnz; now injection Ht].
  destruct (tool_match_loop_spec env embed_model qe (get_mcp_tools env) 0%Q None)
    as (_ & _ & Hbest).
  cbv zeta in Hbest. rewrite <- Ht in Hbest. simpl in Hbest.
  destruct Hbest as [[= E _] | (t & Hin & Hname & _)];
    [exfalso; now apply Hnz|].
  apply scored_tools_elem in Hin.
  destruct Hin as (tool & v & Htool & -> & Hv & Hs).
  exists tool, qe, v. auto.
Qed.

(** X5 on one registered tool whose description matches. *)
Lemma tool_mode_has_match_witness :
  matched_tool_name (routing Scenario.tool_env Scenario.unit_embedding false
                       (lit "weather in Paris"))
  = Some (lit "get_weather").
Proof.
  destruct (tool_mode_has_match Scenario.tool_env Scenario.unit_embedding false
              (lit "weather in Paris") eq_refl)
    as (_ & tool & qe & v & Hin & Hname & _).
  apply list_elem_of_singleton in Hin. subst tool. exact Hname.
Defined.

(* ===================================================================== *)
(** * The text search *)
(* ===================================================================== *)

(** X6. The text search never aborts the turn and its three outputs agree:
    [keyword_match] holds exactly when [keyword_results] is not empty, there
    are at most three rows, and an exact match implies that every row
    matched the ILIKE pattern made of the whole trimmed query (the query
    goes into the pattern as it is, so what ILIKE reads as a wildcard in it
    is one). A query of fewer than three characters once trimmed, or a
    failing search backend, gives no match. *)
Theorem keyword_search_invariants (env : Env) (current_message : str) :
  let ks := keyword_search env current_message in
  keyword_match ks = nonempty (keyword_results ks) /\
  length (keyword_results ks) <= 3 /\
  (is_exact_match ks = true ->
   keyword_match ks = true /\
   Forall (fun row => ilike env (strip current_message) (row_text row) = true)
          (keyword_results ks)) /\
  (length (strip current_message) <= 2 -> ks = no_keyword_match) /\
  (forall e, data_document_embeddings env = Raise e -> ks = no_keyword_match).
Proof.
  intros ks. unfold ks, keyword_search.
  assert (Hnone : keyword_match no_keyword_match
                  = nonempty (keyword_results no_keyword_match) /\
                  length (keyword_results no_keyword_match) <= 3 /\
                  (is_exact_match no_keyword_match = true ->
                   keyword_match no_keyword_match = true /\
                   Forall (fun row => ilike env (strip current_message)
                                        (row_text row) = true)
                          (keyword_results no_keyword_match))).
  { simpl. split; [reflexivity|]. split; [lia|]. discriminate. }
  destruct (truthy (strip current_message)) eqn:Ht; simpl.
  2:{ destruct Hnone as (H1 & H2 & H3). auto 6. }
  destruct (2 <? length (strip current_message)) eqn:Hlen; simpl.
  2:{ destruct Hnone as (H1 & H2 & H3). auto 6. }
  apply Nat.ltb_lt in Hlen.
  destruct (execute env [strip current_message]) as [rows|e] eqn:Hex.
  - assert (Hfail : forall e, data_document_embeddings env <> Raise e).
    { intros e He. unfold execute in Hex. rewrite He in Hex. discriminate. }
    destruct (nonempty rows) eqn:Hrows.
    + simpl. rewrite Hrows.
      destruct (execute_rows_match env _ rows Hex) as [Hl Hall].
      split; [reflexivity|]. split; [exact Hl|]. split.
      * intros _. split; [reflexivity|].
        eapply Forall_impl; [exact Hall|]. intros row Hrow. apply Hrow. left.
      * split; [lia|]. intros e He. now apply Hfail in He.
    + destruct (fuzzy_search env (strip current_message))
        as [[rows'|e]|] eqn:Hfz.
      * destruct (nonempty rows') eqn:Hrows'.
        -- simpl. rewrite Hrows'.
           unfold fuzzy_search in Hfz.
           destruct (4 <=? _); [|discriminate].
           destruct (2 <=? _); [|discriminate].
           injection Hfz as Hfz.
           destruct (execute_rows_match env _ rows' Hfz) as [Hl _].
           split; [reflexivity|]. split; [exact Hl|].
           split; [discriminate|].
           split; [lia|]. intros e He. now apply Hfail in He.
        -- destruct Hnone as (H1 & H2 & H3).
           split; [exact H1|]. split; [exact H2|]. split; [exact H3|].
           split; [reflexivity|]. reflexivity.
      * destruct Hnone as (H1 & H2 & H3). auto 6.
      * destruct Hnone as (H1 & H2 & H3). auto 6.
  - destruct Hnone as (H1 & H2 & H3). auto 6.
Qed.

(** X6 on a table holding the query of the example in one row. *)
Lemma keyword_search_invariants_witness :
  keyword_search Scenario.corpus_env (lit "no") = no_keyword_match /\
  keyword_match (keyword_search Scenario.corpus_env (lit " 中文检索 ")) = true.
Proof.
  split.
  - destruct (keyword_search_invariants Scenario.corpus_env (lit "no"))
      as (_ & _ & _ & H & _).
    apply H. vm_compute. lia.
  - destruct (keyword_search_invariants Scenario.corpus_env (lit " 中文检索 "))
      as (_ & _ & H & _).
    apply H. reflexivity.
Defined.

(* ===================================================================== *)
(** * Source records *)
(* ===================================================================== *)

Lemma contains_slash_app (a b : str) :
  contains_slash (a ++ b) = contains_slash a || contains_slash b.
Proof. unfold contains_slash. apply existsb_app. Qed.

Lemma last_segment_from_spec (s acc pre : str) :
  acc = pre ++ s -> contains_slash pre = false ->
  contains_slash (last_segment_from acc s) = false /\
  last_segment_from acc s `suffix_of` acc.
Proof.
  revert acc pre. induction s as [|c s IH]; intros acc pre Hacc Hpre; simpl.
  - subst acc. rewrite app_nil_r. split; [exact Hpre|reflexivity].
  - destruct (c =? slash)%N eqn:E.
    + destruct (IH s [] eq_refl eq_refl) as [Hno Hsuf]. split; [exact Hno|].
      etransitivity; [exact Hsuf|]. subst acc.
      exists (pre ++ [c]). now rewrite <- app_assoc.
    + apply (IH acc (pre ++ [c])).
      * subst acc. now rewrite <- app_assoc.
      * rewrite contains_slash_app, Hpre. unfold contains_slash.
        cbn [existsb orb]. rewrite N.eqb_sym, E. reflexivity.
Qed.

Lemma base_name_spec (file_name : str) :
  contains_slash (base_name file_name) = false /\
  base_name file_name `suffix_of` file_name /\
  (contains_slash file_name = false -> base_name file_name = file_name).
Proof.
  unfold base_name. destruct (contains_slash file_name) eqn:E.
  - destruct (last_segment_from_spec file_name file_name [] eq_refl eq_refl)
      as [Hno Hsuf].
    split; [exact Hno|]. split; [exact Hsuf|discriminate].
  - split; [exact E|]. split; [reflexivity|reflexivity].
Qed.

Lemma last_segment_from_split (s acc pre : str) :
  acc = pre ++ s ->
  exists prefix,
    acc = prefix ++ last_segment_from acc s /\
    (prefix = [] \/ exists p, prefix = p ++ [slash]).
Proof.
  revert acc pre. induction s as [|c s IH]; intros acc pre Hacc;
    cbn [last_segment_from].
  - exists []. split; [reflexivity|now left].
  - destruct (c =? slash)%N eqn:E.
    + apply N.eqb_eq in E. subst c.
      destruct (IH s [] eq_refl) as (prefix & Hs & Hp).
      exists (pre ++ slash :: prefix). split.
      * rewrite <- app_assoc. cbn [app]. now rewrite <- Hs.
      * right. destruct Hp as [-> | (p & ->)].
        -- exists pre. reflexivity.
        -- exists (pre ++ slash :: p). now rewrite <- app_assoc.
    + apply (IH acc (pre ++ [c])). now rewrite <- app_assoc.
Qed.

Lemma base_name_after_last_slash (name : str) :
  after_last_slash name (base_name name) /\
  (contains_slash name = false -> base_name name = name).
Proof.
  destruct (base_name_spec name) as (Hno & _ & Hwhole).
  split; [|exact Hwhole]. split; [exact Hno|].
  unfold base_name. destruct (contains_slash name).
  - apply (last_segment_from_split name name []). reflexivity.
  - exists []. split; [reflexivity|now left].
Qed.

Lemma after_last_slash_longer (p1 p2 f1 f2 l : str) :
  p1 = p2 ++ l -> f2 = l ++ f1 ->
  contains_slash f2 = false ->
  (p1 = [] \/ exists p, p1 = p ++ [slash]) ->
  f1 = f2.
Proof.
  intros Hp Hf Hno Hend. destruct l as [|x l _] using rev_ind.
  - now rewrite Hf.
  - exfalso. destruct Hend as [-> | (p & ->)].
    + symmetry in Hp. apply app_eq_nil in Hp. destruct Hp as [_ Hp].
      apply app_eq_nil in Hp. destruct Hp as [_ Hp]. discriminate.
    + rewrite app_assoc in Hp. apply app_inj_tail in Hp. destruct Hp as [_ <-].
      rewrite Hf, !contains_slash_app in Hno.
      unfold contains_slash at 2 in Hno. cbn [existsb] in Hno.
      rewrite N.eqb_refl in Hno. cbn [orb] in Hno.
      rewrite orb_true_r in Hno. discriminate.
Qed.

Lemma after_last_slash_unique (name f g : str) :
  after_last_slash name f -> after_last_slash name g -> f = g.
Proof.
  intros (Hf & p1 & H1 & E1) (Hg & p2 & H2 & E2).
  rewrite H1 in H2. apply List.app_eq_app in H2.
  destruct H2 as (l & [[Hp Hs] | [Hp Hs]]).
  - exact (after_last_slash_longer p1 p2 f g l Hp Hs Hg E1).
  - symmetry. exact (after_last_slash_longer p2 p1 g f l Hp Hs Hf E2).
Qed.

(** X7. A document record never exposes a directory. Every record built
    for a passage is the record of the metadata of a text-search row or of
    a retrieved node, and its file name holds no slash. The file name of
    such a record is what follows the last slash of the name found in the
    metadata ([file_name], else [title] for a text-search row, else the
    placeholder), and the whole of that name when it has no slash; there is
    one text that follows the last slash of a name. *)
Theorem source_names_have_no_path (env : Env) (r : Routing) :
  Forall (fun s =>
            (exists f p, s = DocSource f p /\ contains_slash f = false) /\
            (exists meta, s = keyword_source meta \/ s = node_source meta))
         (passage_records env r) /\
  (forall meta,
     let name := py_or (meta_file_name meta)
                       (py_or (meta_title meta) unknown_file) in
     exists f,
       keyword_source meta = DocSource f (meta_page_label meta) /\
       after_last_slash name f /\
       (contains_slash name = false -> f = name)) /\
  (forall meta,
     let name := py_or (meta_file_name meta) unknown_file in
     exists f,
       node_source meta = DocSource f (meta_page_label meta) /\
       after_last_slash name f /\
       (contains_slash name = false -> f = name)) /\
  (forall name f g,
     after_last_slash name f -> after_last_slash name g -> f = g).
Proof.
  split; [|split; [|split]].
  - unfold passage_records.
    destruct (keyword_match (keyword r) && nonempty (keyword_results (keyword r))).
    + apply Forall_forall. intros s Hs. apply list_elem_of_omap in Hs.
      destruct Hs as (row & _ & Hs).
      destruct (resolve_meta env (row_metadata row)) as [meta|]; [|discriminate].
      injection Hs as <-. split.
      * unfold keyword_source. eexists _, _.
        split; [reflexivity|]. apply base_name_spec.
      * exists meta. now left.
    + apply Forall_forall. intros s Hs. apply list_elem_of_In in Hs.
      apply List.in_map_iff in Hs. destruct Hs as (node & <- & _). split.
      * unfold node_source. eexists _, _.
        split; [reflexivity|]. apply base_name_spec.
      * exists (node_metadata node). now right.
  - intros meta name. unfold keyword_source. eexists. split; [reflexivity|].
    apply base_name_after_last_slash.
  - intros meta name. unfold node_source. eexists. split; [reflexivity|].
    apply base_name_after_last_slash.
  - exact after_last_slash_unique.
Qed.

(* ===================================================================== *)
(** * The fallback of the tool branch *)
(* ===================================================================== *)

Lemma for_each_on_chunk_ok (cs : list (option str)) (st : GenState) :
  (for_each cs on_chunk st).2 = Ok tt.
Proof.
  revert st. induction cs as [|c cs IH]; intros st; simpl; [reflexivity|].
  unfold bind.
  assert (Hc : (on_chunk c st).2 = Ok tt).
  { destruct c as [d|]; simpl; [|reflexivity]. destruct (truthy d); reflexivity. }
  destruct (on_chunk c st) as [[evs st1] res]. simpl in Hc. subst res.
  specialize (IH st1). destruct (for_each cs on_chunk st1) as [[evs' st2] res].
  exact IH.
Qed.

Lemma for_chunks_result (s : Stream) (st : GenState) :
  (for_chunks s st).2
  = match ending s with EndOk => Ok tt | EndRaise e => Raise e end.
Proof.
  unfold for_chunks, bind.
  pose proof (for_each_on_chunk_ok (chunks s) st) as H.
  destruct (for_each (chunks s) on_chunk st) as [[evs st1] res].
  simpl in H. subst res. destruct (ending s); reflexivity.
Qed.

(** X8. The tool branch degrades to plain conversation. When
    [chat_with_tools] raises, the branch is exactly the fallback: the reply
    to the original query and history under the short system prompt, with
    nothing recorded as a source. And whatever fails inside the branch, it
    raises only if the stream of that fallback raises. *)
Theorem tool_branch_falls_back (env : Env) (l : LLM) (mcp_tools : list Tool)
    (current_message : str) (history : list LlamaChatMessage) (st : GenState) :
  let fallback_messages :=
    [system_msg (lit "你是助手。")] ++ history ++ [user_msg current_message] in
  ((exists e, chat_with_tools l mcp_tools current_message
                (system_msg tool_system_prompt :: history) = Raise e) ->
   tool_branch env (Some l) mcp_tools current_message history st
   = for_chunks (stream_chat l fallback_messages) st) /\
  (ending (stream_chat l fallback_messages) = EndOk ->
   (tool_branch env (Some l) mcp_tools current_message history st).2 = Ok tt).
Proof.
  intros fallback_messages. split.
  - intros [e He]. unfold tool_branch, try_except, call_with_tools.
    rewrite He. unfold bind, lift. cbn beta iota.
    unfold tool_fallback, stream_reply. fold fallback_messages.
    destruct (for_chunks _ st) as [[evs st1] res]. reflexivity.
  - intros Hend. unfold tool_branch, try_except.
    match goal with
    | |- context [match ?body st with _ => _ end] =>
        destruct (body st) as [[evs st1] [[]|e]]; [reflexivity|]
    end.
    unfold tool_fallback, stream_reply. fold fallback_messages.
    pose proof (for_chunks_result (stream_chat l fallback_messages) st1) as H.
    rewrite Hend in H.
    destruct (for_chunks _ st1) as [[evs' st2] res]. exact H.
Qed.

(** X8 on a backend without tool calling whose stream ends well. *)
Lemma tool_branch_falls_back_witness :
  tool_branch (Scenario.chat_env Scenario.hello) (Some (Scenario.llm_of Scenario.hello))
              [Scenario.get_weather] (lit "weather in Paris") [] initial_state
  = ([TextEvent (lit "Hel"); TextEvent (lit "lo")],
     mkGenState (lit "Hello") [], Ok tt).
Proof.
  destruct (tool_branch_falls_back (Scenario.chat_env Scenario.hello)
              (Scenario.llm_of Scenario.hello) [Scenario.get_weather]
              (lit "weather in Paris") [] initial_state) as [H _].
  rewrite H; [reflexivity|]. eexists. reflexivity.
Defined.

(* ===================================================================== *)
(** * The history handed to the generator *)
(* ===================================================================== *)

(** X9. [get_chat_history] returns nothing for an empty identifier and
    raises on a malformed one. Otherwise it returns at most 20 entries, with
    the contents of the most recent rows in ascending order, and no entry
    carries the stored role "ai": it is translated to "assistant", other
    roles are kept. *)
Theorem get_chat_history_spec (env : Env) (db : DB) (session_id : str) :
  match get_chat_history env db session_id with
  | Ok history =>
      length history <= 20 /\
      Forall (fun m => role m <> lit "ai") history /\
      (session_id = [] /\ history = [] \/
       exists id,
         parse_uuid env session_id = Some id /\
         List.map content history = List.map cm_content (recent_rows db id) /\
         List.map role history
         = List.map (fun m => if str_eqb (cm_role m) (lit "ai")
                              then lit "assistant" else cm_role m)
                    (recent_rows db id))
  | Raise _ => session_id <> [] /\ parse_uuid env session_id = None
  end.
Proof.
  unfold get_chat_history. destruct session_id as [|c sid]; simpl.
  - split; [lia|]. split; [constructor|]. left. auto.
  - destruct (parse_uuid env (c :: sid)) as [id|]; [|split; congruence].
    split; [|split].
    + rewrite List.length_map, recent_rows_length. lia.
    + apply Forall_forall. intros m Hm. apply list_elem_of_In in Hm.
      apply List.in_map_iff in Hm. destruct Hm as (row & <- & _).
      unfold to_llama, str_eqb. simpl. case_bool_decide as E; [|exact E].
      intros H. vm_compute in H. discriminate H.
    + right. exists id. split; [reflexivity|].
      rewrite !List.map_map. split; reflexivity.
Qed.

Lemma sorted_head_newest (old : list ChatMessage) (m : ChatMessage) :
  (forall o, o ∈ old -> (cm_created_at o < cm_created_at m)%Z) ->
  exists rest,
    merge_sort created_desc (old ++ [m]) = m :: rest /\
    rest ≡ₚ old /\ StronglySorted created_desc rest.
Proof.
  intros Hnew.
  pose proof (StronglySorted_merge_sort created_desc (old ++ [m])) as Hs.
  pose proof (merge_sort_Permutation created_desc (old ++ [m])) as Hp.
  destruct (merge_sort created_desc (old ++ [m])) as [|h rest].
  { apply Permutation_nil_l in Hp. destruct old; discriminate. }
  apply StronglySorted_cons in Hs. destruct Hs as [Hall Hs].
  assert (Hh : h = m).
  { assert (Hin : h ∈ old ++ [m]) by (rewrite <- Hp; left).
    apply elem_of_app in Hin. destruct Hin as [Hin | Hin].
    - exfalso. apply Hnew in Hin.
      assert (Hm : m ∈ h :: rest) by (rewrite Hp, elem_of_app; right; left).
      apply elem_of_cons in Hm. destruct Hm as [-> | Hm]; [lia|].
      rewrite Forall_forall in Hall. specialize (Hall m Hm).
      unfold created_desc in Hall. lia.
    - now apply list_elem_of_singleton in Hin. }
  subst h. exists rest. split; [reflexivity|]. split; [|exact Hs].
  apply (Permutation_cons_inv (a := m)).
  rewrite Hp. symmetry. apply Permutation_cons_append.
Qed.

Lemma session_messages_create db m :
  session_messages (create_message m db) (cm_session m)
  = session_messages db (cm_session m) ++ [m].
Proof.
  unfold session_messages, create_message. simpl.
  rewrite List.filter_app. simpl. now rewrite N.eqb_refl.
Qed.

(** X10. Once the user message is stored at a time later than every
    message of its session, the history the generator receives holds only
    earlier messages of that session, in ascending order, and at most 19 of
    them: the stored message takes one of the 20 places before it is
    removed. *)
Theorem history_window (env : Env) (db : DB) (session_id user_text : str)
    (id : UUID) :
  session_id <> [] ->
  parse_uuid env session_id = Some id ->
  (forall o, o ∈ session_messages db id -> (cm_created_at o < now env)%Z) ->
  exists earlier,
    load_history env (create_message (user_message env id user_text) db)
                 session_id user_text
    = Ok (List.map to_llama earlier) /\
    length earlier = Nat.min (length (session_messages db id)) 19 /\
    (forall m, m ∈ earlier -> m ∈ session_messages db id) /\
    StronglySorted created_asc earlier.
Proof.
  intros Hsid Hparse Hnew.
  set (um := user_message env id user_text).
  destruct (sorted_head_newest (session_messages db id) um Hnew)
    as (rest & Hsorted & Hperm & Hrest).
  assert (Hrows : recent_rows (create_message um db) id
                  = reverse (take 19 rest) ++ [um]).
  { unfold recent_rows.
    change id with (cm_session um) at 1.
    rewrite session_messages_create. simpl. rewrite Hsorted. simpl.
    now rewrite reverse_cons. }
  exists (reverse (take 19 rest)). split; [|split; [|split]].
  - unfold load_history, get_chat_history. rewrite Hparse.
    assert (Ht : truthy session_id = true)
      by (destruct session_id; [congruence|reflexivity]).
    rewrite Ht, Hrows, pop_submitted_snoc.
    rewrite bool_decide_eq_true_2 by (split; reflexivity). reflexivity.
  - rewrite length_reverse, length_take, (Permutation_length Hperm). lia.
  - intros m Hm. rewrite elem_of_reverse in Hm.
    apply elem_of_take in Hm. destruct Hm as (i & Hm & _).
    apply list_elem_of_lookup_2 in Hm. now rewrite <- Hperm.
  - apply Sorted_StronglySorted; [apply _|].
    apply (Sorted_reverse created_desc).
    apply StronglySorted_Sorted.
    rewrite <- (take_drop 19 rest) in Hrest.
    apply StronglySorted_app in Hrest. apply Hrest.
Qed.

(** X10 on a session of 25 messages stored at times 1 to 25. *)
Lemma history_window_witness :
  exists earlier,
    load_history (Scenario.chat_env Scenario.hello)
      (create_message (user_message (Scenario.chat_env Scenario.hello)
                         Scenario.a1 (lit "again")) Scenario.long_db)
      Scenario.sid (lit "again")
    = Ok (List.map to_llama earlier) /\
    length earlier = 19.
Proof.
  destruct (history_window (Scenario.chat_env Scenario.hello) Scenario.long_db
              Scenario.sid (lit "again") Scenario.a1 ltac:(discriminate) eq_refl)
    as (earlier & Hload & Hlen & _).
  - apply Forall_forall. vm_compute.
    repeat (constructor; [reflexivity|]). constructor.
  - exists earlier. split; [exact Hload|]. rewrite Hlen. reflexivity.
Defined.

(* ===================================================================== *)
(** * The turn *)
(* ===================================================================== *)


(** X11. Step 1 of a turn always leaves a session to run on and touches no
    other session and no message. With a well-formed identifier it runs on
    that session: an existing one keeps its title and its owner (whoever
    the caller is), an unowned one takes the caller as owner, an unknown
    one is created under that identifier. Without an identifier, or with an
    empty or malformed one, it runs on a session created under a minted
    identifier; a created session is titled "New Chat" and owned by the
    caller. *)
Theorem resolve_session_spec (env : Env) (db : DB) (current_user : option User)
    (session_id : option str) :
  db_sessions db !! uuid4 env = None ->
  let r := resolve_session env db current_user session_id in
  (exists s,
     db_sessions (res_db r) !! res_id r = Some s /\
     match db_sessions db !! res_id r with
     | Some old =>
         cs_title s = cs_title old /\
         cs_user s = match cs_user old with
                     | Some owner => Some owner
                     | None => current_user
                     end
     | None => cs_title s = new_chat /\ cs_user s = current_user
     end) /\
  (forall id, id <> res_id r ->
              db_sessions (res_db r) !! id = db_sessions db !! id) /\
  db_messages (res_db r) = db_messages db /\
  match session_id with
  | Some (c :: sid) =>
      match parse_uuid env (c :: sid) with
      | Some id => res_id r = id /\ res_session_id r = c :: sid
      | None => res_id r = uuid4 env /\
                res_session_id r = uuid_str env (uuid4 env)
      end
  | _ => res_id r = uuid4 env /\ res_session_id r = uuid_str env (uuid4 env)
  end.
Proof.
  intros Hfresh r.
  assert (Hmint : forall r',
            r' = mint_session env db current_user ->
            (exists s,
               db_sessions (res_db r') !! res_id r' = Some s /\
               match db_sessions db !! res_id r' with
               | Some old =>
                   cs_title s = cs_title old /\
                   cs_user s = match cs_user old with
                               | Some owner => Some owner
                               | None => current_user
                               end
               | None => cs_title s = new_chat /\ cs_user s = current_user
               end) /\
            (forall id, id <> res_id r' ->
                        db_sessions (res_db r') !! id = db_sessions db !! id) /\
            db_messages (res_db r') = db_messages db /\
            res_id r' = uuid4 env /\
            res_session_id r' = uuid_str env (uuid4 env)).
  { intros r' ->. unfold mint_session, create_session. simpl.
    split; [|split; [|auto]].
    - eexists. rewrite lookup_insert_eq, Hfresh. split; [reflexivity|]. auto.
    - intros id Hid. now rewrite lookup_insert_ne. }
  unfold r, resolve_session.
  destruct session_id as [[|c sid]|]; try (apply Hmint; reflexivity).
  cbn [truthy].
  destruct (parse_uuid env (c :: sid)) as [id|]; [|apply Hmint; reflexivity].
  destruct (db_sessions db !! id) as [old|] eqn:E.
  - destruct (negb (bool_decide (is_Some (cs_user old)))
              && bool_decide (is_Some current_user)) eqn:B; simpl.
    + apply andb_true_iff in B. destruct B as [B1 B2].
      apply negb_true_iff, bool_decide_eq_false in B1.
      rewrite E, lookup_insert_eq. split; [|split; [|auto]].
      * eexists. split; [reflexivity|]. simpl. split; [reflexivity|].
        destruct (cs_user old); [exfalso; apply B1; eauto|reflexivity].
      * intros id' Hid. now rewrite lookup_insert_ne.
    + rewrite E. split; [|auto]. exists old. split; [reflexivity|].
      split; [reflexivity|].
      destruct (cs_user old) as [owner|] eqn:Eo; [reflexivity|].
      apply andb_false_iff in B. destruct B as [B | B].
      * apply negb_false_iff, bool_decide_eq_true in B.
        destruct B as [x Hx]. discriminate.
      * apply bool_decide_eq_false in B.
        destruct current_user; [exfalso; apply B; eauto|reflexivity].
  - unfold create_session. simpl. rewrite E, lookup_insert_eq.
    split; [|split; [|auto]].
    + eexists. split; [reflexivity|]. auto.
    + intros id' Hid. now rewrite lookup_insert_ne.
Qed.

(** X11 on an owned session continued by another user. *)
Lemma resolve_session_spec_witness :
  cs_user <$> db_sessions (res_db (resolve_session (Scenario.chat_env Scenario.hello)
                                     Scenario.owned_db (Some 8%N)
                                     (Some Scenario.sid))) !! Scenario.a1
  = Some (Some 7%N).
Proof.
  destruct (resolve_session_spec (Scenario.chat_env Scenario.hello)
              Scenario.owned_db (Some 8%N) (Some Scenario.sid) eq_refl)
    as ((s & Hs & Hold) & _).
  assert (Hid : res_id (resolve_session (Scenario.chat_env Scenario.hello)
                          Scenario.owned_db (Some 8%N) (Some Scenario.sid))
                = Scenario.a1) by (vm_compute; reflexivity).
  rewrite Hid in Hs, Hold. rewrite Hs. simpl. f_equal.
  change (db_sessions Scenario.owned_db !! Scenario.a1)
    with (Some (mkChatSession (Some 7%N) (lit "Trip") true 1%Z 1%Z)) in Hold.
  apply Hold.
Defined.

(** X12. A request without user text (no message, or an empty last one)
    starts no generation and stores no message, but it is not without
    effect: step 1 has run. The session the request named is kept, with the
    caller as owner when it had none; a session the table did not have is
    created, and a request without identifier leaves one more session in
    the table, titled "New Chat" and owned by the caller, to which no
    message is added. *)
Theorem turn_without_text (env : Env) (db : DB) (current_user : option User)
    (payload : ChatRequest) :
  db_sessions db !! uuid4 env = None ->
  user_text payload = [] ->
  let id := res_id (resolve_session env db current_user
                      (req_session_id payload)) in
  exists db',
    chat_stream env db current_user payload = NoUserMessage db' /\
    db_messages db' = db_messages db /\
    db_sessions db' !! id
    = Some (session_after_step1 env current_user (db_sessions db !! id)) /\
    (forall other, other <> id ->
                   db_sessions db' !! other = db_sessions db !! other) /\
    (req_session_id payload = None ->
     db_sessions db'
     = <[uuid4 env := mkChatSession current_user new_chat true (now env) (now env)]>
         (db_sessions db) /\
     session_messages db' (uuid4 env) = session_messages db (uuid4 env)).
Proof.
  intros Hfresh Htext id.
  destruct (resolve_session_effect env db current_user (req_session_id payload)
              Hfresh) as [Hself Hothers].
  exists (res_db (resolve_session env db current_user (req_session_id payload))).
  split; [|split; [|split; [|split]]].
  - unfold chat_stream. rewrite Htext. reflexivity.
  - apply resolve_session_messages.
  - exact Hself.
  - exact Hothers.
  - intros Hnone. rewrite Hnone. split; [reflexivity|].
    unfold session_messages. reflexivity.
Qed.

(** X12 on an empty request of user 7 that names no session. *)
Lemma turn_without_text_witness :
  exists db',
    chat_stream (Scenario.chat_env Scenario.hello) Scenario.empty_db (Some 7%N)
                (mkChatRequest [] None None)
    = NoUserMessage db' /\
    db_sessions db' !! 255%N
    = Some (mkChatSession (Some 7%N) new_chat true 1000%Z 1000%Z).
Proof.
  destruct (turn_without_text (Scenario.chat_env Scenario.hello)
              Scenario.empty_db (Some 7%N) (mkChatRequest [] None None)
              eq_refl eq_refl) as (db' & Hturn & _ & Hsession & _).
  exists db'. split; [exact Hturn|exact Hsession].
Defined.




(* ===================================================================== *)
(** * The session endpoints *)
(* ===================================================================== *)

Lemma startswith_spec (s prefix : str) :
  startswith s prefix = true <-> exists rest, s = prefix ++ rest.
Proof.
  revert s. induction prefix as [|p prefix IH]; intros s; simpl.
  - split; [eauto|]. intros _. destruct s; reflexivity.
  - destruct s as [|c s].
    + split; [discriminate|]. intros [rest H]. discriminate.
    + simpl. rewrite andb_true_iff, N.eqb_eq, IH. split.
      * intros [-> [rest ->]]. eauto.
      * intros [rest [= -> ->]]. eauto.
Qed.

(** X14. A request is authenticated exactly when its Authorization header
    is "Bearer " followed by a token that decodes, under the secret and
    before its expiry, to the identifier of an existing user. A missing
    header, another scheme or letter case, an expired or invalid token, a
    payload without user or an unknown user all give an anonymous request,
    never an error. *)
Theorem get_current_user_spec (jwt_decode : str -> JwtResult) (users : gset User)
    (authorization : option str) (user : User) :
  get_current_user_from_request jwt_decode users authorization = Some user <->
  exists token,
    authorization = Some (lit "Bearer " ++ token) /\
    jwt_decode token = JwtPayload (Some user) /\
    user ∈ users.
Proof.
  unfold get_current_user_from_request, decode_token.
  destruct authorization as [h|]; cbn [from_option id].
  2:{ change (startswith [] (lit "Bearer ")) with false. cbn [negb].
      split; [discriminate|]. intros (token & H & _). discriminate. }
  destruct (startswith h (lit "Bearer ")) eqn:E; cbn [negb].
  - apply startswith_spec in E. destruct E as [token ->].
    rewrite drop_app_length' by reflexivity.
    split.
    + destruct (jwt_decode token) as [[id|]| |] eqn:Hd; try discriminate.
      case_bool_decide as Hu; [|discriminate]. intros [= <-].
      exists token. auto.
    + intros (token' & [= Ht] & Hd & Hu).
      subst token'. rewrite Hd. now rewrite bool_decide_eq_true_2.
  - split; [discriminate|]. intros (token & Ht & _).
    assert (Hh : h = lit "Bearer " ++ token) by congruence.
    assert (H : startswith h (lit "Bearer ") = true)
      by (apply startswith_spec; eauto).
    congruence.
Qed.

(** X15. Deleting a session either fails and changes nothing (malformed
    identifier, or a session owned by a user other than the authenticated
    caller), or succeeds: then the session and every message of it are
    gone, the count returned is the number of its messages, and the other
    sessions and their messages are untouched. It succeeds for an unknown
    identifier, with count 0, and for an unauthenticated caller. *)
Theorem delete_session_spec (env : Env) (db : DB) (current_user : option User)
    (session_id : str) :
  match delete_session env db current_user session_id with
  | (DeleteOk n, db') =>
      exists id,
        parse_uuid env session_id = Some id /\
        permission_denied (db_sessions db !! id) current_user = false /\
        n = length (session_messages db id) /\
        db_sessions db' !! id = None /\
        session_messages db' id = [] /\
        forall other, other <> id ->
          db_sessions db' !! other = db_sessions db !! other /\
          session_messages db' other = session_messages db other
  | (DeleteError _, db') =>
      db' = db /\
      (parse_uuid env session_id = None \/
       exists id session owner caller,
         parse_uuid env session_id = Some id /\
         db_sessions db !! id = Some session /\
         cs_user session = Some owner /\ current_user = Some caller /\
         owner <> caller)
  end.
Proof.
  unfold delete_session.
  destruct (parse_uuid env session_id) as [id|]; [|auto].
  destruct (permission_denied (db_sessions db !! id) current_user) eqn:E.
  - split; [reflexivity|]. right. unfold permission_denied in E.
    destruct (db_sessions db !! id) as [s|] eqn:Es; [|discriminate].
    destruct (cs_user s) as [owner|] eqn:Eo; [|discriminate].
    destruct current_user as [caller|]; [|discriminate].
    apply negb_true_iff in E. apply N.eqb_neq in E.
    exists id, s, owner, caller. auto.
  - exists id. split; [reflexivity|]. split; [exact E|].
    split; [reflexivity|]. simpl. split; [apply lookup_delete_eq|]. split.
    + unfold session_messages. simpl.
      induction (db_messages db) as [|m l IH]; [reflexivity|]. simpl.
      destruct (cm_session m =? id)%N eqn:Em; simpl; [exact IH|].
      now rewrite Em.
    + intros other Hother. split; [now apply lookup_delete_ne|].
      unfold session_messages. simpl.
      induction (db_messages db) as [|m l IH]; [reflexivity|]. simpl.
      destruct (cm_session m =? id)%N eqn:Em; simpl.
      * apply N.eqb_eq in Em.
        assert (Eo : (cm_session m =? other)%N = false)
          by (apply N.eqb_neq; congruence).
        now rewrite Eo.
      * destruct (cm_session m =? other)%N; [now rewrite IH|exact IH].
Qed.

(** X15 on an owned session: another user is refused, the owner deletes. *)
Lemma delete_session_spec_witness :
  (delete_session (Scenario.chat_env Scenario.hello) Scenario.owned_db
                  (Some 8%N) Scenario.sid).2 = Scenario.owned_db /\
  (delete_session (Scenario.chat_env Scenario.hello) Scenario.owned_db
                  (Some 7%N) Scenario.sid).1 = DeleteOk 2.
Proof.
  split.
  - pose proof (delete_session_spec (Scenario.chat_env Scenario.hello)
                  Scenario.owned_db (Some 8%N) Scenario.sid) as H.
    destruct (delete_session _ _ _ _) as [[n|e] d] eqn:E;
      [vm_compute in E; discriminate E|].
    destruct H as [-> _]. reflexivity.
  - pose proof (delete_session_spec (Scenario.chat_env Scenario.hello)
                  Scenario.owned_db (Some 7%N) Scenario.sid) as H.
    destruct (delete_session _ _ _ _) as [[n|e] d] eqn:E;
      [|vm_compute in E; discriminate E].
    destruct H as (id & Hid & _ & -> & _). injection Hid as <-. reflexivity.
Defined.

(** X16. After a successful deletion the identifier designates nothing: a
    history fetch returns nothing for every caller, and the history loaded
    for a later turn is empty. *)
Theorem deleted_session_is_gone (env : Env) (db db' : DB)
    (current_user : option User) (session_id : str) (n : nat) :
  delete_session env db current_user session_id = (DeleteOk n, db') ->
  (forall caller, get_history env db' caller session_id = []) /\
  (forall user_text, load_history env db' session_id user_text = Ok []).
Proof.
  unfold delete_session.
  destruct (parse_uuid env session_id) as [id|] eqn:Hp; [|discriminate].
  destruct (permission_denied _ _); [discriminate|].
  intros [= _ <-].
  assert (Hnone : session_messages
                    (mkDB (delete id (db_sessions db))
                          (List.filter (fun m => negb (cm_session m =? id)%N)
                                       (db_messages db))) id = []).
  { unfold session_messages. simpl.
    induction (db_messages db) as [|m l IH]; [reflexivity|]. simpl.
    destruct (cm_session m =? id)%N eqn:Em; simpl; [exact IH|].
    now rewrite Em. }
  split.
  - intros caller. unfold get_history. rewrite Hp. simpl.
    rewrite lookup_delete_eq. simpl.
    unfold session_messages in Hnone. simpl in Hnone.
    unfold session_messages. simpl. rewrite Hnone. reflexivity.
  - intros user_text. unfold load_history, get_chat_history. rewrite Hp.
    destruct (truthy session_id); [|reflexivity].
    unfold recent_rows. rewrite Hnone. reflexivity.
Qed.

(** X16 after the owner deleted the session. *)
Lemma deleted_session_is_gone_witness :
  get_history (Scenario.chat_env Scenario.hello)
    (delete_session (Scenario.chat_env Scenario.hello) Scenario.owned_db
                    (Some 7%N) Scenario.sid).2
    None Scenario.sid = [].
Proof.
  destruct (delete_session (Scenario.chat_env Scenario.hello) Scenario.owned_db
              (Some 7%N) Scenario.sid) as [[n|e] d] eqn:E;
    [|vm_compute in E; discriminate E].
  destruct (deleted_session_is_gone _ _ _ _ _ _ E) as [H _]. apply H.
Defined.

Global Instance updated_desc_total : Total updated_desc.
Proof. intros a b. unfold updated_desc. lia. Qed.
Global Instance updated_desc_trans : Transitive updated_desc.
Proof. intros a b c. unfold updated_desc. lia. Qed.

Lemma NoDup_fst_filter {K A} (f : K * A -> bool) (l : list (K * A)) :
  NoDup l.*1 -> NoDup (List.filter f l).*1.
Proof.
  induction l as [|x l IH]; simpl; [auto|].
  intros H. apply NoDup_cons in H. destruct H as [Hx Hl].
  destruct (f x); simpl; [|auto].
  apply NoDup_cons. split; [|auto].
  intros Hin. apply Hx. apply list_elem_of_fmap in Hin.
  destruct Hin as (y & -> & Hy). apply list_elem_of_fmap. exists y.
  split; [reflexivity|]. apply list_elem_of_In in Hy.
  apply List.filter_In in Hy. apply list_elem_of_In. tauto.
Qed.

(** X17. The session list is empty for an unauthenticated caller. For a
    user it holds at most 20 entries, each an active session owned by that
    user, no session twice, the most recently updated first; a session left
    out was updated no later than every listed one, and nothing is left out
    when the user has at most 20 active sessions. Each entry carries the
    number of messages of its session. *)
Theorem get_sessions_spec (env : Env) (db : DB) (current_user : option User) :
  match current_user with
  | None => get_sessions env db current_user = []
  | Some user =>
      exists rows rest,
        get_sessions env db current_user = List.map (session_schema env db) rows /\
        length rows = Nat.min 20 (length (rows ++ rest)) /\
        NoDup (rows ++ rest).*1 /\
        StronglySorted updated_desc (rows ++ rest) /\
        (forall id session,
           (id, session) ∈ rows ++ rest <->
           db_sessions db !! id = Some session /\
           cs_is_active session = true /\ cs_user session = Some user)
  end.
Proof.
  destruct current_user as [user|]; [|reflexivity].
  set (mine := List.filter (listed_for user) (map_to_list (db_sessions db))).
  set (sorted := merge_sort updated_desc mine).
  exists (take 20 sorted), (drop 20 sorted).
  rewrite take_drop. split; [reflexivity|].
  split; [rewrite length_take; lia|]. split; [|split].
  - unfold sorted. rewrite merge_sort_Permutation. unfold mine.
    apply NoDup_fst_filter, (NoDup_fst_map_to_list (db_sessions db)).
  - apply StronglySorted_merge_sort; apply _.
  - intros id session. unfold sorted. rewrite merge_sort_Permutation.
    unfold mine. rewrite list_elem_of_In, List.filter_In, <- list_elem_of_In.
    rewrite elem_of_map_to_list. unfold listed_for. simpl.
    rewrite andb_true_iff, bool_decide_eq_true. tauto.
Qed.

Lemma column_refuses_spec (engine : Engine) (title : str) :
  column_refuses engine title = false <->
  (engine = Postgresql ->
   length title <= title_max_length /\ 0%N ∉ title).
Proof.
  unfold column_refuses, has_nul. destruct engine.
  - split; [discriminate|reflexivity].
  - rewrite orb_false_iff, Nat.ltb_ge. split.
    + intros [Hlen Hnul] _. split; [exact Hlen|].
      intros Hin. apply list_elem_of_In in Hin.
      assert (existsb (N.eqb 0) title = true)
        by (apply existsb_exists; exists 0%N; split; [exact Hin|reflexivity]).
      congruence.
    + intros H. destruct (H eq_refl) as [Hlen Hnul]. split; [exact Hlen|].
      destruct (existsb (N.eqb 0) title) eqn:E; [|reflexivity].
      exfalso. apply existsb_exists in E. destruct E as (c & Hc & Ec).
      apply N.eqb_eq in Ec. subst c. apply Hnul, list_elem_of_In, Hc.
Qed.

(** X18. Renaming a session succeeds exactly when the identifier is well
    formed, the session exists and the engine stores the title: on
    PostgreSQL a title of at most 200 characters without the character
    NUL, on SQLite any title. It asks for no credential. On success the
    title reads back, the owner, the flag and the timestamps of the session
    are kept, and the other sessions and all messages are untouched; on
    failure nothing changes. *)
Theorem update_session_title_spec (env : Env) (engine : Engine) (db : DB)
    (session_id title : str) :
  let result := update_session_title env engine db session_id title in
  (result.1 = UpdateOk <->
   exists id, parse_uuid env session_id = Some id /\
              is_Some (db_sessions db !! id) /\
              (engine = Postgresql ->
               length title <= title_max_length /\ 0%N ∉ title)) /\
  (result.1 <> UpdateOk -> result.2 = db) /\
  (result.1 = UpdateOk ->
   db_messages result.2 = db_messages db /\
   forall id, parse_uuid env session_id = Some id ->
     (exists old,
        db_sessions db !! id = Some old /\
        db_sessions result.2 !! id = Some (with_title old title)) /\
     forall other, other <> id ->
       db_sessions result.2 !! other = db_sessions db !! other).
Proof.
  unfold update_session_title.
  destruct (parse_uuid env session_id) as [id|]; simpl.
  2:{ split; [|split]; [|reflexivity|discriminate].
      split; [discriminate|]. intros (id & H & _). discriminate. }
  destruct (db_sessions db !! id) as [old|] eqn:E; simpl.
  2:{ split; [|split]; [|reflexivity|discriminate].
      split; [discriminate|]. intros (id' & [= <-] & [x Hx] & _).
      rewrite E in Hx. discriminate. }
  destruct (column_refuses engine title) eqn:C; simpl.
  - split; [|split]; [|reflexivity|discriminate].
    split; [discriminate|]. intros (id' & _ & _ & H).
    pose proof (proj2 (column_refuses_spec engine title) H). congruence.
  - split; [|split].
    + split; [|reflexivity]. intros _. exists id.
      split; [reflexivity|]. split; [rewrite E; eauto|].
      exact (proj1 (column_refuses_spec engine title) C).
    + congruence.
    + intros _. split; [reflexivity|]. intros id' [= <-]. split.
      * exists old. rewrite lookup_insert_eq. auto.
      * intros other Ho. now rewrite lookup_insert_ne.
Qed.

Lemma persist_keeps_title env db session_id m st id session :
  db_sessions db !! id = Some session ->
  cs_title session <> new_chat ->
  cs_title <$> db_sessions (persist env db session_id m st) !! id
  = Some (cs_title session).
Proof.
  intros Hs Ht. unfold persist.
  destruct (truthy session_id); [|now rewrite Hs].
  destruct (parse_uuid env session_id) as [id'|]; [|now rewrite Hs].
  destruct (db_sessions db !! id') as [s'|] eqn:E; [|now rewrite Hs].
  unfold str_eqb. case_bool_decide as Hn; simpl; [|now rewrite Hs].
  destruct (decide (id' = id)) as [-> | Hne].
  - rewrite Hs in E. injection E as <-. contradiction.
  - rewrite lookup_insert_ne by exact Hne. now rewrite Hs.
Qed.

(** X19. A title given by hand stays: after a successful rename to anything
    but "New Chat", a turn that completes on any session leaves that title
    in place. *)
Theorem renamed_title_survives_turn (env : Env) (engine : Engine) (db db1 db2 : DB)
    (session_id title : str) (id : UUID)
    (turn_session current_message : str) (history : list LlamaChatMessage)
    (use_rag : bool) (events : list Event) :
  parse_uuid env session_id = Some id ->
  title <> new_chat ->
  update_session_title env engine db session_id title = (UpdateOk, db1) ->
  stream_generator env db1 current_message history use_rag turn_session
  = Completed events db2 ->
  cs_title <$> db_sessions db2 !! id = Some title.
Proof.
  intros Hparse Htitle Hupd Hrun.
  unfold update_session_title in Hupd. rewrite Hparse in Hupd.
  destruct (db_sessions db !! id) as [old|] eqn:E; [|discriminate].
  destruct (column_refuses engine title); [discriminate|].
  injection Hupd as <-.
  apply stream_generator_completed in Hrun. destruct Hrun as [st ->].
  rewrite (persist_keeps_title _ _ _ _ _ id (with_title old title)).
  - reflexivity.
  - simpl. apply lookup_insert_eq.
  - exact Htitle.
Qed.

(** X19 on a fresh session renamed before its first turn. *)
Lemma renamed_title_survives_turn_witness :
  match update_session_title (Scenario.chat_env Scenario.hello) Postgresql
          Scenario.fresh_db Scenario.sid (lit "Trip") with
  | (UpdateOk, db1) =>
      match stream_generator (Scenario.chat_env Scenario.hello) db1
              (lit "hello") [] false Scenario.sid with
      | Completed _ db2 =>
          cs_title <$> db_sessions db2 !! Scenario.a1 = Some (lit "Trip")
      | _ => False
      end
  | _ => False
  end.
Proof.
  destruct (update_session_title _ _ _ _ _) as [[| |] db1] eqn:E1;
    try (vm_compute in E1; discriminate E1).
  destruct (stream_generator _ _ _ _ _ _) as [ev db2|ev db2|ev e db2] eqn:E2.
  - apply (renamed_title_survives_turn (Scenario.chat_env Scenario.hello)
             Postgresql Scenario.fresh_db db1 db2 Scenario.sid (lit "Trip")
             Scenario.a1 Scenario.sid (lit "hello") [] false ev
             eq_refl ltac:(discriminate) E1 E2).
  - revert E2. vm_compute in E1. injection E1 as <-. vm_compute. discriminate.
  - revert E2. vm_compute in E1. injection E1 as <-. vm_compute. discriminate.
Defined.

(* ===================================================================== *)
(** * The tool registry *)
(* ===================================================================== *)

Lemma load_all_spec w active tools0 map0 :
  (McpTools.load_all w active tools0 map0).1
  = tools0 ++ McpTools.loaded_tools w active.
Proof.
  revert tools0 map0. induction active as [|config rest IH];
    intros tools0 map0; simpl.
  - now rewrite app_nil_r.
  - destruct (McpTools.load_mcp_tools_sync w config) as [tools|e]; simpl.
    + rewrite IH. now rewrite app_assoc.
    + apply IH.
Qed.

Lemma record_tools_lookup config tools map0 name :
  McpTools.record_tools config tools map0 !! name
  = if bool_decide (name ∈ List.map tool_name tools)
    then Some (McpTools.name config) else map0 !! name.
Proof.
  unfold McpTools.record_tools. revert map0.
  induction tools as [|tool tools IH]; intros map0; cbn [fold_left List.map].
  - rewrite bool_decide_eq_false_2; [reflexivity|]. apply not_elem_of_nil.
  - rewrite IH. destruct (decide (name ∈ List.map tool_name tools)) as [H|H].
    + rewrite !bool_decide_eq_true_2; auto. now right.
    + rewrite (bool_decide_eq_false_2 _ H).
      destruct (decide (tool_name tool = name)) as [<- | Hne].
      * rewrite lookup_insert_eq, bool_decide_eq_true_2; [reflexivity|left].
      * rewrite lookup_insert_ne by exact Hne.
        rewrite bool_decide_eq_false_2; [reflexivity|].
        intros Hin. apply elem_of_cons in Hin. destruct Hin; congruence.
Qed.

Lemma load_all_map w active tools0 map0 name :
  let new_map := (McpTools.load_all w active tools0 map0).2 in
  (is_Some (new_map !! name) <->
   is_Some (map0 !! name)
   \/ name ∈ List.map tool_name (McpTools.loaded_tools w active)) /\
  (forall server, new_map !! name = Some server ->
     map0 !! name = Some server \/
     exists config tools,
       config ∈ active /\ McpTools.name config = server /\
       McpTools.load_mcp_tools_sync w config = Ok tools /\
       name ∈ List.map tool_name tools).
Proof.
  revert tools0 map0. induction active as [|config rest IH];
    intros tools0 map0; simpl.
  - split.
    + split; [auto|]. intros [H | H]; [exact H|]. now apply elem_of_nil in H.
    + auto.
  - destruct (McpTools.load_mcp_tools_sync w config) as [tools|e] eqn:E.
    + destruct (IH (tools0 ++ tools) (McpTools.record_tools config tools map0))
        as [Hdom Hval]. split.
      * rewrite Hdom, record_tools_lookup, List.map_app, elem_of_app.
        case_bool_decide as Hn.
        -- split; [auto|]. intros _. left. eauto.
        -- tauto.
      * intros server Hs. destruct (Hval server Hs) as [H | H].
        -- rewrite record_tools_lookup in H. case_bool_decide as Hn.
           ++ injection H as <-. right. exists config, tools.
              split; [left|]. auto.
           ++ now left.
        -- right. destruct H as (c & ts & Hc & Hrest).
           exists c, ts. split; [now right|exact Hrest].
    + destruct (IH tools0 map0) as [Hdom Hval]. split.
      * rewrite Hdom. simpl. tauto.
      * intros server Hs. destruct (Hval server Hs) as [H | H]; [now left|].
        right. destruct H as (c & ts & Hc & Hrest).
        exists c, ts. split; [now right|exact Hrest].
Qed.

Lemma latest_update_spec first rest :
  let latest := McpTools.latest_update first rest in
  (exists c, c ∈ first :: rest /\ McpTools.updated_at c = latest) /\
  (forall c, c ∈ first :: rest -> (McpTools.updated_at c <= latest)%Z).
Proof.
  unfold McpTools.latest_update.
  assert (H : forall l m,
            let r := fold_left (fun m c => if (m <? McpTools.updated_at c)%Z
                                           then McpTools.updated_at c else m) l m in
            (r = m \/ exists c, c ∈ l /\ McpTools.updated_at c = r) /\
            (m <= r)%Z /\
            (forall c, c ∈ l -> (McpTools.updated_at c <= r)%Z)).
  { induction l as [|c l IH]; intros m; simpl.
    - split; [now left|]. split; [lia|]. intros c H. now apply elem_of_nil in H.
    - destruct (m <? McpTools.updated_at c)%Z eqn:E.
      + apply Z.ltb_lt in E.
        destruct (IH (McpTools.updated_at c)) as (Hin & Hle & Hall).
        split; [|split; [lia|]].
        * right. destruct Hin as [-> | (c' & Hc' & <-)].
          -- exists c. split; [left|reflexivity].
          -- exists c'. split; [now right|reflexivity].
        * intros c' Hc'. apply elem_of_cons in Hc'.
          destruct Hc' as [-> | Hc']; [exact Hle|now apply Hall].
      + apply Z.ltb_ge in E. destruct (IH m) as (Hin & Hle & Hall).
        split; [|split; [exact Hle|]].
        * destruct Hin as [-> | (c' & Hc' & <-)]; [now left|].
          right. exists c'. split; [now right|reflexivity].
        * intros c' Hc'. apply elem_of_cons in Hc'.
          destruct Hc' as [-> | Hc']; [lia|now apply Hall]. }
  destruct (H rest (McpTools.updated_at first)) as (Hin & Hle & Hall).
  split.
  - destruct Hin as [-> | (c & Hc & <-)].
    + exists first. split; [left|reflexivity].
    + exists c. split; [now right|reflexivity].
  - intros c Hc. apply elem_of_cons in Hc.
    destruct Hc as [-> | Hc]; [exact Hle|now apply Hall].
Qed.

(** X20. The registry answers a repeated call from its cache: whatever the
    globals were, a call made right after another, with the same rows in
    the table, returns the same list and leaves the globals as they are,
    without loading anything: the remote listing is not consulted, so a
    server that went down in between is not noticed. *)
Theorem registry_second_call (w : McpTools.World) (g : McpTools.Registry)
    (remote : str -> Result (list Tool)) (describe : str -> str -> option str)
    (show_kwargs : Kwargs -> str) :
  McpTools.get_mcp_tools
    (McpTools.mkWorld (McpTools.ready w) (McpTools.configs w) remote describe
                      show_kwargs)
    (McpTools.get_mcp_tools w g).2
  = McpTools.get_mcp_tools w g.
Proof.
  unfold McpTools.get_mcp_tools. cbn [McpTools.ready McpTools.configs].
  destruct (McpTools.ready w); cbn [negb]; [|reflexivity].
  destruct (McpTools.configs w) as [rows|e]; [|reflexivity].
  destruct (List.filter McpTools.connected rows) as [|first rest];
    [reflexivity|].
  destruct (McpTools.load_all w (first :: rest) [] ∅) as [tools new_map].
  destruct (McpTools.mcp_tools_cache g) as [cached|] eqn:C.
  - case_bool_decide as T; cbn [snd McpTools.mcp_tools_cache
                                McpTools.mcp_cache_timestamp].
    + now rewrite C, bool_decide_eq_true_2.
    + now rewrite bool_decide_eq_true_2.
  - cbn [snd McpTools.mcp_tools_cache McpTools.mcp_cache_timestamp].
    now rewrite bool_decide_eq_true_2.
Qed.

(** X21. A reload (no cache yet, or a cache whose stamp is not the latest
    update time of the connected configs) loads every active, connected
    config in the order of the query and skips the ones whose loading
    raises: the list returned holds the tools of the others, in order. The
    cache then holds that list under the latest update time, and the server
    map knows exactly the names of the returned tools, each mapped to the
    name of a config that provides a tool of that name. *)
Theorem registry_reload (w : McpTools.World) (g : McpTools.Registry)
    (rows : list McpTools.MCPServerConfig) :
  McpTools.ready w = true ->
  McpTools.configs w = Ok rows ->
  List.filter McpTools.connected rows <> [] ->
  (McpTools.mcp_tools_cache g = None \/
   forall first rest,
     List.filter McpTools.connected rows = first :: rest ->
     McpTools.mcp_cache_timestamp g
     <> Some (McpTools.latest_update first rest)) ->
  let active := List.filter McpTools.connected rows in
  let result := McpTools.get_mcp_tools w g in
  result.1 = McpTools.loaded_tools w active /\
  McpTools.mcp_tools_cache result.2 = Some result.1 /\
  (exists latest,
     McpTools.mcp_cache_timestamp result.2 = Some latest /\
     (exists c, c ∈ active /\ McpTools.updated_at c = latest) /\
     forall c, c ∈ active -> (McpTools.updated_at c <= latest)%Z) /\
  (forall name,
     is_Some (McpTools.tool_server_map result.2 !! name) <->
     name ∈ List.map tool_name result.1) /\
  (forall name server,
     McpTools.tool_server_map result.2 !! name = Some server ->
     exists config tools,
       config ∈ active /\ McpTools.name config = server /\
       McpTools.load_mcp_tools_sync w config = Ok tools /\
       name ∈ List.map tool_name tools).
Proof.
  intros Hready Hrows Hactive Hstale active result.
  subst result. fold active in Hactive, Hstale.
  destruct active as [|first rest] eqn:E; [congruence|].
  pose proof (latest_update_spec first rest) as [Hmax Hall].
  pose proof (load_all_spec w (first :: rest) [] ∅) as Htools.
  pose proof (fun name => load_all_map w (first :: rest) [] ∅ name) as Hmap.
  assert (Hreload :
            McpTools.get_mcp_tools w g
            = ((McpTools.load_all w (first :: rest) [] ∅).1,
               McpTools.mkRegistry
                 (Some (McpTools.load_all w (first :: rest) [] ∅).1)
                 (Some (McpTools.latest_update first rest))
                 (McpTools.load_all w (first :: rest) [] ∅).2)).
  { unfold McpTools.get_mcp_tools. rewrite Hready, Hrows.
    cbn [negb]. unfold active in E. rewrite E.
    destruct (McpTools.load_all w (first :: rest) [] ∅) as [tools new_map].
    destruct (McpTools.mcp_tools_cache g) as [cached|]; [|reflexivity].
    case_bool_decide as T; [|reflexivity].
    exfalso. destruct Hstale as [H | H]; [discriminate|].
    exact (H first rest eq_refl T). }
  rewrite Hreload. cbn [fst snd McpTools.mcp_tools_cache
                        McpTools.mcp_cache_timestamp McpTools.tool_server_map].
  rewrite app_nil_l in Htools.
  split; [exact Htools|]. split; [reflexivity|]. split; [|split].
  - exists (McpTools.latest_update first rest). auto.
  - intros name. destruct (Hmap name) as [Hdom _]. cbv zeta in Hdom.
    rewrite Hdom, Htools, lookup_empty. split.
    + intros [[x Hx] | H]; [discriminate|exact H].
    + auto.
  - intros name server Hs. destruct (Hmap name) as [_ Hval].
    destruct (Hval server Hs) as [H | H]; [|exact H].
    rewrite lookup_empty in H. discriminate.
Qed.

(** X21 on globals stamped with the time of the first of three connected
    configs, one of them unreachable. *)
Lemma registry_reload_witness :
  List.map tool_name
    (McpTools.get_mcp_tools (Cases.echo_world [Cases.local; Cases.down; Cases.maps])
                            Cases.stale).1
  = [lit "read_file"; lit "unknown"; lit "get_weather"].
Proof.
  assert (Hstale : forall first rest,
            List.filter McpTools.connected [Cases.local; Cases.down; Cases.maps]
            = first :: rest ->
            McpTools.mcp_cache_timestamp Cases.stale
            <> Some (McpTools.latest_update first rest)).
  { intros first rest E H.
    change (List.filter McpTools.connected [Cases.local; Cases.down; Cases.maps])
      with [Cases.local; Cases.down; Cases.maps] in E.
    injection E as <- <-. vm_compute in H. discriminate H. }
  destruct (registry_reload (Cases.echo_world [Cases.local; Cases.down; Cases.maps])
              Cases.stale [Cases.local; Cases.down; Cases.maps]
              eq_refl eq_refl ltac:(discriminate) (or_intror Hstale))
    as (H & _).
  rewrite H. reflexivity.
Defined.

(** X22. The cache is judged by one number. When the cache holds a list
    and its stamp is the latest update time of the configs now connected,
    the call returns the cached list and loads nothing, whatever the
    configs are: a config that was connected when the cache was filled and
    no longer is keeps its tools in the answer, as long as it was not the
    one updated last. *)
Theorem registry_cache_hit (w : McpTools.World) (g : McpTools.Registry)
    (rows : list McpTools.MCPServerConfig) (cached : list Tool) (t : Z) :
  McpTools.ready w = true ->
  McpTools.configs w = Ok rows ->
  McpTools.mcp_tools_cache g = Some cached ->
  McpTools.mcp_cache_timestamp g = Some t ->
  (exists c, c ∈ List.filter McpTools.connected rows /\
             McpTools.updated_at c = t) ->
  (forall c, c ∈ List.filter McpTools.connected rows ->
             (McpTools.updated_at c <= t)%Z) ->
  McpTools.get_mcp_tools w g = (cached, g).
Proof.
  intros Hready Hrows Hcache Hstamp (c & Hc & Ht) Hle.
  unfold McpTools.get_mcp_tools. rewrite Hready, Hrows. cbn [negb].
  destruct (List.filter McpTools.connected rows) as [|first rest];
    [now apply elem_of_nil in Hc|].
  destruct (latest_update_spec first rest) as [(c' & Hc' & Hlatest) Hall].
  cbv zeta in Hlatest, Hall.
  rewrite Hcache, Hstamp, bool_decide_eq_true_2; [reflexivity|].
  f_equal. specialize (Hall c Hc). specialize (Hle c' Hc'). lia.
Qed.

(** X22 where the config of two of the three cached tools is gone. *)
Lemma registry_cache_hit_witness :
  List.map tool_name
    (McpTools.get_mcp_tools
       (Cases.echo_world [Cases.maps])
       (McpTools.get_mcp_tools
          (Cases.echo_world [Cases.local; Cases.down; Cases.maps]) Cases.cold).2).1
  = [lit "read_file"; lit "unknown"; lit "get_weather"].
Proof.
  rewrite (registry_cache_hit
             (Cases.echo_world [Cases.maps])
             (McpTools.get_mcp_tools
                (Cases.echo_world [Cases.local; Cases.down; Cases.maps])
                Cases.cold).2
             [Cases.maps]
             (McpTools.get_mcp_tools
                (Cases.echo_world [Cases.local; Cases.down; Cases.maps])
                Cases.cold).1
             20%Z eq_refl eq_refl eq_refl eq_refl).
  - reflexivity.
  - exists Cases.maps. split; [left|reflexivity].
  - intros c Hc. change (c ∈ [Cases.maps]) in Hc.
    apply elem_of_cons in Hc. destruct Hc as [-> | Hc].
    + vm_compute. discriminate.
    + now apply elem_of_nil in Hc.
Defined.

(* ===================================================================== *)
(** * The model loader and the configuration table *)
(* ===================================================================== *)

Lemma build_instance w c key api_base model :
  CoreLlm.llm_instance c = None ->
  let result := CoreLlm.build w c key api_base model in
  CoreLlm.llm_instance result.2 = CoreLlm.returned result.1 /\
  CoreLlm.current_config_id result.2 = CoreLlm.current_config_id c.
Proof.
  intros Hnone. unfold CoreLlm.build.
  destruct key as [k|]; [|now split].
  destruct (truthy k); cbn [negb]; [|now split].
  unfold CoreLlm.init_embedding.
  destruct (CoreLlm.embed_instance c) as [e|].
  - destruct (CoreLlm.construct w _); now split.
  - destruct (CoreLlm.HuggingFaceEmbedding w) as [e|msg]; [|now split].
    cbn [CoreLlm.embed_instance CoreLlm.current_config_id CoreLlm.llm_instance].
    destruct (CoreLlm.construct w _); now split.
Qed.

Lemma init_llm_db w c config :
  CoreLlm.db_config w = Some config ->
  let result := CoreLlm.init_llm w c in
  CoreLlm.current_config_id result.2
  = Some (CoreLlm.Signature (CoreLlm.id config) (CoreLlm.updated_at config)) /\
  (CoreLlm.current_config_id c
   <> Some (CoreLlm.Signature (CoreLlm.id config) (CoreLlm.updated_at config)) ->
   CoreLlm.llm_instance result.2 = CoreLlm.returned result.1).
Proof.
  intros Hdb. unfold CoreLlm.init_llm. rewrite Hdb. cbv zeta.
  case_bool_decide as Hsig.
  - split; [exact Hsig|]. intros H. contradiction.
  - match goal with
    | |- context [CoreLlm.build w ?c0 ?k ?b ?m] =>
        destruct (build_instance w c0 k b m eq_refl) as [Hi Hid]
    end.
    split; [now rewrite Hid|]. intros _. exact Hi.
Qed.

(** X23. With an active row in the table, a load is attempted once for
    each version of the row. A call that follows a call with a row of the
    same identifier and update time builds nothing and leaves the globals:
    when the first call reloaded, it returns what the first returned, and
    None where the first raised. So a load that failed (the constructor or
    the embedding raised, the key was empty) is not tried again until the
    row is saved again, even when the second call could build the model. *)
Theorem db_config_loaded_once (w w' : CoreLlm.World) (c : CoreLlm.Cache)
    (config config' : CoreLlm.LLMConfig) :
  CoreLlm.db_config w = Some config ->
  CoreLlm.db_config w' = Some config' ->
  CoreLlm.id config' = CoreLlm.id config ->
  CoreLlm.updated_at config' = CoreLlm.updated_at config ->
  let first := CoreLlm.init_llm w c in
  CoreLlm.init_llm w' first.2 = (Ok (CoreLlm.llm_instance first.2), first.2) /\
  (CoreLlm.current_config_id c
   <> Some (CoreLlm.Signature (CoreLlm.id config) (CoreLlm.updated_at config)) ->
   CoreLlm.llm_instance first.2 = CoreLlm.returned first.1).
Proof.
  intros Hdb Hdb' Hid Hat first.
  destruct (init_llm_db w c config Hdb) as [Hsig Hret]. fold first in Hsig, Hret.
  split; [|exact Hret].
  unfold CoreLlm.init_llm at 1. rewrite Hdb', Hid, Hat. cbv zeta.
  now rewrite bool_decide_eq_true_2.
Qed.

(** X23 on a constructor that raises, followed by one that works. *)
Lemma db_config_loaded_once_witness :
  (CoreLlm.init_llm (Cases.working_world (Some Cases.deepseek))
     (CoreLlm.init_llm (Cases.failing_world Cases.deepseek) Cases.empty_cache).2).1
  = Ok None.
Proof.
  destruct (db_config_loaded_once (Cases.failing_world Cases.deepseek)
              (Cases.working_world (Some Cases.deepseek)) Cases.empty_cache
              Cases.deepseek Cases.deepseek eq_refl eq_refl eq_refl eq_refl)
    as [H Hret].
  rewrite H. cbn [fst]. rewrite Hret; [reflexivity|discriminate].
Defined.

(** X24. A model loaded from a row outlives the row. After a call that
    loaded a model from the active row, a call made when the table has no
    active row (or cannot be read) returns that same model and reads no
    environment variable: the fallback to the environment is taken only
    when no model is loaded. *)
Theorem deactivated_row_stays_loaded (w w' : CoreLlm.World) (c : CoreLlm.Cache)
    (config : CoreLlm.LLMConfig) (llm : LLM) :
  CoreLlm.db_config w = Some config ->
  (CoreLlm.init_llm w c).1 = Ok (Some llm) ->
  CoreLlm.db_config w' = None ->
  CoreLlm.init_llm w' (CoreLlm.init_llm w c).2
  = (Ok (Some llm), (CoreLlm.init_llm w c).2).
Proof.
  intros Hdb Hfirst Hnone.
  assert (Hinst : CoreLlm.llm_instance (CoreLlm.init_llm w c).2 = Some llm).
  { destruct (init_llm_db w c config Hdb) as [_ Hret].
    destruct (decide (CoreLlm.current_config_id c
                      = Some (CoreLlm.Signature (CoreLlm.id config)
                                                (CoreLlm.updated_at config))))
      as [Hsig | Hsig].
    - revert Hfirst. unfold CoreLlm.init_llm. rewrite Hdb. cbv zeta.
      rewrite bool_decide_eq_true_2 by exact Hsig. cbn [fst snd]. congruence.
    - rewrite (Hret Hsig), Hfirst. reflexivity. }
  unfold CoreLlm.init_llm at 1. rewrite Hnone, Hinst. reflexivity.
Qed.

(** X24 with a key in the environment that is never read. *)
Lemma deactivated_row_stays_loaded_witness :
  (CoreLlm.init_llm
     (CoreLlm.mkWorld None (Some (lit "sk-env")) None None
                      (fun _ => Raise (lit "unreachable"))
                      (Ok Scenario.no_embedding))
     (CoreLlm.init_llm (Cases.working_world (Some Cases.deepseek))
                       Cases.empty_cache).2).1
  = Ok (Some (Scenario.llm_of Scenario.hello)).
Proof.
  rewrite (deactivated_row_stays_loaded
             (Cases.working_world (Some Cases.deepseek))
             (CoreLlm.mkWorld None (Some (lit "sk-env")) None None
                              (fun _ => Raise (lit "unreachable"))
                              (Ok Scenario.no_embedding))
             Cases.empty_cache Cases.deepseek (Scenario.llm_of Scenario.hello)
             eq_refl eq_refl eq_refl).
  reflexivity.
Defined.

Lemma save_lookup engine now config table table' :
  CoreLlm.save engine now config table = Some table' ->
  table' !! CoreLlm.id config
  = Some (CoreLlm.stamped now (bool_decide (table !! CoreLlm.id config = None))
                          (CoreLlm.with_presets config)) /\
  forall k, k <> CoreLlm.id config ->
    table' !! k
    = (fun other =>
         if CoreLlm.is_active config && CoreLlm.is_active other
            && negb (CoreLlm.id other =? CoreLlm.id config)%N
         then CoreLlm.deactivate other else other) <$> table !! k.
Proof.
  unfold CoreLlm.save. cbv zeta.
  destruct (CoreLlm.refused engine (CoreLlm.with_presets config)); [discriminate|].
  intros [= <-]. change (CoreLlm.id (CoreLlm.with_presets config))
                   with (CoreLlm.id config).
  change (CoreLlm.is_active (CoreLlm.with_presets config))
    with (CoreLlm.is_active config).
  split; [apply lookup_insert_eq|].
  intros k Hk. rewrite lookup_insert_ne by congruence.
  destruct (CoreLlm.is_active config).
  - rewrite lookup_fmap. reflexivity.
  - destruct (table !! k); reflexivity.
Qed.

(** X25. Saving a configuration keeps one default. After a save that
    went through, the table holds the saved row under its identifier,
    stamped with the time of the write. When the saved row is active it is
    the only active row of the table; every other row is what it was, but
    for [is_active]: in particular it keeps its update time. When the saved
    row is not active no other row changes. Either way a table with at
    most one active row still has at most one. *)
Theorem save_single_active (engine : Engine) (now : Z)
    (config : CoreLlm.LLMConfig) (table table' : gmap N CoreLlm.LLMConfig) :
  CoreLlm.keyed table ->
  CoreLlm.save engine now config table = Some table' ->
  CoreLlm.keyed table' /\
  (exists row,
     table' !! CoreLlm.id config = Some row /\
     CoreLlm.updated_at row = now /\
     CoreLlm.is_active row = CoreLlm.is_active config /\
     CoreLlm.api_key row = CoreLlm.api_key config) /\
  (forall k, k <> CoreLlm.id config ->
     match table !! k, table' !! k with
     | Some old, Some new =>
         CoreLlm.is_active new
         = CoreLlm.is_active old && negb (CoreLlm.is_active config) /\
         CoreLlm.deactivate new = CoreLlm.deactivate old
     | None, None => True
     | _, _ => False
     end) /\
  (CoreLlm.is_active config = true ->
   forall k row, table' !! k = Some row -> CoreLlm.is_active row = true ->
                 k = CoreLlm.id config) /\
  ((forall k1 k2 r1 r2,
      table !! k1 = Some r1 -> table !! k2 = Some r2 ->
      CoreLlm.is_active r1 = true -> CoreLlm.is_active r2 = true -> k1 = k2) ->
   forall k1 k2 r1 r2,
     table' !! k1 = Some r1 -> table' !! k2 = Some r2 ->
     CoreLlm.is_active r1 = true -> CoreLlm.is_active r2 = true -> k1 = k2).
Proof.
  intros Hkeyed Hsave.
  destruct (save_lookup engine now config table table' Hsave) as [Hself Hother].
  assert (Hrest : forall k, k <> CoreLlm.id config ->
            match table !! k, table' !! k with
            | Some old, Some new =>
                CoreLlm.is_active new
                = CoreLlm.is_active old && negb (CoreLlm.is_active config) /\
                CoreLlm.deactivate new = CoreLlm.deactivate old
            | None, None => True
            | _, _ => False
            end).
  { intros k Hk. rewrite (Hother k Hk).
    destruct (table !! k) as [old|] eqn:Hold; cbn [fmap option_fmap option_map];
      [|exact I].
    rewrite (Hkeyed k old Hold).
    replace (negb (k =? CoreLlm.id config)%N) with true
      by (symmetry; apply negb_true_iff, N.eqb_neq; exact Hk).
    rewrite andb_true_r.
    destruct (CoreLlm.is_active config), (CoreLlm.is_active old) eqn:Ha;
      cbn [andb negb]; split; try reflexivity; try exact Ha;
      try (symmetry; exact Ha). }
  assert (Hactive : CoreLlm.is_active config = true ->
            forall k row, table' !! k = Some row ->
                          CoreLlm.is_active row = true -> k = CoreLlm.id config).
  { intros Hon k row Hrow Hact.
    destruct (decide (k = CoreLlm.id config)) as [|Hk]; [assumption|].
    exfalso. specialize (Hrest k Hk). rewrite Hrow in Hrest.
    destruct (table !! k) as [old|]; [|contradiction].
    destruct Hrest as [Hflag _]. rewrite Hon, Hact, andb_false_r in Hflag.
    discriminate. }
  split; [|split; [|split; [exact Hrest|split; [exact Hactive|]]]].
  - intros k row Hrow.
    destruct (decide (k = CoreLlm.id config)) as [-> | Hk].
    + rewrite Hself in Hrow. injection Hrow as <-. reflexivity.
    + rewrite (Hother k Hk) in Hrow.
      destruct (table !! k) as [old|] eqn:Hold; [|discriminate].
      injection Hrow as <-.
      destruct (_ && _); exact (Hkeyed k old Hold).
  - eexists. split; [exact Hself|]. repeat split.
  - intros Hone k1 k2 r1 r2 H1 H2 A1 A2.
    destruct (CoreLlm.is_active config) eqn:Hon.
    + rewrite (Hactive eq_refl k1 r1 H1 A1), (Hactive eq_refl k2 r2 H2 A2).
      reflexivity.
    + assert (Hsame : forall k r, table' !! k = Some r ->
                CoreLlm.is_active r = true ->
                k = CoreLlm.id config \/ table !! k = Some r).
      { intros k r Hr Ha.
        destruct (decide (k = CoreLlm.id config)) as [|Hk]; [now left|right].
        rewrite (Hother k Hk) in Hr. cbn [andb] in Hr.
        destruct (table !! k); [|discriminate]. exact Hr. }
      destruct (Hsame k1 r1 H1 A1) as [E1 | E1].
      * subst k1. rewrite Hself in H1. injection H1 as <-.
        cbn in A1. congruence.
      * destruct (Hsame k2 r2 H2 A2) as [E2 | E2].
        -- subst k2. rewrite Hself in H2. injection H2 as <-.
           cbn in A2. congruence.
        -- exact (Hone k1 k2 r1 r2 E1 E2 A1 A2).
Qed.

(** X25 on a table whose default is replaced. *)
Lemma save_single_active_witness :
  CoreLlm.keyed
    (default ∅ (CoreLlm.save Sqlite 9 Cases.qwen {[1%N := Cases.deepseek]})).
Proof.
  assert (Hkeyed : CoreLlm.keyed {[1%N := Cases.deepseek]}).
  { intros k row H. apply lookup_singleton_Some in H.
    destruct H as [<- <-]. reflexivity. }
  destruct (save_single_active Sqlite 9 Cases.qwen {[1%N := Cases.deepseek]}
              (default ∅ (CoreLlm.save Sqlite 9 Cases.qwen
                                       {[1%N := Cases.deepseek]}))
              Hkeyed eq_refl) as [H _].
  exact H.
Defined.

Lemma save_active_row engine now config table table' k row :
  CoreLlm.keyed table ->
  CoreLlm.save engine now config table = Some table' ->
  CoreLlm.is_active config = true ->
  table' !! k = Some row ->
  CoreLlm.is_active row = true ->
  row = CoreLlm.stamped now (bool_decide (table !! CoreLlm.id config = None))
                        (CoreLlm.with_presets config).
Proof.
  intros Hkeyed Hsave Hon Hrow Hact.
  destruct (save_lookup engine now config table table' Hsave) as [Hself Hother].
  destruct (decide (k = CoreLlm.id config)) as [-> | Hk]; [congruence|].
  exfalso. rewrite (Hother k Hk), Hon in Hrow.
  destruct (table !! k) as [old|] eqn:Hold; [|discriminate].
  injection Hrow as <-. rewrite (Hkeyed k old Hold) in Hact.
  replace (negb (k =? CoreLlm.id config)%N) with true in Hact
    by (symmetry; apply negb_true_iff, N.eqb_neq; exact Hk).
  destruct (CoreLlm.is_active old) eqn:Ha; cbn in Hact; congruence.
Qed.

(** X26. A saved default is picked up by the next call of the loader.
    After an active configuration with a key is saved, whichever active
    row the loader reads is the saved one; unless the globals already carry
    its identifier with the time of this write, the loader builds a client
    from the key of the row and from its base address and model as the
    presets completed them, and its result is the constructor's: the new
    model, or its exception, not the model loaded before. *)
Theorem saved_config_is_loaded (engine : Engine) (now : Z)
    (config : CoreLlm.LLMConfig) (table table' : gmap N CoreLlm.LLMConfig)
    (w : CoreLlm.World) (c : CoreLlm.Cache) (k : N) (row : CoreLlm.LLMConfig)
    (e : EmbedModel) :
  CoreLlm.keyed table ->
  CoreLlm.save engine now config table = Some table' ->
  CoreLlm.is_active config = true ->
  truthy (CoreLlm.api_key config) = true ->
  table' !! k = Some row ->
  CoreLlm.is_active row = true ->
  CoreLlm.db_config w = Some row ->
  CoreLlm.current_config_id c
  <> Some (CoreLlm.Signature (CoreLlm.id config) now) ->
  (CoreLlm.embed_instance c = Some e \/
   CoreLlm.embed_instance c = None /\ CoreLlm.HuggingFaceEmbedding w = Ok e) ->
  let saved := CoreLlm.with_presets config in
  (CoreLlm.init_llm w c).1
  = match CoreLlm.construct w
            (CoreLlm.client_for (CoreLlm.model_name saved) (CoreLlm.api_key config)
                                (Some (CoreLlm.base_url saved))) with
    | Ok llm => Ok (Some llm)
    | Raise msg => Raise msg
    end.
Proof.
  intros Hkeyed Hsave Hon Hkey Hrow Hact Hdb Hsig Hembed saved.
  pose proof (save_active_row engine now config table table' k row
                Hkeyed Hsave Hon Hrow Hact) as ->.
  unfold CoreLlm.init_llm. rewrite Hdb. cbv zeta.
  cbn [CoreLlm.id CoreLlm.updated_at CoreLlm.stamped CoreLlm.with_presets
       CoreLlm.api_key CoreLlm.base_url CoreLlm.model_name].
  rewrite bool_decide_eq_false_2 by exact Hsig.
  unfold CoreLlm.build. rewrite Hkey. cbn [negb].
  unfold CoreLlm.init_embedding. cbn [CoreLlm.embed_instance].
  destruct Hembed as [-> | [-> ->]];
    destruct (CoreLlm.construct w _); reflexivity.
Qed.

(** X26 on a row saved without a model name. *)
Lemma saved_config_is_loaded_witness :
  (CoreLlm.init_llm
     (Cases.qwen_world
        (Some (CoreLlm.stamped 9 true (CoreLlm.with_presets Cases.qwen))))
     Cases.empty_cache).1
  = Ok (Some (Scenario.llm_of Scenario.hello)).
Proof.
  assert (Hkeyed : CoreLlm.keyed {[1%N := Cases.deepseek]}).
  { intros k row H. apply lookup_singleton_Some in H.
    destruct H as [<- <-]. reflexivity. }
  rewrite (saved_config_is_loaded Sqlite 9 Cases.qwen {[1%N := Cases.deepseek]}
             (default ∅ (CoreLlm.save Sqlite 9 Cases.qwen
                                      {[1%N := Cases.deepseek]}))
             (Cases.qwen_world
                (Some (CoreLlm.stamped 9 true (CoreLlm.with_presets Cases.qwen))))
             Cases.empty_cache 2%N
             (CoreLlm.stamped 9 true (CoreLlm.with_presets Cases.qwen))
             Scenario.no_embedding
             Hkeyed eq_refl eq_refl eq_refl eq_refl eq_refl eq_refl
             ltac:(discriminate) (or_intror (conj eq_refl eq_refl))).
  reflexivity.
Defined.

(* ===================================================================== *)
(** * Registration and login *)
(* ===================================================================== *)

Lemma filter_none {A} (f : A -> bool) (l : list A) :
  (forall x, x ∈ l -> f x = false) -> List.filter f l = [].
Proof.
  induction l as [|a l IH]; intros H; [reflexivity|]. cbn [List.filter].
  rewrite (H a) by left. apply IH. intros x Hx. apply H. now right.
Qed.

Lemma existsb_false_elem {A} (f : A -> bool) (l : list A) :
  existsb f l = false -> forall x, x ∈ l -> f x = false.
Proof.
  intros H x Hx. apply list_elem_of_In in Hx.
  destruct (f x) eqn:E; [|reflexivity].
  assert (existsb f l = true) by (apply existsb_exists; eauto). congruence.
Qed.


(** X27. Registration keeps the table sound. On a table where user names
    are distinct and no two rows share a non-empty email, the table after
    [register] is such a table again. Only a 200 response changes it: it
    then has one more row, at the end, with the name and email of the
    request (no email is stored as the empty text), the hash of the
    password and no staff right, and the response shows that row. Any
    other response leaves the table as it was. *)
Theorem register_spec (w : Auth.World) (engine : Engine)
    (users : list Auth.UserRow) (payload : Auth.RegisterSchema) :
  NoDup (List.map Auth.username users) ->
  NoDup (List.filter truthy (List.map Auth.email users)) ->
  let result := Auth.register w engine users payload in
  NoDup (List.map Auth.username result.2) /\
  NoDup (List.filter truthy (List.map Auth.email result.2)) /\
  match result.1 with
  | Auth.Status200 body =>
      exists user,
        result.2 = users ++ [user] /\
        Auth.username user = Auth.reg_username payload /\
        Auth.email user = default [] (Auth.reg_email payload) /\
        Auth.password user = Auth.make_password w (Auth.reg_password payload) /\
        Auth.is_staff user = false /\
        body = Auth.token_for w user
  | _ => result.2 = users
  end.
Proof.
  intros Hnames Hemails result. subst result. unfold Auth.register.
  destruct (parameter_refused engine (Auth.reg_username payload));
    [now repeat split|].
  destruct (existsb _ users) eqn:Hname; [now repeat split|].
  cbv zeta.
  destruct (truthy (default [] (Auth.reg_email payload))
            && parameter_refused engine _); [now repeat split|].
  destruct (truthy (default [] (Auth.reg_email payload)) && existsb _ users)
    eqn:Hemail; [now repeat split|].
  destruct (_ || _); [now repeat split|]. cbn [fst snd].
  split; [|split].
  - rewrite List.map_app. apply NoDup_app. split; [exact Hnames|]. split.
    + intros x Hx Hin. cbn in Hin. apply elem_of_cons in Hin.
      destruct Hin as [-> | Hin]; [|now apply elem_of_nil in Hin].
      apply list_elem_of_In, List.in_map_iff in Hx.
      destruct Hx as (u & Hu & Hin). apply list_elem_of_In in Hin.
      pose proof (existsb_false_elem _ _ Hname u Hin) as Hf.
      unfold str_eqb in Hf. apply bool_decide_eq_false_1 in Hf. congruence.
    + cbn. apply NoDup_singleton.
  - rewrite List.map_app, List.filter_app. cbn [List.map List.filter Auth.email].
    destruct (truthy (default [] (Auth.reg_email payload))) eqn:Hgiven.
    + apply NoDup_app. split; [exact Hemails|]. split; [|apply NoDup_singleton].
      intros x Hx Hin. apply elem_of_cons in Hin.
      destruct Hin as [-> | Hin]; [|now apply elem_of_nil in Hin].
      apply list_elem_of_In, List.filter_In in Hx. destruct Hx as [Hx _].
      apply List.in_map_iff in Hx. destruct Hx as (u & Hu & Hin).
      apply list_elem_of_In in Hin. cbn [andb] in Hemail.
      pose proof (existsb_false_elem _ _ Hemail u Hin) as Hf.
      unfold str_eqb in Hf. apply bool_decide_eq_false_1 in Hf. congruence.
    + now rewrite app_nil_r.
  - eexists. split; [reflexivity|]. repeat split.
Qed.

(** X27 on a request that takes a name in use. *)
Lemma register_spec_witness :
  (Auth.register Cases.plain_hasher Postgresql [Cases.alice]
     (Auth.mkRegister (lit "alice") (lit "pw") None)).2
  = [Cases.alice].
Proof.
  assert (Hn : NoDup (List.map Auth.username [Cases.alice]))
    by apply NoDup_singleton.
  assert (He : NoDup (List.filter truthy (List.map Auth.email [Cases.alice])))
    by apply NoDup_singleton.
  destruct (register_spec Cases.plain_hasher Postgresql [Cases.alice]
              (Auth.mkRegister (lit "alice") (lit "pw") None) Hn He)
    as (_ & _ & H).
  exact H.
Defined.



(** X29. Whoever registered can log in. When [register] answers 200, and
    the hasher accepts the password against the hash it made of it, a
    login with the same name and password on the table [register] left
    answers 200 and shows the same user. *)
Theorem register_then_login (w w' : Auth.World) (engine : Engine)
    (users : list Auth.UserRow) (payload : Auth.RegisterSchema)
    (body : Auth.TokenSchema) :
  NoDup (List.map Auth.username users) ->
  Auth.check_password w' (Auth.reg_password payload)
                      (Auth.make_password w (Auth.reg_password payload)) = true ->
  (Auth.register w engine users payload).1 = Auth.Status200 body ->
  exists body',
    Auth.login w' (Auth.register w engine users payload).2
               (Auth.mkLogin (Auth.reg_username payload)
                             (Auth.reg_password payload))
    = Auth.Status200 body' /\
    Auth.token_user body' = Auth.token_user body.
Proof.
  intros Hnames Hcheck. unfold Auth.register.
  destruct (parameter_refused engine (Auth.reg_username payload));
    [discriminate|].
  destruct (existsb _ users) eqn:Hname; [discriminate|]. cbv zeta.
  destruct (truthy (default [] (Auth.reg_email payload))
            && parameter_refused engine _); [discriminate|].
  destruct (truthy (default [] (Auth.reg_email payload)) && existsb _ users);
    [discriminate|].
  destruct (_ || _); [discriminate|]. cbn [fst snd]. intros [= <-].
  unfold Auth.login. cbn [Auth.login_username Auth.login_password].
  rewrite List.filter_app. rewrite filter_none.
  - cbn [List.filter Auth.username app]. unfold str_eqb.
    rewrite bool_decide_eq_true_2 by reflexivity.
    cbn [Auth.password]. rewrite Hcheck. cbn [negb].
    eexists. split; reflexivity.
  - intros u Hu. exact (existsb_false_elem _ _ Hname u Hu).
Qed.

(** X29 on a new user beside an old one. *)
Lemma register_then_login_witness :
  exists body,
    Auth.login Cases.plain_hasher
      (Auth.register Cases.plain_hasher Sqlite [Cases.alice]
         (Auth.mkRegister (lit "bob") (lit "pw") (Some (lit "b@x.org")))).2
      (Auth.mkLogin (lit "bob") (lit "pw"))
    = Auth.Status200 body /\
    Auth.us_username (Auth.token_user body) = lit "bob".
Proof.
  assert (Hn : NoDup (List.map Auth.username [Cases.alice]))
    by apply NoDup_singleton.
  destruct (register_then_login Cases.plain_hasher Cases.plain_hasher Sqlite
              [Cases.alice]
              (Auth.mkRegister (lit "bob") (lit "pw") (Some (lit "b@x.org")))
              (Auth.token_for Cases.plain_hasher
                 (Auth.mkUser 3%N (lit "bob") (lit "b@x.org") (lit "hash:pw")
                              false))
              Hn eq_refl eq_refl) as (body & Hlogin & Huser).
  exists body. split; [exact Hlogin|]. rewrite Huser. reflexivity.
Defined.
